(** * Complaint analysis pipeline: a shallow embedding of the agents

    The development follows the Deno edge functions of the repository:
    the ingestion agent (validator), the understanding agent (fingerprint
    generator), the discovery agent (k-means clustering and its request
    handler), the priority agent (composite score and trend), the
    explainability agent (keywords, samples, explanation of the priority)
    and the orchestrator's submission workflow; and the badge helpers of
    the two problem screens.

    Part I embeds the code, function by function, under the names of the
    source.  Part II states and proves the properties.

    Conventions of the embedding.
    - A JavaScript string is a [string] whose characters are read as the
      code units U+0000..U+00FF (Latin-1); white space, case mapping and
      line terminators are the ECMAScript ones restricted to that range.
    - A JavaScript number is an element of a [Number] structure.  Three
      instances are given: IEEE-754 binary64 ([float], executable, what
      the engine computes), the real numbers ([R], exact arithmetic) and
      the real numbers with every operation rounded ([rounded_Number],
      the standard model of floating point).
      Statements that only depend on the control structure are proved for
      every instance; statements that only need the order or the
      commutativity of the operations are proved on binary64 as well.
      Statements that need more algebra on the values are proved on [R],
      where rounding is absent, on inputs for which no NaN arises (on [R]
      the field [nan] is a placeholder that is never read in those
      statements); where the values involved only depend on the length
      of a list, they are also evaluated on binary64 for every length up
      to a stated bound.
    - Array lengths, loop counters and 32-bit hashes are integers.
    - [Math.random], [Date.now], [gen_random_uuid] and
      [crypto.randomUUID] are parameters of the functions that call them.
    - The store is a record of tables; its operations succeed.  What the
      [vector(384)] column gives back for a vector written to it is a
      parameter of the submission workflow.
    - [Array.prototype.sort] is stable; with a comparator [key(b) - key(a)]
      on integer keys it is the stable sort by descending key. *)

From Stdlib Require Import ZArith NArith List String Ascii Bool Lia.
From Stdlib Require Import Permutation Sorted Reals Lra Floats.
Import ListNotations.

Local Open Scope string_scope.

(* ################################################################## *)
(** * Part I: the code                                                 *)
(* ################################################################## *)

(* ================================================================== *)
(** * JavaScript string primitives (Latin-1 range)                     *)
(* ================================================================== *)

Module JSString.

(** [\s] and the characters stripped by [trim]: TAB, LF, VT, FF, CR,
    SPACE and NO-BREAK SPACE. *)
Definition isWhiteSpace (c : ascii) : bool :=
  let n := N_of_ascii c in
  (((9 <=? n) && (n <=? 13)) || (n =? 32) || (n =? 160))%N.

(** Line terminators, the characters the regular-expression dot rejects. *)
Definition isLineTerminator (c : ascii) : bool :=
  let n := N_of_ascii c in ((n =? 10) || (n =? 13))%N.

(** [String.prototype.toLowerCase] on one code unit: A-Z and the
    Latin-1 capitals U+00C0..U+00DE (the multiplication sign excepted). *)
Definition toLowerCaseChar (c : ascii) : ascii :=
  let n := N_of_ascii c in
  if (((65 <=? n) && (n <=? 90))
      || ((192 <=? n) && (n <=? 222) && negb (n =? 215)))%N
  then ascii_of_N (n + 32) else c.

Fixpoint toLowerCase (s : string) : string :=
  match s with
  | EmptyString => EmptyString
  | String c r => String (toLowerCaseChar c) (toLowerCase r)
  end.

Fixpoint trimStart (s : string) : string :=
  match s with
  | EmptyString => EmptyString
  | String c r => if isWhiteSpace c then trimStart r else s
  end.

Fixpoint trimEnd (s : string) : string :=
  match s with
  | EmptyString => EmptyString
  | String c r =>
      match trimEnd r with
      | EmptyString => if isWhiteSpace c then EmptyString else String c EmptyString
      | r' => String c r'
      end
  end.

Definition trim (s : string) : string := trimEnd (trimStart s).

(** [s.replace(/\s+/g, ' ')]: every maximal run of white space becomes one
    space.  [inRun] tells whether the previous character was white space. *)
Fixpoint collapseFrom (inRun : bool) (s : string) : string :=
  match s with
  | EmptyString => EmptyString
  | String c r =>
      if isWhiteSpace c
      then if inRun then collapseFrom true r
           else String " " (collapseFrom true r)
      else String c (collapseFrom false r)
  end.

Definition collapseWhitespace (s : string) : string := collapseFrom false s.

(** [s.split(' ')]: the empty string splits into one empty piece, two
    adjacent spaces enclose an empty piece. *)
Fixpoint split (s : string) : list string :=
  match s with
  | EmptyString => [EmptyString]
  | String c r =>
      if Ascii.eqb c " " then EmptyString :: split r
      else match split r with
           | [] => [String c EmptyString]
           | w :: ws => String c w :: ws
           end
  end.

(** [ws.join(' ')]. *)
Fixpoint join (ws : list string) : string :=
  match ws with
  | [] => EmptyString
  | w :: rest =>
      match rest with
      | [] => w
      | _ :: _ => w ++ String " " (join rest)
      end
  end.

Fixpoint startsWith (p s : string) : bool :=
  match p, s with
  | EmptyString, _ => true
  | String a p', String b s' => Ascii.eqb a b && startsWith p' s'
  | String _ _, EmptyString => false
  end.

(** [s.includes(sub)]. *)
Fixpoint includes (s sub : string) : bool :=
  startsWith sub s ||
  match s with
  | EmptyString => false
  | String _ r => includes r sub
  end.

Definition has (ws : list string) (w : string) : bool :=
  existsb (String.eqb w) ws.

Fixpoint replicate (n : nat) (c : ascii) : string :=
  match n with
  | O => EmptyString
  | S m => String c (replicate m c)
  end.

(** The characters of a string, as a list. *)
Definition chars (s : string) : list ascii := list_ascii_of_string s.

End JSString.

(* ================================================================== *)
(** * Ingestion agent: the validator                                   *)
(* ================================================================== *)

Module Ingestion.
Import JSString.

Record IngestionOutput := {
  cleaned_text : string;
  location : string;
  is_valid : bool;
  reason : string
}.

Definition stopWords : list string :=
  [ "the"; "is"; "at"; "which"; "on"; "a"; "an"; "and"; "or"; "but";
    "in"; "with"; "to"; "for"; "of"; "as"; "by"; "this"; "that" ].

Definition keepWord (word : string) : bool :=
  (2 <? String.length word)%nat && negb (has stopWords word).

(** The [words] array of the handler: trim, lower-case, collapse white
    space, split on single spaces, filter. *)
Definition words (text : string) : list string :=
  filter keepWord (split (collapseWhitespace (toLowerCase (trim text)))).

(** [/^(.)\1{5,}/.test(text)]. *)
Definition repeatedPrefix (text : string) : bool :=
  match text with
  | EmptyString => false
  | String c r => negb (isLineTerminator c) && startsWith (replicate 5 c) r
  end.

Definition validate (text loc : string) : IngestionOutput :=
  let ws := words text in
  let verdict :=
    if (String.length text <? 10)%nat
    then (false, "Text too short (minimum 10 characters)")
    else if (List.length ws <? 3)%nat
    then (false, "Not enough meaningful words")
    else if repeatedPrefix text
    then (false, "Contains repeated characters (spam detected)")
    else (true, "") in
  {| cleaned_text := join ws;
     location := trim loc;
     is_valid := fst verdict;
     reason := snd verdict |}.

(** The token list of a cleaned text, as read back by the later stages
    ([cleaned_text.split(' ')]). *)
Definition tokens (out : IngestionOutput) : list string :=
  split (cleaned_text out).

Definition scenarioC : string :=
  "Water is leaking badly near my house every single day".

End Ingestion.


(* ================================================================== *)
(** * JavaScript numbers                                               *)
(* ================================================================== *)

Module JSNumber.

(** The operations the agents use on numbers.  [nan] is what arithmetic on
    [undefined] yields; [ofZ] injects an integer (a literal, a length, a
    millisecond timestamp). *)
Class Number (num : Type) := {
  ofZ : Z -> num;
  nan : num;
  add : num -> num -> num;
  sub : num -> num -> num;
  mul : num -> num -> num;
  div : num -> num -> num;
  sqrt : num -> num;
  lt : num -> num -> bool;
  eq : num -> num -> bool
}.

(** Host functions of [Math] that are not field operations. *)
Class MathLib (num : Type) := {
  round : num -> num;
  log10 : num -> num
}.

Section Derived.
Context {num : Type} {N : Number num}.

Definition zero : num := ofZ 0.
Definition one : num := ofZ 1.
Definition ofNat (n : nat) : num := ofZ (Z.of_nat n).

(** A decimal literal [p/q], e.g. [0.35] is [dec 35 100]: on binary64 the
    correctly rounded quotient of two small integers is the double nearest
    to the decimal, which is what the literal denotes. *)
Definition dec (p q : Z) : num := div (ofZ p) (ofZ q).

Definition gt (a b : num) : bool := lt b a.
Definition isNaN (a : num) : bool := negb (eq a a).

(** [Math.min(a, b)] and [Math.max(a, b)] (the sign of a zero result
    apart). *)
Definition min (a b : num) : num :=
  if isNaN a then a else if isNaN b then b else if lt b a then b else a.

Definition max (a b : num) : num :=
  if isNaN a then a else if isNaN b then b else if lt a b then b else a.

(** [arr[i]] read inside arithmetic: out of range it is [undefined],
    which arithmetic turns into NaN. *)
Definition get (arr : list num) (i : nat) : num := nth i arr nan.

(** [arr[i] = v]: in range the cell is replaced; past the end the array is
    extended and the cells skipped over read as [undefined]. *)
Fixpoint assign (i : nat) (v : num) (arr : list num) : list num :=
  match i, arr with
  | O, [] => [v]
  | O, _ :: t => v :: t
  | S j, [] => nan :: assign j v []
  | S j, x :: t => x :: assign j v t
  end.

End Derived.

(** ** IEEE-754 binary64 *)

Definition float_ofZ (z : Z) : float :=
  SF2Prim (binary_normalize prec emax z 0 false).

#[export] Instance float_Number : Number float := {|
  ofZ := float_ofZ;
  nan := PrimFloat.nan;
  add := PrimFloat.add;
  sub := PrimFloat.sub;
  mul := PrimFloat.mul;
  div := PrimFloat.div;
  sqrt := PrimFloat.sqrt;
  lt := PrimFloat.ltb;
  eq := PrimFloat.eqb
|}.

(** An integer result of [Math.round] or [Math.ceil] as a double: a
    zero result of a negative argument is -0. *)
Definition float_signed (negative : bool) (z : Z) : float :=
  if negative && (z =? 0)%Z then neg_zero else float_ofZ z.

(** [Math.round] on a double: the nearest integer, ties towards
    +infinity; NaN, the infinities and the zeros are returned as they
    are. *)
Definition float_round (x : float) : float :=
  match Prim2SF x with
  | S754_finite s m e =>
      let v := if s then Z.neg m else Z.pos m in
      if (0 <=? e)%Z then x
      else float_signed s ((2 * v + 2 ^ (- e)) / 2 ^ (- e + 1))%Z
  | _ => x
  end.

(** [Math.ceil] on a double. *)
Definition float_ceil (x : float) : float :=
  match Prim2SF x with
  | S754_finite s m e =>
      let v := if s then Z.neg m else Z.pos m in
      if (0 <=? e)%Z then x
      else float_signed s (- ((- v) / 2 ^ (- e)))%Z
  | _ => x
  end.

(** [Math.log10] of NaN is NaN; on other arguments the engine's
    approximation is taken as given. *)
Definition float_MathLib (engine_log10 : float -> float) : MathLib float := {|
  round := float_round;
  log10 := fun x => if PrimFloat.is_nan x then PrimFloat.nan else engine_log10 x
|}.

(** ** Exact real arithmetic

    The reals have no NaN: [nan] is a placeholder here, and the statements
    made on this instance concern inputs on which the code reads no
    [undefined] cell and produces no NaN. *)

Definition R_lt (a b : R) : bool := if Rlt_dec a b then true else false.
Definition R_eq (a b : R) : bool := if Req_dec_T a b then true else false.

(** [floor (x + 1/2)]. *)
Definition R_round (x : R) : R := IZR (up (x + / 2) - 1).

Definition R_log10 (x : R) : R := (ln x / ln 10)%R.

#[export] Instance R_Number : Number R := {|
  ofZ := IZR;
  nan := 0%R;
  add := Rplus;
  sub := Rminus;
  mul := Rmult;
  div := Rdiv;
  sqrt := R_sqrt.sqrt;
  lt := R_lt;
  eq := R_eq
|}.

#[export] Instance R_MathLib : MathLib R := {|
  round := R_round;
  log10 := R_log10
|}.

(** ** Rounded real arithmetic

    The standard model of floating point: an operation returns its exact
    result rounded by [rnd]; comparisons are exact.  Binary64 is such an
    arithmetic, with a relative rounding error of at most 2^-53, as long
    as a result neither overflows nor underflows. *)

(** 2^-53. *)
Definition unitRoundoff : R := (/ 9007199254740992)%R.

Definition rounded_Number (rnd : R -> R) : Number R := {|
  ofZ := fun z => rnd (IZR z);
  nan := 0%R;
  add := fun x y => rnd (x + y)%R;
  sub := fun x y => rnd (x - y)%R;
  mul := fun x y => rnd (x * y)%R;
  div := fun x y => rnd (x / y)%R;
  sqrt := fun x => rnd (R_sqrt.sqrt x);
  lt := R_lt;
  eq := R_eq
|}.

End JSNumber.

(* ================================================================== *)
(** * Understanding agent: the fingerprint generator                   *)
(* ================================================================== *)

Module Understanding.
Import JSString JSNumber.

(** [ToInt32]: wrap-around to the signed 32-bit range. *)
Definition toInt32 (z : Z) : Z := ((z + 2 ^ 31) mod 2 ^ 32 - 2 ^ 31)%Z.

Definition charCode (c : ascii) : Z := Z.of_N (N_of_ascii c).

(** One round of the loop of [simpleHash]:
    [hash = ((hash << 5) - hash) + char; hash = hash & hash]. *)
Definition hashStep (hash : Z) (c : ascii) : Z :=
  toInt32 (toInt32 (hash * 32) - hash + charCode c).

Definition simpleHash (str : string) : Z :=
  Z.abs (fold_left hashStep (chars str) 0%Z).

Definition problemCategories : list (list string) :=
  [ ["water"; "tap"; "supply"; "pipe"; "leak"; "drinking"; "dry"; "shortage"];
    ["road"; "street"; "pothole"; "crack"; "damage"; "broken"; "repair"; "pavement"];
    ["garbage"; "trash"; "waste"; "dump"; "smell"; "dirty"; "cleanliness"; "bin"];
    ["electric"; "power"; "light"; "street"; "lamp"; "dark"; "outage"; "wire"];
    ["drain"; "sewage"; "overflow"; "block"; "clog"; "flood"; "stagnant"; "smell"];
    ["noise"; "loud"; "sound"; "construction"; "pollution"; "disturbance"];
    ["health"; "hospital"; "clinic"; "medicine"; "doctor"; "medical"; "emergency"];
    ["safety"; "crime"; "theft"; "danger"; "security"; "police"; "unsafe"];
    ["park"; "garden"; "tree"; "green"; "playground"; "maintenance"];
    ["transport"; "bus"; "traffic"; "signal"; "vehicle"; "parking"; "congestion"] ].

Definition severityTerms : list (list string) :=
  [ ["urgent"; "emergency"; "critical"; "immediate"; "severe"; "dangerous"];
    ["important"; "serious"; "concern"; "problem"; "issue"; "need"];
    ["help"; "please"; "request"; "require"; "necessary"] ].

Definition dimension : nat := 384.

Section Embedding.
Context {num : Type} {N : Number num}.

(** [text.toLowerCase().split(' ')]. *)
Definition wordsOf (text : string) : list string := split (toLowerCase text).

(** The inner loop over [words] of a category keyword: each word that
    contains the keyword, or is contained in it, adds 0.5. *)
Definition substringHits (words : list string) (keyword : string) (score : num) : num :=
  fold_left
    (fun s word =>
       if includes word keyword || includes keyword word
       then add s (dec 1 2) else s)
    words score.

Definition categoryScore (words : list string) (category : list string) : num :=
  fold_left
    (fun score keyword =>
       substringHits words keyword
         (if has words keyword then add score one else score))
    category zero.

Definition severityScore (words : list string) (severity : list string) : num :=
  fold_left
    (fun score keyword => if has words keyword then add score one else score)
    severity zero.

(** [for (let i = 0; i < width; i++) embedding[baseIdx + i] = v]. *)
Definition fillBand (baseIdx width : nat) (v : num) (embedding : list num) : list num :=
  fold_left (fun e i => assign (baseIdx + i) v e) (seq 0 width) embedding.

(** [groups.forEach((group, idx) => ...)] filling the band of each group,
    groups numbered from [idx]. *)
Fixpoint fillBands (score : list string -> num) (base width : nat)
    (idx : nat) (groups : list (list string)) (embedding : list num) : list num :=
  match groups with
  | [] => embedding
  | group :: rest =>
      fillBands score base width (S idx) rest
        (fillBand (base + idx * width) width
           (div (score group) (ofNat (List.length group + 1))) embedding)
  end.

Definition categoryStage (words : list string) (embedding : list num) : list num :=
  fillBands (categoryScore words) 0 30 0 problemCategories embedding.

Definition severityStage (words : list string) (embedding : list num) : list num :=
  fillBands (severityScore words) 300 20 0 severityTerms embedding.

(** The hashed bag of words: [embedding[hash % 384] += 0.1] for every
    word longer than 3. *)
Definition hashStage (words : list string) (embedding : list num) : list num :=
  fold_left
    (fun e word =>
       if (3 <? String.length word)%nat
       then let position := Z.to_nat (simpleHash word mod 384) in
            assign position (add (get e position) (dec 1 10)) e
       else e)
    words embedding.

Definition sumSquares (embedding : list num) : num :=
  fold_left (fun sum val => add sum (mul val val)) embedding zero.

Definition magnitude (embedding : list num) : num := sqrt (sumSquares embedding).

(** The last step: divide by the magnitude when it is positive. *)
Definition normalize (embedding : list num) : list num :=
  if gt (magnitude embedding) zero
  then map (fun val => div val (magnitude embedding)) embedding
  else embedding.

(** The vector before the last step. *)
Definition rawEmbedding (text : string) : list num :=
  let words := wordsOf text in
  hashStage words
    (severityStage words (categoryStage words (repeat zero dimension))).

Definition generateEmbedding (text : string) : list num :=
  normalize (rawEmbedding text).

(** What the specification's sentence on urgency bands describes: the
    category formula (exact hits plus half-weighted substring hits, over
    size + 1) applied to an urgency tier. *)
Definition specTierValue (words : list string) (tier : list string) : num :=
  div (categoryScore words tier) (ofNat (List.length tier + 1)).

(** What the code stores in every cell of a tier's band. *)
Definition tierValue (words : list string) (tier : list string) : num :=
  div (severityScore words tier) (ofNat (List.length tier + 1)).

End Embedding.

End Understanding.

(* ================================================================== *)
(** * The record store (tables of the migration)                       *)
(* ================================================================== *)

Module Store.

Section Rows.
Context {num : Type}.

(** A row of [complaints]; [created_at] is the instant in milliseconds
    that [new Date(created_at).getTime()] yields. *)
Record ComplaintRow := {
  c_id : string;
  c_text : string;
  c_cleaned_text : string;
  c_location : string;
  c_status : string;
  c_embedding : option (list num);
  c_created_at : Z
}.

Record ProblemRow := {
  p_id : string;
  p_title : string;
  p_cluster_id : Z;
  p_complaint_count : nat;
  p_priority_score : num;
  p_trend : string;
  p_keywords : list string
}.

Record LinkRow := {
  l_complaint_id : string;
  l_problem_id : string;
  l_confidence : num
}.

Record LogRow := {
  g_id : string;
  g_agent_name : string;
  g_status : string
}.

Record DB := {
  complaints_table : list ComplaintRow;
  problems_table : list ProblemRow;
  complaint_problems_table : list LinkRow;
  agent_logs_table : list LogRow
}.

End Rows.

Arguments ComplaintRow : clear implicits.
Arguments ProblemRow : clear implicits.
Arguments LinkRow : clear implicits.
Arguments DB : clear implicits.

Definition nilUUID : string := "00000000-0000-0000-0000-000000000000".

End Store.

(* ================================================================== *)
(** * Discovery agent: k-means on cosine similarity                    *)
(* ================================================================== *)

Module Discovery.
Import JSString JSNumber Store.

Section Clustering.
Context {num : Type} {N : Number num}.

Record Complaint := {
  id : string;
  cleaned_text : string;
  embedding : list num;
  location : string
}.

Record Cluster := {
  cluster_id : Z;
  complaints : list Complaint;
  centroid : list num;
  title : string
}.

Definition cosineSimilarity (a b : list num) : num :=
  let '(dotProduct, magnitudeA, magnitudeB) :=
    fold_left
      (fun '(d, ma, mb) i =>
         (add d (mul (get a i) (get b i)),
          add ma (mul (get a i) (get a i)),
          add mb (mul (get b i) (get b i))))
      (seq 0 (List.length a)) (zero, zero, zero) in
  let magnitudeA := sqrt magnitudeA in
  let magnitudeB := sqrt magnitudeB in
  if eq magnitudeA zero || eq magnitudeB zero then zero
  else div dotProduct (mul magnitudeA magnitudeB).

(** The seeding loop.  [rand i] is the outcome of the i-th call of
    [Math.random], already scaled: [Math.floor(Math.random() * n)] is an
    index below [n], here [rand i mod n]. *)
Definition initialClusters (rand : nat -> nat) (first : Complaint)
    (input : list Complaint) (k : Z) : list Cluster :=
  map
    (fun i =>
       let randomComplaint := nth (rand i mod List.length input) input first in
       {| cluster_id := Z.of_nat i;
          complaints := [];
          centroid := embedding randomComplaint;
          title := "" |})
    (seq 0 (Z.to_nat k)).

(** The inner [clusters.forEach]: index of the first cluster of highest
    similarity, 0 when none beats -1. *)
Definition bestCluster (clusters : list Cluster) (complaint : Complaint) : nat :=
  fst
    (fold_left
       (fun '(best, bestSimilarity) '(idx, cluster) =>
          let similarity := cosineSimilarity (embedding complaint) (centroid cluster) in
          if gt similarity bestSimilarity then (idx, similarity)
          else (best, bestSimilarity))
       (combine (seq 0 (List.length clusters)) clusters)
       (O, ofZ (-1))).

Definition addMember (complaint : Complaint) (cluster : Cluster) : Cluster :=
  {| cluster_id := cluster_id cluster;
     complaints := complaints cluster ++ [complaint];
     centroid := centroid cluster;
     title := title cluster |}.

(** [clusters[idx].complaints.push(complaint)]; [None] is the TypeError
    raised when [clusters[idx]] is [undefined]. *)
Fixpoint pushAt (idx : nat) (complaint : Complaint) (clusters : list Cluster)
    : option (list Cluster) :=
  match clusters, idx with
  | [], _ => None
  | cluster :: rest, O => Some (addMember complaint cluster :: rest)
  | cluster :: rest, S j => option_map (cons cluster) (pushAt j complaint rest)
  end.

Fixpoint assignAll (input : list Complaint) (clusters : list Cluster)
    : option (list Cluster) :=
  match input with
  | [] => Some clusters
  | complaint :: rest =>
      match pushAt (bestCluster clusters complaint) complaint clusters with
      | None => None
      | Some clusters' => assignAll rest clusters'
      end
  end.

Definition clearMembers (cluster : Cluster) : Cluster :=
  {| cluster_id := cluster_id cluster;
     complaints := [];
     centroid := centroid cluster;
     title := title cluster |}.

(** [complaint.embedding.forEach((val, idx) => newCentroid[idx] += val)]:
    past the end of [newCentroid] the sum is [undefined + val]. *)
Fixpoint accumulate (newCentroid vals : list num) : list num :=
  match newCentroid, vals with
  | acc, [] => acc
  | [], _ :: vals' => nan :: accumulate [] vals'
  | a :: acc', val :: vals' => add a val :: accumulate acc' vals'
  end.

Definition meanOf (embeddingDim : nat) (members : list Complaint) : list num :=
  map (fun val => div val (ofNat (List.length members)))
    (fold_left (fun acc complaint => accumulate acc (embedding complaint))
       members (repeat zero embeddingDim)).

(** The body of the second [clusters.forEach]: an empty cluster is left
    alone; otherwise the centroid moves when its similarity to the mean
    of the members is below 0.999. *)
Definition recenter (embeddingDim : nat) (cluster : Cluster) : bool * Cluster :=
  match complaints cluster with
  | [] => (false, cluster)
  | _ :: _ =>
      let newCentroid := meanOf embeddingDim (complaints cluster) in
      let distance := cosineSimilarity (centroid cluster) newCentroid in
      if lt distance (dec 999 1000)
      then (true, {| cluster_id := cluster_id cluster;
                     complaints := complaints cluster;
                     centroid := newCentroid;
                     title := title cluster |})
      else (false, cluster)
  end.

Definition updateCentroids (embeddingDim : nat) (clusters : list Cluster)
    : bool * list Cluster :=
  let results := map (recenter embeddingDim) clusters in
  (existsb fst results, map snd results).

(** The main loop, [fuel] rounds left. *)
Fixpoint iterate (fuel : nat) (embeddingDim : nat) (input : list Complaint)
    (clusters : list Cluster) : option (list Cluster) :=
  match fuel with
  | O => Some clusters
  | S fuel' =>
      match assignAll input (map clearMembers clusters) with
      | None => None
      | Some assigned =>
          let '(changed, updated) := updateCentroids embeddingDim assigned in
          if changed then iterate fuel' embeddingDim input updated
          else Some updated
      end
  end.

Definition maxIterations : nat := 20.

Definition nonEmpty (cluster : Cluster) : bool :=
  (0 <? List.length (complaints cluster))%nat.

(** [k] is the number of clusters asked for, an integer (the handler
    passes one between 3 and 8).  [None]: the call throws. *)
Definition kMeansClustering (rand : nat -> nat) (input : list Complaint) (k : Z)
    : option (list Cluster) :=
  match input with
  | [] => Some []
  | first :: _ =>
      let k := Z.min k (Z.of_nat (List.length input)) in
      let embeddingDim := List.length (embedding first) in
      match iterate maxIterations embeddingDim input
              (initialClusters rand first input k) with
      | None => None
      | Some clusters => Some (filter nonEmpty clusters)
      end
  end.

End Clustering.

Arguments Complaint : clear implicits.
Arguments Cluster : clear implicits.

End Discovery.

(* ================================================================== *)
(** * Discovery agent: the request handler                             *)
(* ================================================================== *)

Module DiscoveryAgent.
Import JSString JSNumber Store Discovery.

Record Created := {
  created_id : string;
  created_title : string;
  created_count : nat
}.

(** [Math.ceil(n / 3)] on an array length. *)
Definition ceilThird (n : Z) : Z := (- ((- n) / 3))%Z.

(** [Math.min(Math.max(3, Math.ceil(n / 3)), 8)]. *)
Definition numClusters (n : nat) : Z :=
  Z.min (Z.max 3 (ceilThird (Z.of_nat n))) 8.

(** The same expression as the engine evaluates it, on doubles. *)
Definition numClustersNumber (n : nat) : float :=
  min (max (ofZ 3) (float_ceil (div (ofNat n) (ofZ 3)))) (ofZ 8).

Section Handler.
Context {num : Type} {N : Number num}.

(** The title generator only produces display text; it is a parameter. *)
Variable generateClusterTitle : list (Complaint num) -> string.

(** [rand]: the draws of [Math.random]; [newId i]: the identifier
    [gen_random_uuid()] gives to the i-th problem inserted by the run;
    [logId]: the run's [crypto.randomUUID()]. *)
Variable rand : nat -> nat.
Variable newId : nat -> string.
Variable logId : string.

Inductive Outcome :=
| Completed (db : DB num) (created : list Created)
| Failed (db : DB num).

(** [.not('embedding', 'is', null).eq('status', 'processing')]. *)
Definition eligible (row : ComplaintRow num) : bool :=
  match c_embedding row with
  | Some _ => String.eqb (c_status row) "processing"
  | None => false
  end.

Definition parseComplaint (row : ComplaintRow num) : Complaint num :=
  {| id := c_id row;
     cleaned_text := c_cleaned_text row;
     embedding := match c_embedding row with Some e => e | None => [] end;
     location := c_location row |}.

Definition insertLog (status : string) (db : DB num) : DB num :=
  {| complaints_table := complaints_table db;
     problems_table := problems_table db;
     complaint_problems_table := complaint_problems_table db;
     agent_logs_table :=
       agent_logs_table db
       ++ [{| g_id := logId; g_agent_name := "discovery"; g_status := status |}] |}.

Definition completeLog (db : DB num) : DB num :=
  {| complaints_table := complaints_table db;
     problems_table := problems_table db;
     complaint_problems_table := complaint_problems_table db;
     agent_logs_table :=
       map (fun g => if String.eqb (g_id g) logId
                     then {| g_id := g_id g; g_agent_name := g_agent_name g;
                             g_status := "completed" |}
                     else g)
         (agent_logs_table db) |}.

(** [from('problems').delete().neq('id', x)]; the foreign key of
    [complaint_problems] is ON DELETE CASCADE. *)
Definition deleteProblemsNeq (x : string) (db : DB num) : DB num :=
  let gone := filter (fun p => negb (String.eqb (p_id p) x)) (problems_table db) in
  {| complaints_table := complaints_table db;
     problems_table := filter (fun p => String.eqb (p_id p) x) (problems_table db);
     complaint_problems_table :=
       filter (fun l => negb (existsb (fun p => String.eqb (p_id p) (l_problem_id l)) gone))
         (complaint_problems_table db);
     agent_logs_table := agent_logs_table db |}.

(** [from('complaint_problems').delete().neq('complaint_id', x)]. *)
Definition deleteLinksNeq (x : string) (db : DB num) : DB num :=
  {| complaints_table := complaints_table db;
     problems_table := problems_table db;
     complaint_problems_table :=
       filter (fun l => String.eqb (l_complaint_id l) x) (complaint_problems_table db);
     agent_logs_table := agent_logs_table db |}.

Definition problemOf (pid : string) (cluster : Cluster num) : ProblemRow num :=
  {| p_id := pid;
     p_title := generateClusterTitle (complaints cluster);
     p_cluster_id := cluster_id cluster;
     p_complaint_count := List.length (complaints cluster);
     p_priority_score := zero;
     p_trend := "stable";
     p_keywords := [] |}.

Definition linkOf (pid : string) (complaint : Complaint num) : LinkRow num :=
  {| l_complaint_id := id complaint; l_problem_id := pid; l_confidence := dec 8 10 |}.

Definition markAnalyzed (cid : string) (row : ComplaintRow num) : ComplaintRow num :=
  if String.eqb (c_id row) cid
  then {| c_id := c_id row; c_text := c_text row;
          c_cleaned_text := c_cleaned_text row; c_location := c_location row;
          c_status := "analyzed"; c_embedding := c_embedding row;
          c_created_at := c_created_at row |}
  else row.

(** The body of the inner loop: one link inserted, one complaint updated. *)
Definition linkMember (pid : string) (db : DB num) (complaint : Complaint num) : DB num :=
  {| complaints_table := map (markAnalyzed (id complaint)) (complaints_table db);
     problems_table := problems_table db;
     complaint_problems_table := complaint_problems_table db ++ [linkOf pid complaint];
     agent_logs_table := agent_logs_table db |}.

Definition insertProblem (row : ProblemRow num) (db : DB num) : DB num :=
  {| complaints_table := complaints_table db;
     problems_table := problems_table db ++ [row];
     complaint_problems_table := complaint_problems_table db;
     agent_logs_table := agent_logs_table db |}.

(** The body of [for (const cluster of clusters)]. *)
Definition storeCluster (state : DB num * list Created) (cluster : Cluster num)
    : DB num * list Created :=
  let '(db, problemsCreated) := state in
  let pid := newId (List.length problemsCreated) in
  let row := problemOf pid cluster in
  let db := fold_left (linkMember pid) (complaints cluster) (insertProblem row db) in
  (db, (problemsCreated
        ++ [{| created_id := pid; created_title := p_title row;
               created_count := List.length (complaints cluster) |}])%list).

Definition discoveryAgent (db : DB num) : Outcome :=
  let db := insertLog "running" db in
  let selected := filter eligible (complaints_table db) in
  match selected with
  | [] => Completed (completeLog db) []
  | _ :: _ =>
      let parsedComplaints := map parseComplaint selected in
      match kMeansClustering rand parsedComplaints
              (numClusters (List.length parsedComplaints)) with
      | None => Failed db
      | Some clusters =>
          let db := deleteLinksNeq nilUUID (deleteProblemsNeq nilUUID db) in
          let '(db, problemsCreated) := fold_left storeCluster clusters (db, []) in
          Completed (completeLog db) problemsCreated
      end
  end.

End Handler.

End DiscoveryAgent.

(* ================================================================== *)
(** * Plain objects used as counters                                   *)
(* ================================================================== *)

Module JSObject.
Import JSNumber.

(** What a cell of [{ [key: string]: number }] can hold after
    [obj[key] = (obj[key] || 0) + 1]: a count, or a string (the result of
    [+] on a value that is not a number). *)
Inductive value :=
| Count (n : Z)
| Text.

(** The own properties, in insertion order. *)
Definition object := list (string * value).

(** Property names every object literal inherits from
    [Object.prototype]; reading one on [{}] yields a function (an object
    for [__proto__]), never [undefined]. *)
Definition inheritedNames : list string :=
  [ "constructor"; "toString"; "toLocaleString"; "valueOf";
    "hasOwnProperty"; "isPrototypeOf"; "propertyIsEnumerable";
    "__defineGetter__"; "__defineSetter__"; "__lookupGetter__";
    "__lookupSetter__"; "__proto__" ].

Fixpoint own (obj : object) (key : string) : option value :=
  match obj with
  | [] => None
  | (k, v) :: rest => if String.eqb k key then Some v else own rest key
  end.

Fixpoint store (obj : object) (key : string) (v : value) : object :=
  match obj with
  | [] => [(key, v)]
  | (k, w) :: rest =>
      if String.eqb k key then (k, v) :: rest else (k, w) :: store rest key v
  end.

(** [obj[key] = (obj[key] || 0) + 1].  An own count is incremented; an
    absent key starts at 1, unless the name is inherited: then the read
    is truthy, [+ 1] concatenates, and a string is stored (for
    [__proto__] the assignment of a string is ignored). *)
Definition bump (obj : object) (key : string) : object :=
  match own obj key with
  | Some (Count n) => store obj key (Count (if (n =? 0)%Z then 1 else n + 1))
  | Some Text => store obj key Text
  | None =>
      if JSString.has inheritedNames key
      then if String.eqb key "__proto__" then obj else store obj key Text
      else store obj key (Count 1)
  end.

Definition values (obj : object) : list value := map snd obj.

Section ToNumber.
Context {num : Type} {N : Number num}.

Definition toNumber (v : value) : num :=
  match v with
  | Count n => ofZ n
  | Text => nan
  end.

(** [Math.max(...vals, 1)]. *)
Definition maxWithOne (vals : list value) : num :=
  fold_left (fun m v => max m (toNumber v)) vals one.

End ToNumber.

End JSObject.

(* ================================================================== *)
(** * Priority agent: composite score and trend                        *)
(* ================================================================== *)

Module Priority.
Import JSString JSNumber JSObject Store.

Definition urgentKeywords : list string :=
  [ "urgent"; "emergency"; "critical"; "immediate"; "severe"; "dangerous";
    "unsafe"; "health"; "hospital"; "children"; "death"; "injury" ].

Definition importantKeywords : list string :=
  [ "important"; "serious"; "concern"; "problem"; "broken"; "damage";
    "leak"; "overflow"; "stuck" ].

Definition oneDay : Z := 24 * 60 * 60 * 1000.
Definition oneWeek : Z := 7 * oneDay.

Section Scorer.
Context {num : Type} {N : Number num} {M : MathLib num}.

Record PriorityFactors := {
  complaint_count : num;
  severity_score : num;
  recency_score : num;
  location_density : num
}.

Definition createdAt (c : ComplaintRow num) : num := ofZ (c_created_at c).

Definition keywordHits (text : string) (keywords : list string) (weight : num)
    (score : num) : num :=
  fold_left
    (fun s keyword => if includes text keyword then add s weight else s)
    keywords score.

Definition calculateSeverityScore (complaints : list (ComplaintRow num)) : num :=
  let severityScore :=
    fold_left
      (fun s complaint =>
         let text := toLowerCase (c_cleaned_text complaint) in
         keywordHits text importantKeywords (ofZ 1)
           (keywordHits text urgentKeywords (ofZ 3) s))
      complaints zero in
  min (div severityScore (ofNat (List.length complaints))) (ofZ 10).

Definition calculateRecencyScore (now : Z) (complaints : list (ComplaintRow num)) : num :=
  let recencyScore :=
    fold_left
      (fun s complaint =>
         let age := sub (ofZ now) (createdAt complaint) in
         if lt age (ofZ oneDay) then add s (ofZ 3)
         else if lt age (ofZ oneWeek) then add s (dec 3 2)
         else add s (dec 1 2))
      complaints zero in
  div recencyScore (ofNat (List.length complaints)).

Definition locationMap (complaints : list (ComplaintRow num)) : object :=
  fold_left
    (fun obj complaint =>
       if (0 <? String.length (c_location complaint))%nat
       then bump obj (c_location complaint) else obj)
    complaints [].

Definition calculateLocationDensity (complaints : list (ComplaintRow num)) : num :=
  let maxDensity := maxWithOne (values (locationMap complaints)) in
  mul (log10 (add maxDensity one)) (ofZ 3).

Definition calculatePriorityScore (factors : PriorityFactors) : num :=
  let normalizedCount :=
    mul (min (div (complaint_count factors) (ofZ 10)) one) (ofZ 100) in
  let score :=
    add (add (add (mul normalizedCount (dec 4 10))
                  (mul (mul (severity_score factors) (ofZ 10)) (dec 35 100)))
             (mul (mul (recency_score factors) (ofZ 10)) (dec 15 100)))
        (mul (mul (location_density factors) (ofZ 10)) (dec 1 10)) in
  round (min score (ofZ 100)).

(** [complaints.sort((a, b) => time(a) - time(b))]: a stable sort by
    ascending creation time. *)
Fixpoint insertByTime (c : ComplaintRow num) (sorted : list (ComplaintRow num))
    : list (ComplaintRow num) :=
  match sorted with
  | [] => [c]
  | d :: rest =>
      if (c_created_at c <=? c_created_at d)%Z then c :: d :: rest
      else d :: insertByTime c rest
  end.

Definition sortByTime (complaints : list (ComplaintRow num)) : list (ComplaintRow num) :=
  fold_right insertByTime [] complaints.

Definition averageTime (half : list (ComplaintRow num)) : num :=
  div (fold_left (fun sum c => add sum (createdAt c)) half zero)
      (ofNat (List.length half)).

Definition determineTrend (now : Z) (complaints : list (ComplaintRow num)) : string :=
  if (List.length complaints <? 2)%nat then "stable"
  else
    let sortedComplaints := sortByTime complaints in
    let halfPoint := (List.length sortedComplaints / 2)%nat in
    let firstHalf := firstn halfPoint sortedComplaints in
    let secondHalf := skipn halfPoint sortedComplaints in
    let avgTimeFirst := averageTime firstHalf in
    let avgTimeSecond := averageTime secondHalf in
    let timeDiff := sub avgTimeSecond avgTimeFirst in
    let expectedDiff :=
      div (sub (ofZ now)
               (match sortedComplaints with c :: _ => createdAt c | [] => nan end))
          (ofZ 2) in
    let growthRate :=
      div (ofNat (List.length secondHalf)) (ofNat (List.length firstHalf)) in
    if gt growthRate (dec 13 10) && lt timeDiff (mul expectedDiff (dec 7 10))
    then "rising"
    else if lt growthRate (dec 7 10) then "falling"
    else "stable".

(** The factors and the two results the handler computes for one problem;
    [None] when the problem has no linked complaint (the loop
    [continue]s and nothing is written).  [now1] and [now2] are the
    clock readings of the recency score and of the trend. *)
Definition factorsOf (now1 : Z) (complaints : list (ComplaintRow num)) : PriorityFactors :=
  {| complaint_count := ofNat (List.length complaints);
     severity_score := calculateSeverityScore complaints;
     recency_score := calculateRecencyScore now1 complaints;
     location_density := calculateLocationDensity complaints |}.

Definition prioritize (now1 now2 : Z) (complaints : list (ComplaintRow num))
    : option (num * string) :=
  match complaints with
  | [] => None
  | _ :: _ =>
      Some (calculatePriorityScore (factorsOf now1 complaints),
            determineTrend now2 complaints)
  end.

End Scorer.

Arguments PriorityFactors : clear implicits.

End Priority.

(* ================================================================== *)
(** * Understanding agent: the request handler                         *)
(* ================================================================== *)

Module UnderstandingAgent.
Import JSString.

(** The [tokens] of the response:
    [cleaned_text.split(' ').filter((w) => w.length > 2)]. *)
Definition tokensOf (cleaned_text : string) : list string :=
  filter (fun w => (2 <? String.length w)%nat) (split cleaned_text).

End UnderstandingAgent.

(* ================================================================== *)
(** * Arrays: sorting with a comparator                                *)
(* ================================================================== *)

Module JSArray.

Section SortDescending.
Context {A : Type}.
Variable key : A -> Z.

(** [arr.sort((a, b) => key(b) - key(a))]: the sort is stable, so an
    element goes before the elements that followed it in the array and
    have no larger key. *)
Fixpoint insertDescending (x : A) (sorted : list A) : list A :=
  match sorted with
  | [] => [x]
  | y :: rest =>
      if (key y <=? key x)%Z then x :: y :: rest
      else y :: insertDescending x rest
  end.

Definition sortDescending (arr : list A) : list A :=
  fold_right insertDescending [] arr.

End SortDescending.

End JSArray.

(* ================================================================== *)
(** * Explainability agent                                             *)
(* ================================================================== *)

Module Explainability.
Import JSString JSNumber JSObject JSArray Store.

Definition importantWords : list string :=
  [ "water"; "road"; "garbage"; "electric"; "drain"; "sewage"; "urgent";
    "emergency"; "broken"; "damage"; "leak"; "overflow"; "shortage";
    "supply"; "power"; "light"; "street"; "pothole"; "safety"; "health";
    "dangerous"; "critical"; "immediate"; "hospital"; "children"; "school";
    "waste"; "smell"; "noise"; "pollution" ].

(** The number in a cell of [wordFreq]. *)
Definition countOf (v : value) : Z :=
  match v with
  | Count n => n
  | Text => 0
  end.

Section Agent.
Context {num : Type} {N : Number num}.

(** The two nested [forEach] loops that fill [wordFreq]. *)
Definition wordFreq (complaints : list (ComplaintRow num)) : object :=
  fold_left
    (fun obj complaint =>
       fold_left
         (fun obj word =>
            if (3 <? String.length word)%nat && has importantWords word
            then bump obj word else obj)
         (split (c_cleaned_text complaint)) obj)
    complaints [].

Definition extractKeywords (complaints : list (ComplaintRow num)) : list string :=
  map fst
    (firstn 8 (sortDescending (fun entry => countOf (snd entry)) (wordFreq complaints))).

(** [sorted[i].text || sorted[i].cleaned_text]. *)
Definition sampleText (c : ComplaintRow num) : string :=
  if String.eqb (c_text c) "" then c_cleaned_text c else c_text c.

Definition selectRepresentativeComplaints (complaints : list (ComplaintRow num))
    : list string :=
  let sorted :=
    sortDescending (fun c => Z.of_nat (String.length (c_cleaned_text c))) complaints in
  let maxSamples := Nat.min 3 (List.length complaints) in
  map sampleText (firstn maxSamples sorted).

(** [a >= b] on numbers. *)
Definition ge (a b : num) : bool := lt b a || eq a b.

Definition generatePriorityExplanation (priorityScore : num) (trend : string) : string :=
  let explanation :=
    if ge priorityScore (ofZ 80)
    then "CRITICAL PRIORITY: Requires immediate attention"
    else if ge priorityScore (ofZ 60)
    then "HIGH PRIORITY: Should be addressed soon"
    else if ge priorityScore (ofZ 40)
    then "MEDIUM PRIORITY: Needs attention within reasonable timeframe"
    else "LOW PRIORITY: Can be scheduled for later" in
  if String.eqb trend "rising"
  then explanation ++ ". Problem is escalating and may worsen if not addressed."
  else if String.eqb trend "falling"
  then explanation ++ ". Problem appears to be improving or resolving."
  else explanation ++ ". Problem is stable at current levels.".

End Agent.

End Explainability.

(* ================================================================== *)
(** * The screens: badges of a problem                                 *)
(* ================================================================== *)

Module ProblemScreen.
Import JSNumber Explainability.

Section Badges.
Context {num : Type} {N : Number num}.

Definition getPriorityColor (score : num) : string :=
  if ge score (ofZ 80) then "#dc2626"
  else if ge score (ofZ 60) then "#f59e0b"
  else if ge score (ofZ 40) then "#3b82f6"
  else "#6b7280".

Definition getPriorityLabel (score : num) : string :=
  if ge score (ofZ 80) then "CRITICAL PRIORITY"
  else if ge score (ofZ 60) then "HIGH PRIORITY"
  else if ge score (ofZ 40) then "MEDIUM PRIORITY"
  else "LOW PRIORITY".

End Badges.

Definition getTrendText (trend : string) : string :=
  if String.eqb trend "rising" then "Escalating"
  else if String.eqb trend "falling" then "Improving"
  else "Stable".

End ProblemScreen.

Module ProblemsTab.
Import JSNumber Explainability.

Section Badges.
Context {num : Type} {N : Number num}.

Definition getPriorityLabel (score : num) : string :=
  if ge score (ofZ 80) then "CRITICAL"
  else if ge score (ofZ 60) then "HIGH"
  else if ge score (ofZ 40) then "MEDIUM"
  else "LOW".

End Badges.

End ProblemsTab.

(* ================================================================== *)
(** * Orchestrator: submitting a complaint                             *)
(* ================================================================== *)

Module Orchestrator.
Import JSString JSNumber Store Ingestion Understanding.

Section Submit.
Context {num : Type} {N : Number num}.

(** [stored e]: what the [vector(384)] column gives back for the vector
    [e] written to it.  [newId] and [now]: the [id] and [created_at] the
    table gives the inserted row.  [ingestionLog], [understandingLog]:
    the [crypto.randomUUID()] of the two agents called. *)
Variable stored : list num -> list num.
Variable newId : string.
Variable now : Z.
Variable ingestionLog : string.
Variable understandingLog : string.

Inductive Response :=
| Rejected (error : string)
| Submitted (complaint_id : string).

(** An agent's log row, inserted as 'running' and updated to 'completed'
    by the time the agent answers. *)
Definition logRun (agent logId : string) (db : DB num) : DB num :=
  {| complaints_table := complaints_table db;
     problems_table := problems_table db;
     complaint_problems_table := complaint_problems_table db;
     agent_logs_table :=
       map (fun g => if String.eqb (g_id g) logId
                     then {| g_id := g_id g; g_agent_name := g_agent_name g;
                             g_status := "completed" |}
                     else g)
         (agent_logs_table db
          ++ [{| g_id := logId; g_agent_name := agent; g_status := "running" |}]) |}.

(** The ingestion agent, called with [{ text, location }]. *)
Definition ingestionAgent (text loc : string) (db : DB num)
    : IngestionOutput * DB num :=
  (validate text loc, logRun "ingestion" ingestionLog db).

Definition insertComplaint (text : string) (out : IngestionOutput) (db : DB num)
    : DB num :=
  {| complaints_table :=
       complaints_table db
       ++ [{| c_id := newId; c_text := text;
              c_cleaned_text := cleaned_text out;
              c_location := location out;
              c_status := "processing";
              c_embedding := None;
              c_created_at := now |}];
     problems_table := problems_table db;
     complaint_problems_table := complaint_problems_table db;
     agent_logs_table := agent_logs_table db |}.

(** [update({ embedding }).eq('id', complaint_id)]. *)
Definition setEmbedding (cid : string) (e : list num) (row : ComplaintRow num)
    : ComplaintRow num :=
  if String.eqb (c_id row) cid
  then {| c_id := c_id row; c_text := c_text row;
          c_cleaned_text := c_cleaned_text row; c_location := c_location row;
          c_status := c_status row; c_embedding := Some (stored e);
          c_created_at := c_created_at row |}
  else row.

(** The understanding agent, called with [{ cleaned_text, complaint_id }]. *)
Definition understandingAgent (cleaned : string) (cid : string) (db : DB num)
    : DB num :=
  let db := logRun "understanding" understandingLog db in
  {| complaints_table :=
       map (setEmbedding cid (generateEmbedding cleaned)) (complaints_table db);
     problems_table := problems_table db;
     complaint_problems_table := complaint_problems_table db;
     agent_logs_table := agent_logs_table db |}.

(** The action [submit_complaint]. *)
Definition submitComplaint (text loc : string) (db : DB num) : Response * DB num :=
  let '(ingestionResult, db) := ingestionAgent text loc db in
  if negb (is_valid ingestionResult)
  then (Rejected (if String.eqb (reason ingestionResult) ""
                  then "Complaint validation failed"
                  else reason ingestionResult), db)
  else
    let db := insertComplaint text ingestionResult db in
    let db := understandingAgent (cleaned_text ingestionResult) newId db in
    (Submitted newId, db).

End Submit.

End Orchestrator.

(* ################################################################## *)
(** * Part II: properties                                              *)
(* ################################################################## *)

(* ================================================================== *)
(** * Properties of the validator                                      *)
(* ================================================================== *)

Module IngestionFacts.
Import JSString Ingestion.

#[local] Arguments isWhiteSpace : simpl never.
#[local] Arguments toLowerCaseChar : simpl never.

Fixpoint allChars (P : ascii -> bool) (s : string) : bool :=
  match s with
  | EmptyString => true
  | String c r => P c && allChars P r
  end.

(** Fixed by lower-casing. *)
Definition lowered (c : ascii) : bool := Ascii.eqb (toLowerCaseChar c) c.

(** A character of a token: not white space, and fixed by lower-casing. *)
Definition clean (c : ascii) : bool := negb (isWhiteSpace c) && lowered c.

Definition spaceOrClean (c : ascii) : bool := Ascii.eqb c " " || clean c.

Definition cleanWord (w : string) : bool :=
  allChars clean w && negb (String.eqb w "").

Lemma toLowerCaseChar_idem c :
  toLowerCaseChar (toLowerCaseChar c) = toLowerCaseChar c.
Proof.
  destruct c as [[] [] [] [] [] [] [] []]; vm_compute; reflexivity.
Qed.

Lemma clean_not_space c : clean c = true -> Ascii.eqb c " " = false.
Proof.
  unfold clean. destruct (Ascii.eqb_spec c " ") as [->|]; [vm_compute|]; auto.
Qed.

Lemma append_empty_r s : (s ++ "")%string = s.
Proof. induction s; simpl; congruence. Qed.

Lemma allChars_app P a b :
  allChars P (a ++ b) = allChars P a && allChars P b.
Proof.
  induction a; simpl; [reflexivity|]. rewrite IHa. apply andb_assoc.
Qed.

Lemma allChars_weaken (P Q : ascii -> bool) s :
  (forall c, P c = true -> Q c = true) ->
  allChars P s = true -> allChars Q s = true.
Proof.
  intros HPQ. induction s; simpl; [reflexivity|].
  rewrite !andb_true_iff. intros [? ?]; auto.
Qed.

(** ** The first pass produces clean words *)

Lemma toLowerCase_lowered s : allChars lowered (toLowerCase s) = true.
Proof.
  induction s; simpl; [reflexivity|]. rewrite IHs, andb_true_r.
  unfold lowered. rewrite toLowerCaseChar_idem. apply Ascii.eqb_refl.
Qed.

Lemma collapseFrom_chars b s :
  allChars lowered s = true -> allChars spaceOrClean (collapseFrom b s) = true.
Proof.
  revert b. induction s as [|c r IH]; intros b; simpl; [reflexivity|].
  rewrite andb_true_iff. intros [Hc Hr].
  destruct (isWhiteSpace c) eqn:Hw.
  - destruct b; simpl; auto.
  - simpl. rewrite IH by assumption. unfold spaceOrClean, clean.
    rewrite Hw, Hc. simpl. now rewrite orb_true_r.
Qed.

Lemma split_not_nil s : split s <> [].
Proof.
  destruct s as [|c r]; simpl; [discriminate|].
  destruct (Ascii.eqb c " "); [discriminate|].
  destruct (split r); discriminate.
Qed.

Lemma split_clean s :
  allChars spaceOrClean s = true ->
  Forall (fun w => allChars clean w = true) (split s).
Proof.
  induction s as [|c r IH]; simpl.
  - intros _. repeat constructor.
  - rewrite andb_true_iff. intros [Hc Hr]. specialize (IH Hr).
    destruct (Ascii.eqb c " ") eqn:Hsp.
    + constructor; [reflexivity | assumption].
    + unfold spaceOrClean in Hc. rewrite Hsp in Hc. simpl in Hc.
      destruct (split r) as [|w ws].
      * repeat constructor. simpl. now rewrite Hc.
      * inversion IH; subst. constructor; [simpl; now rewrite Hc | assumption].
Qed.

Lemma keepWord_nonempty w : keepWord w = true -> String.eqb w "" = false.
Proof. destruct w; [discriminate | reflexivity]. Qed.

Lemma words_clean text : Forall (fun w => cleanWord w = true) (words text).
Proof.
  unfold words.
  pose proof (split_clean _ (collapseFrom_chars false _
                (toLowerCase_lowered (trim text)))) as H.
  unfold collapseWhitespace.
  induction H as [|w ws Hw _ IH]; simpl; [constructor|].
  destruct (keepWord w) eqn:Hk; [|assumption].
  constructor; [|assumption].
  unfold cleanWord. now rewrite Hw, (keepWord_nonempty _ Hk).
Qed.

Lemma words_kept text : Forall (fun w => keepWord w = true) (words text).
Proof.
  unfold words. apply Forall_forall. intros w Hw.
  apply filter_In in Hw. tauto.
Qed.

(** ** A text made of clean words is left alone by every step *)

Lemma cleanWord_inv w :
  cleanWord w = true ->
  exists c r, w = String c r /\ clean c = true /\ allChars clean r = true.
Proof.
  unfold cleanWord. destruct w as [|c r]; simpl; [discriminate|].
  rewrite andb_true_r, andb_true_iff. intros [? ?]. now exists c, r.
Qed.

Lemma join_cons_nonempty w ws :
  cleanWord w = true -> join (w :: ws) <> EmptyString.
Proof.
  intros Hw. destruct (cleanWord_inv _ Hw) as (c & r & -> & _).
  simpl. destruct ws; discriminate.
Qed.

Lemma trimStart_join ws :
  Forall (fun w => cleanWord w = true) ws -> trimStart (join ws) = join ws.
Proof.
  intros H. destruct H as [|w ws Hw _]; [reflexivity|].
  destruct (cleanWord_inv _ Hw) as (c & r & -> & Hc & _).
  unfold clean in Hc. apply andb_true_iff in Hc as [Hc _].
  apply negb_true_iff in Hc.
  destruct ws; simpl; now rewrite Hc.
Qed.

Lemma trimEnd_word w s :
  allChars clean w = true -> trimEnd (w ++ s) = (w ++ trimEnd s)%string.
Proof.
  induction w as [|c r IH]; simpl; [reflexivity|].
  rewrite andb_true_iff. intros [Hc Hr]. rewrite (IH Hr).
  unfold clean in Hc. apply andb_true_iff in Hc as [Hc _].
  apply negb_true_iff in Hc. rewrite Hc.
  destruct (r ++ trimEnd s)%string; reflexivity.
Qed.

Lemma trimEnd_join ws :
  Forall (fun w => cleanWord w = true) ws -> trimEnd (join ws) = join ws.
Proof.
  induction 1 as [|w ws Hw Hws IH]; [reflexivity|].
  assert (Hcl : allChars clean w = true).
  { unfold cleanWord in Hw. now apply andb_true_iff in Hw. }
  destruct ws as [|w' ws'].
  - simpl. rewrite <- (append_empty_r w) at 1.
    rewrite trimEnd_word by assumption. simpl. apply append_empty_r.
  - change (join (w :: w' :: ws')) with (w ++ String " " (join (w' :: ws')))%string.
    rewrite trimEnd_word by assumption. f_equal.
    change (trimEnd (String " " (join (w' :: ws'))))
      with (match trimEnd (join (w' :: ws')) with
            | EmptyString => EmptyString
            | String a b => String " " (String a b)
            end).
    rewrite IH. inversion Hws; subst.
    pose proof (join_cons_nonempty w' ws' ltac:(assumption)) as Hne.
    destruct (join (w' :: ws')); [contradiction | reflexivity].
Qed.

Lemma toLowerCase_app a b :
  toLowerCase (a ++ b) = (toLowerCase a ++ toLowerCase b)%string.
Proof. induction a; simpl; congruence. Qed.

Lemma toLowerCase_clean w : allChars clean w = true -> toLowerCase w = w.
Proof.
  induction w as [|c r IH]; simpl; [reflexivity|].
  rewrite andb_true_iff. intros [Hc Hr]. rewrite (IH Hr).
  unfold clean, lowered in Hc. apply andb_true_iff in Hc as [_ Hc].
  apply Ascii.eqb_eq in Hc. now rewrite Hc.
Qed.

Lemma toLowerCase_join ws :
  Forall (fun w => cleanWord w = true) ws -> toLowerCase (join ws) = join ws.
Proof.
  induction 1 as [|w ws Hw Hws IH]; [reflexivity|].
  assert (Hcl : allChars clean w = true).
  { unfold cleanWord in Hw. now apply andb_true_iff in Hw. }
  destruct ws as [|w' ws'].
  - simpl. now apply toLowerCase_clean.
  - change (join (w :: w' :: ws')) with (w ++ String " " (join (w' :: ws')))%string.
    rewrite toLowerCase_app, toLowerCase_clean by assumption.
    cbn [toLowerCase]. rewrite IH by assumption. reflexivity.
Qed.

Lemma collapseFrom_clean b w s :
  allChars clean w = true ->
  collapseFrom b (w ++ s)
  = (w ++ collapseFrom (match w with EmptyString => b | String _ _ => false end) s)%string.
Proof.
  revert b. induction w as [|c r IH]; intros b; [reflexivity|].
  cbn [allChars]. rewrite andb_true_iff. intros [Hc Hr].
  unfold clean in Hc. apply andb_true_iff in Hc as [Hc _].
  apply negb_true_iff in Hc.
  cbn [append collapseFrom]. rewrite Hc, (IH false Hr).
  destruct r; reflexivity.
Qed.

Lemma collapseFrom_word b w s :
  cleanWord w = true ->
  collapseFrom b (w ++ s) = (w ++ collapseFrom false s)%string.
Proof.
  intros Hw. destruct (cleanWord_inv _ Hw) as (c & r & -> & Hc & Hr).
  rewrite collapseFrom_clean; [reflexivity|].
  cbn [allChars]. now rewrite Hc, Hr.
Qed.

Lemma collapseFrom_join b ws :
  Forall (fun w => cleanWord w = true) ws -> collapseFrom b (join ws) = join ws.
Proof.
  intros H. revert b. induction H as [|w ws Hw Hws IH]; intros b; [reflexivity|].
  destruct ws as [|w' ws'].
  - simpl. rewrite <- (append_empty_r w) at 1.
    rewrite collapseFrom_word by assumption. simpl. apply append_empty_r.
  - change (join (w :: w' :: ws')) with (w ++ String " " (join (w' :: ws')))%string.
    rewrite collapseFrom_word by assumption.
    change (collapseFrom false (String " " (join (w' :: ws'))))
      with (String " " (collapseFrom true (join (w' :: ws')))).
    now rewrite IH.
Qed.

Lemma split_word w s :
  allChars clean w = true ->
  split (w ++ String " " s) = w :: split s.
Proof.
  induction w as [|c r IH]; simpl; [reflexivity|].
  rewrite andb_true_iff. intros [Hc Hr].
  rewrite (clean_not_space _ Hc), (IH Hr). reflexivity.
Qed.

Lemma split_single w : allChars clean w = true -> split w = [w].
Proof.
  induction w as [|c r IH]; simpl; [reflexivity|].
  rewrite andb_true_iff. intros [Hc Hr].
  rewrite (clean_not_space _ Hc), (IH Hr). reflexivity.
Qed.

Lemma split_join w ws :
  Forall (fun w => cleanWord w = true) (w :: ws) ->
  split (join (w :: ws)) = w :: ws.
Proof.
  revert w. induction ws as [|w' ws' IH]; intros w H; inversion H; subst.
  - simpl. apply split_single. unfold cleanWord in *.
    now apply andb_true_iff in H2 as [? _].
  - change (join (w :: w' :: ws')) with (w ++ String " " (join (w' :: ws')))%string.
    rewrite split_word, IH; auto.
    unfold cleanWord in H2. now apply andb_true_iff in H2 as [? _].
Qed.

Lemma filter_all {A} (f : A -> bool) l :
  Forall (fun x => f x = true) l -> filter f l = l.
Proof.
  induction 1 as [|x l Hx _ IH]; simpl; [reflexivity|]. now rewrite Hx, IH.
Qed.

(** Re-normalising a list of clean, kept words gives it back. *)
Lemma words_join ws :
  Forall (fun w => cleanWord w = true) ws ->
  Forall (fun w => keepWord w = true) ws ->
  words (join ws) = ws.
Proof.
  intros Hc Hk. unfold words, trim, collapseWhitespace.
  rewrite trimStart_join, trimEnd_join, toLowerCase_join, collapseFrom_join
    by assumption.
  destruct ws as [|w ws]; [reflexivity|].
  rewrite split_join by assumption. now apply filter_all.
Qed.

(** C9: the validator's normalisation is idempotent.  For every input
    text, normalising the cleaned text again (trim, lower-case, collapse
    white space, split, drop stop-words and words of length at most 2)
    gives the same word list, hence the same cleaned text: the list never
    shrinks further. *)
Theorem validator_normalisation_idempotent (text loc loc' : string) :
  words (cleaned_text (validate text loc)) = words text
  /\ cleaned_text (validate (cleaned_text (validate text loc)) loc')
     = cleaned_text (validate text loc).
Proof.
  assert (H : words (join (words text)) = words text)
    by (apply words_join; [apply words_clean | apply words_kept]).
  split; simpl; now rewrite H.
Qed.

(** C8 as stated fails: on the text of scenario C the cleaned text keeps
    the token "near", so the conjunction "valid, contains water, leaking,
    badly, house, and excludes is, near, my" is false. *)
Lemma scenarioC_keeps_near :
  ~ (is_valid (validate scenarioC "") = true
     /\ (forall w, In w ["water"; "leaking"; "badly"; "house"] ->
                   In w (tokens (validate scenarioC "")))
     /\ (forall w, In w ["is"; "near"; "my"] ->
                   ~ In w (tokens (validate scenarioC "")))).
Proof.
  intros (_ & _ & Hex). apply (Hex "near"); vm_compute; tauto.
Qed.

(** C8, amended: on the text of scenario C the validator accepts and the
    cleaned text is "water leaking badly near house every single day":
    it contains water, leaking, badly, near and house, and it excludes
    "is" and "my" ("near" is no stop-word and has four letters). *)
Theorem scenarioC_accepted :
  is_valid (validate scenarioC "") = true
  /\ cleaned_text (validate scenarioC "")
     = "water leaking badly near house every single day"
  /\ (forall w, In w ["water"; "leaking"; "badly"; "near"; "house"] ->
                In w (tokens (validate scenarioC "")))
  /\ (forall w, In w ["is"; "my"] -> ~ In w (tokens (validate scenarioC ""))).
Proof.
  split; [reflexivity|]. split; [reflexivity|]. split.
  - intros w Hw. vm_compute in Hw |- *. tauto.
  - intros w Hw Hin. vm_compute in Hin.
    simpl in Hw. destruct Hw as [<-|[<-|[]]];
      repeat (destruct Hin as [Hin|Hin]; [discriminate Hin|]); exact Hin.
Qed.

(** Scenarios A and B of the specification: a three-letter text is
    rejected as too short, nine leading identical characters as spam. *)
Example scenarioA_too_short :
  is_valid (validate "Fix" "") = false
  /\ reason (validate "Fix" "") = "Text too short (minimum 10 characters)".
Proof. split; reflexivity. Qed.

Example scenarioB_spam :
  is_valid (validate "aaaaaaaaa broken pipe everywhere" "") = false
  /\ reason (validate "aaaaaaaaa broken pipe everywhere" "")
     = "Contains repeated characters (spam detected)".
Proof. split; reflexivity. Qed.

End IngestionFacts.

(* ================================================================== *)
(** * Decimal literals on binary64                                     *)
(* ================================================================== *)

Module NumberFacts.
Import JSNumber.

(** The decimal literals of the agents, written [dec p q], are the
    doubles the engine parses (given here in hexadecimal). *)
Example decimal_literals_binary64 :
  forallb (fun '(x, y) => PrimFloat.eqb x y)
    [ (dec 1 10, 0x1.999999999999ap-4%float);
      (dec 1 2, 0x1p-1%float);
      (dec 3 2, 0x1.8p+0%float);
      (dec 999 1000, 0x1.ff7ced916872bp-1%float);
      (dec 8 10, 0x1.999999999999ap-1%float);
      (dec 4 10, 0x1.999999999999ap-2%float);
      (dec 35 100, 0x1.6666666666666p-2%float);
      (dec 15 100, 0x1.3333333333333p-3%float);
      (dec 13 10, 0x1.4cccccccccccdp+0%float);
      (dec 7 10, 0x1.6666666666666p-1%float) ]
  = true.
Proof. vm_compute. reflexivity. Qed.

End NumberFacts.

(* ================================================================== *)
(** * Properties of the fingerprint generator                          *)
(* ================================================================== *)

Module UnderstandingFacts.
Import JSString JSNumber Understanding.

Section Bands.
Context {num : Type} {N : Number num}.

Lemma assign_length i v (arr : list num) :
  (i < List.length arr)%nat -> List.length (assign i v arr) = List.length arr.
Proof.
  revert i. induction arr as [|x t IH]; intros [|j] H; simpl in *; try lia.
  rewrite IH; lia.
Qed.

Lemma assign_same i v (arr : list num) d :
  (i < List.length arr)%nat -> nth i (assign i v arr) d = v.
Proof.
  revert i. induction arr as [|x t IH]; intros [|j] H; simpl in *; try lia.
  - reflexivity.
  - apply IH; lia.
Qed.

Lemma assign_other i j v (arr : list num) d :
  (i < List.length arr)%nat -> j <> i -> nth j (assign i v arr) d = nth j arr d.
Proof.
  revert i j. induction arr as [|x t IH]; intros [|i] [|j] H Hne;
    simpl in *; try lia; try reflexivity.
  apply IH; lia.
Qed.

(** [fillBand] writes [v] on the cells [baseIdx, baseIdx + width) and
    nothing else. *)
Lemma fillBand_spec baseIdx width v (e : list num) :
  (baseIdx + width <= List.length e)%nat ->
  List.length (fillBand baseIdx width v e) = List.length e
  /\ forall j d,
       nth j (fillBand baseIdx width v e) d
       = if ((baseIdx <=? j) && (j <? baseIdx + width))%nat then v else nth j e d.
Proof.
  unfold fillBand. intros Hlen.
  assert (G : forall n start (e0 : list num),
             (baseIdx + start + n <= List.length e0)%nat ->
             List.length (fold_left (fun e i => assign (baseIdx + i) v e)
                            (seq start n) e0) = List.length e0
             /\ forall j d,
                  nth j (fold_left (fun e i => assign (baseIdx + i) v e)
                           (seq start n) e0) d
                  = if ((baseIdx + start <=? j) && (j <? baseIdx + start + n))%nat
                    then v else nth j e0 d).
  { induction n as [|n IH]; intros start e0 H0; simpl.
    - split; [reflexivity|]. intros j d.
      destruct (baseIdx + start <=? j)%nat eqn:E1;
        destruct (j <? baseIdx + start + 0)%nat eqn:E2; simpl; try reflexivity.
      apply Nat.leb_le in E1. apply Nat.ltb_lt in E2. lia.
    - destruct (IH (S start) (assign (baseIdx + start) v e0)) as [L Hn].
      { rewrite assign_length; lia. }
      split; [rewrite L; apply assign_length; lia|].
      intros j d. rewrite Hn.
      destruct (Nat.eq_dec j (baseIdx + start)) as [->|Hne].
      + rewrite assign_same by lia.
        replace (baseIdx + S start <=? baseIdx + start)%nat with false
          by (symmetry; apply Nat.leb_gt; lia).
        replace (baseIdx + start <=? baseIdx + start)%nat with true
          by (symmetry; apply Nat.leb_le; lia).
        replace (baseIdx + start <? baseIdx + start + S n)%nat with true
          by (symmetry; apply Nat.ltb_lt; lia).
        reflexivity.
      + rewrite assign_other by lia.
        destruct (baseIdx + S start <=? j)%nat eqn:E1;
          destruct (j <? baseIdx + S start + n)%nat eqn:E2;
          destruct (baseIdx + start <=? j)%nat eqn:E3;
          destruct (j <? baseIdx + start + S n)%nat eqn:E4;
          simpl; try reflexivity; exfalso;
          repeat match goal with
            | H : (_ <=? _)%nat = true |- _ => apply Nat.leb_le in H
            | H : (_ <=? _)%nat = false |- _ => apply Nat.leb_gt in H
            | H : (_ <? _)%nat = true |- _ => apply Nat.ltb_lt in H
            | H : (_ <? _)%nat = false |- _ => apply Nat.ltb_ge in H
            end; lia. }
  destruct (G width 0%nat e) as [L Hn]; [lia|].
  split; [exact L|]. intros j d. rewrite Hn.
  now rewrite !Nat.add_0_r.
Qed.

(** The bands of successive groups are disjoint: the band of the k-th
    group holds that group's value, and cells below the first band are
    untouched. *)
Lemma fillBands_spec score base width groups :
  forall idx (e : list num),
    (base + (idx + List.length groups) * width <= List.length e)%nat ->
    List.length (fillBands score base width idx groups e) = List.length e
    /\ (forall j d, (j < base + idx * width)%nat ->
          nth j (fillBands score base width idx groups e) d = nth j e d)
    /\ (forall k group i d,
          nth_error groups k = Some group -> (i < width)%nat ->
          nth (base + (idx + k) * width + i)
              (fillBands score base width idx groups e) d
          = div (score group) (ofNat (List.length group + 1))).
Proof.
  induction groups as [|g rest IH]; intros idx e Hlen; simpl.
  - split; [reflexivity|]. split; [reflexivity|].
    intros [|k] ? ? ? H; discriminate H.
  - simpl in Hlen.
    destruct (fillBand_spec (base + idx * width) width
                (div (score g) (ofNat (List.length g + 1))) e) as [L1 B1]; [nia|].
    destruct (IH (S idx) (fillBand (base + idx * width) width
                (div (score g) (ofNat (List.length g + 1))) e)) as (L2 & Low & Band).
    { rewrite L1. nia. }
    split; [now rewrite L2|]. split.
    + intros j d Hj. rewrite Low by nia. rewrite B1.
      replace (base + idx * width <=? j)%nat with false
        by (symmetry; apply Nat.leb_gt; lia).
      reflexivity.
    + intros [|k] group i d Hk Hi; simpl in Hk.
      * injection Hk as <-. rewrite Low by nia. rewrite B1.
        replace (base + idx * width <=? base + (idx + 0) * width + i)%nat with true
          by (symmetry; apply Nat.leb_le; nia).
        replace (base + (idx + 0) * width + i <? base + idx * width + width)%nat
          with true by (symmetry; apply Nat.ltb_lt; nia).
        reflexivity.
      * replace (idx + S k)%nat with (S idx + k)%nat by lia.
        now apply Band.
Qed.

(** The severity loop adds one per tier keyword that is a word of the
    text, and nothing else. *)
Definition exactMatches (words tier : list string) : nat :=
  List.length (filter (has words) tier).

Lemma severityScore_counts words tier :
  severityScore (num := num) words tier
  = Nat.iter (exactMatches words tier) (fun s => add s one) zero.
Proof.
  unfold severityScore, exactMatches.
  assert (G : forall n,
             fold_left (fun score keyword =>
                          if has words keyword then add score one else score)
               tier (Nat.iter n (fun s : num => add s one) zero)
             = Nat.iter (List.length (filter (has words) tier) + n)
                 (fun s : num => add s one) zero).
  { induction tier as [|kw rest IH]; intros n; simpl; [reflexivity|].
    destruct (has words kw); simpl.
    - change (add (Nat.iter n (fun s : num => add s one) zero) one)
        with (Nat.iter (S n) (fun s : num => add s one) zero).
      rewrite IH, Nat.add_succ_r. reflexivity.
    - apply IH. }
  specialize (G 0%nat). simpl in G. rewrite G. f_equal. lia.
Qed.

Lemma categoryStage_length words (e : list num) :
  List.length e = dimension -> List.length (categoryStage words e) = dimension.
Proof.
  intros H. unfold categoryStage.
  destruct (fillBands_spec (categoryScore words) 0 30 problemCategories 0 e) as [L _].
  - rewrite H. vm_compute. lia.
  - now rewrite L.
Qed.

Lemma severityStage_length words (e : list num) :
  List.length e = dimension -> List.length (severityStage words e) = dimension.
Proof.
  intros H. unfold severityStage.
  destruct (fillBands_spec (severityScore words) 300 20 severityTerms 0 e) as [L _].
  - rewrite H. vm_compute. lia.
  - now rewrite L.
Qed.

End Bands.

Section Length.
Context {num : Type} {N : Number num}.

Lemma hashStage_length words (e : list num) :
  List.length e = dimension -> List.length (hashStage words e) = dimension.
Proof.
  unfold hashStage. revert e.
  induction words as [|w rest IH]; intros e H; simpl; [assumption|].
  apply IH. destruct (3 <? String.length w)%nat; [|assumption].
  rewrite assign_length; [assumption|].
  rewrite H. unfold dimension.
  pose proof (Z.mod_pos_bound (simpleHash w) 384 ltac:(lia)). lia.
Qed.

Lemma rawEmbedding_length text :
  List.length (rawEmbedding (num := num) text) = dimension.
Proof.
  unfold rawEmbedding.
  apply hashStage_length, severityStage_length, categoryStage_length,
    repeat_length.
Qed.

End Length.

(** C6 as stated fails on binary64: for the text "urgently" the claimed
    value of the first urgency band (exact hits plus half-weighted
    substring hits, over size + 1) is 0.5/7, while the code leaves the
    band at 0, the word being no exact match of any tier keyword. *)
Lemma urgency_band_ignores_substrings :
  ~ (forall text k tier i,
       nth_error severityTerms k = Some tier -> (i < 20)%nat ->
       get (severityStage (num := float) (wordsOf text)
              (categoryStage (wordsOf text) (repeat zero dimension)))
           (300 + k * 20 + i)
       = specTierValue (wordsOf text) tier).
Proof.
  intros H.
  specialize (H "urgently" 0%nat _ 0%nat eq_refl ltac:(lia)).
  apply (f_equal (fun x => PrimFloat.eqb x zero)) in H.
  vm_compute in H. discriminate H.
Qed.

(** C6, amended: for every text, every cell of the 20-cell band of each
    of the 3 urgency tiers is set to one scalar, the number of tier
    keywords that are exactly a word of the text (one added per such
    keyword, no substring term), divided by the tier's size plus one.
    This is the state of the vector when the severity loop ends, before
    the hashed increments and the normalisation. *)
Theorem urgency_band_exact_matches {num : Type} {N : Number num}
    (text : string) (k : nat) (tier : list string) (i : nat) :
  nth_error severityTerms k = Some tier ->
  (i < 20)%nat ->
  get (severityStage (wordsOf text)
         (categoryStage (wordsOf text) (repeat zero dimension)))
      (300 + k * 20 + i)
  = div (Nat.iter (exactMatches (wordsOf text) tier) (fun s => add s one) zero)
        (ofNat (List.length tier + 1)).
Proof.
  intros Hk Hi. unfold get, severityStage.
  destruct (fillBands_spec (severityScore (wordsOf text)) 300 20 severityTerms 0
              (categoryStage (wordsOf text) (repeat zero dimension)))
    as (_ & _ & Band).
  - rewrite categoryStage_length by apply repeat_length. vm_compute. lia.
  - rewrite (Band k tier i nan Hk Hi). now rewrite severityScore_counts.
Qed.

Lemma urgency_band_exact_matches_witness :
  get (severityStage (num := float) (wordsOf "urgent help needed")
         (categoryStage (wordsOf "urgent help needed") (repeat zero dimension)))
      (300 + 0 * 20 + 7)
  = div (Nat.iter (exactMatches (wordsOf "urgent help needed")
                     ["urgent"; "emergency"; "critical"; "immediate";
                      "severe"; "dangerous"])
           (fun s => add s one) zero)
        (ofNat (6 + 1)).
Proof.
  apply (urgency_band_exact_matches (num := float) "urgent help needed" 0
           ["urgent"; "emergency"; "critical"; "immediate"; "severe"; "dangerous"] 7).
  - reflexivity.
  - lia.
Defined.

(** ** Normalisation, in exact arithmetic *)

Section UnitNorm.
Local Open Scope R_scope.

Fixpoint sumSq (l : list R) : R :=
  match l with
  | [] => 0
  | x :: t => x * x + sumSq t
  end.

(** The L2 norm of a vector of reals, defined apart from the code. *)
Definition euclideanNorm (l : list R) : R := R_sqrt.sqrt (sumSq l).

Lemma sumSquares_sumSq l : sumSquares (num := R) l = sumSq l.
Proof.
  unfold sumSquares.
  assert (G : forall acc,
             fold_left (fun sum val : R => sum + val * val) l acc = acc + sumSq l).
  { induction l as [|x t IH]; intros acc; simpl; [lra|]. rewrite IH. lra. }
  change (fold_left (fun sum val : R => sum + val * val) l 0 = sumSq l).
  rewrite G. lra.
Qed.

Lemma sumSq_nonneg l : 0 <= sumSq l.
Proof. induction l as [|x t IH]; simpl; [lra|]. nra. Qed.

Lemma sumSq_pos l : (exists i, nth i l 0 <> 0) -> 0 < sumSq l.
Proof.
  intros [i Hi]. revert i Hi.
  induction l as [|x t IH]; intros [|i] Hi; simpl in *; try tauto.
  - pose proof (sumSq_nonneg t). nra.
  - specialize (IH i Hi). nra.
Qed.

Lemma sumSq_zero l : Forall (fun v => v = 0) l -> sumSq l = 0.
Proof. induction 1 as [|x t Hx _ IH]; simpl; [reflexivity|]. subst. lra. Qed.

Lemma sumSq_scale l m :
  m <> 0 -> sumSq (map (fun v => v / m) l) = sumSq l / (m * m).
Proof.
  intros Hm. induction l as [|x t IH]; simpl.
  - unfold Rdiv. lra.
  - rewrite IH. field. exact Hm.
Qed.

Lemma R_lt_true a b : a < b -> R_lt a b = true.
Proof. unfold R_lt. destruct (Rlt_dec a b); tauto. Qed.

Lemma R_lt_false a b : ~ a < b -> R_lt a b = false.
Proof. unfold R_lt. destruct (Rlt_dec a b); tauto. Qed.

Lemma normalize_nonzero (e : list R) :
  (exists i, nth i e 0 <> 0) ->
  0 < magnitude e
  /\ normalize e = map (fun v => v / magnitude e) e
  /\ magnitude (normalize e) = 1.
Proof.
  intros Hnz. pose proof (sumSq_pos e Hnz) as Hpos.
  assert (Hm : 0 < magnitude e).
  { unfold magnitude. rewrite sumSquares_sumSq. cbn [sqrt R_Number].
    now apply sqrt_lt_R0. }
  assert (Hn : normalize e = map (fun v => v / magnitude e) e).
  { unfold normalize, gt. cbn [lt R_Number].
    rewrite (R_lt_true zero (magnitude e)) by exact Hm. reflexivity. }
  split; [exact Hm|]. split; [exact Hn|].
  rewrite Hn. unfold magnitude at 1. rewrite sumSquares_sumSq.
  rewrite sumSq_scale by lra.
  replace (magnitude e * magnitude e) with (sumSq e).
  - replace (sumSq e / sumSq e) with 1 by (field; lra).
    cbn [sqrt R_Number]. apply sqrt_1.
  - unfold magnitude. rewrite sumSquares_sumSq. cbn [sqrt R_Number].
    symmetry. apply sqrt_sqrt. lra.
Qed.

Lemma normalize_zero (e : list R) :
  Forall (fun v => v = 0) e -> normalize e = e.
Proof.
  intros Hz. unfold normalize, gt, magnitude.
  rewrite sumSquares_sumSq, (sumSq_zero e Hz). cbn [sqrt lt R_Number].
  rewrite sqrt_0, R_lt_false; [reflexivity|].
  change (@zero R R_Number) with 0. lra.
Qed.

(** The code's magnitude is the L2 norm. *)
Lemma magnitude_norm (e : list R) : magnitude e = euclideanNorm e.
Proof. unfold magnitude, euclideanNorm. now rewrite sumSquares_sumSq. Qed.

Lemma unit_norm_real (text : string) :
  List.length (generateEmbedding (num := R) text) = 384%nat
  /\ ((exists i, nth i (rawEmbedding text) 0 <> 0) ->
      0 < euclideanNorm (rawEmbedding text)
      /\ generateEmbedding text
         = map (fun v => v / euclideanNorm (rawEmbedding text)) (rawEmbedding text)
      /\ euclideanNorm (generateEmbedding text) = 1
      /\ Rabs (euclideanNorm (generateEmbedding text) - 1) <= 1 / 1000000)
  /\ (Forall (fun v => v = 0) (rawEmbedding (num := R) text) ->
      generateEmbedding text = rawEmbedding text
      /\ euclideanNorm (generateEmbedding text) = 0).
Proof.
  unfold generateEmbedding. split; [|split].
  - unfold normalize. destruct (gt _ _).
    + rewrite length_map. apply (rawEmbedding_length (num := R)).
    + apply (rawEmbedding_length (num := R)).
  - intros Hnz. destruct (normalize_nonzero _ Hnz) as (Hm & Hn & H1).
    rewrite <- !magnitude_norm.
    repeat split; try assumption.
    rewrite H1. replace (1 - 1) with 0 by lra. rewrite Rabs_R0. lra.
  - intros Hz. rewrite (normalize_zero _ Hz). split; [reflexivity|].
    unfold euclideanNorm. rewrite (sumSq_zero _ Hz). apply sqrt_0.
Qed.

End UnitNorm.

(** ** Normalisation, in rounded arithmetic *)

Section RoundedNorm.
Local Open Scope R_scope.

(** A rounding with a relative error of at most 2^-53. *)
Variable rnd : R -> R.
Hypothesis rnd_error : forall x, Rabs (rnd x - x) <= Rabs x * unitRoundoff.

#[local] Abbreviation u := unitRoundoff.
#[local] Abbreviation a := (1 - unitRoundoff).
#[local] Abbreviation b := (1 + unitRoundoff).

Lemma u_small : 0 < u < / 1000000000.
Proof. unfold unitRoundoff. lra. Qed.

Lemma rnd_zero : rnd 0 = 0.
Proof.
  pose proof (rnd_error 0) as H. rewrite Rabs_R0, Rmult_0_l in H.
  pose proof (Rabs_pos (rnd 0 - 0)).
  assert (E : Rabs (rnd 0 - 0) = 0) by lra.
  destruct (Req_dec (rnd 0 - 0) 0) as [Z|Z]; [lra|].
  apply Rabs_no_R0 in Z. contradiction.
Qed.

Lemma rnd_nonneg x : 0 <= x -> a * x <= rnd x <= b * x.
Proof.
  intros Hx. pose proof (rnd_error x) as H.
  rewrite (Rabs_pos_eq x Hx) in H.
  unfold Rabs in H. destruct (Rcase_abs (rnd x - x)); lra.
Qed.

Lemma rnd_square x : a * a * (x * x) <= rnd x * rnd x <= b * b * (x * x).
Proof.
  pose proof u_small as Hu.
  pose proof (rnd_error x) as H.
  destruct (Rle_lt_dec 0 x) as [Hx|Hx].
  - rewrite (Rabs_pos_eq x Hx) in H.
    assert (B : (1 - u) * x <= rnd x <= (1 + u) * x).
    { unfold Rabs in H. destruct (Rcase_abs (rnd x - x)); lra. }
    assert (0 <= (1 - u) * x) by nra.
    split; nra.
  - rewrite (Rabs_left x Hx) in H.
    assert (B : (1 + u) * x <= rnd x <= (1 - u) * x).
    { unfold Rabs in H. destruct (Rcase_abs (rnd x - x)); lra. }
    assert ((1 - u) * x <= 0) by nra.
    split; nra.
Qed.

Lemma a_pow k : 0 < a ^ k <= 1.
Proof.
  pose proof u_small. induction k as [|k IH]; simpl; [lra|]. nra.
Qed.

Lemma b_pow k : 1 <= b ^ k.
Proof.
  pose proof u_small. induction k as [|k IH]; simpl; [lra|]. nra.
Qed.

Lemma bernoulli k : 1 - INR k * u <= a ^ k.
Proof.
  pose proof u_small.
  induction k as [|k IH]; [simpl; lra|].
  rewrite S_INR. cbn [pow]. pose proof (a_pow k). pose proof (pos_INR k).
  nra.
Qed.

Lemma ab_pow k : a ^ k * b ^ k <= 1.
Proof.
  pose proof u_small.
  induction k as [|k IH]; simpl; [lra|].
  pose proof (a_pow k). pose proof (b_pow k).
  assert (a * b <= 1) by nra.
  assert (0 < a) by lra.
  replace (a * a ^ k * (b * b ^ k)) with ((a * b) * (a ^ k * b ^ k)) by ring.
  assert (0 < a ^ k * b ^ k) by nra.
  nra.
Qed.

(** One round of the [reduce] of the magnitude, as it is rounded. *)
Definition roundedStep (s v : R) : R := rnd (s + rnd (v * v)).

Lemma roundedSum_bounds (l : list R) : forall (acc A : R) (k : nat),
  0 <= A -> a ^ k * A <= acc <= b ^ k * A ->
  a ^ (k + 2 * List.length l) * (A + sumSq l)
  <= fold_left roundedStep l acc
  <= b ^ (k + 2 * List.length l) * (A + sumSq l).
Proof.
  pose proof u_small as Hu.
  induction l as [|x t IH]; intros acc A k HA Hacc.
  - cbn [fold_left List.length sumSq]. rewrite Nat.mul_0_r, Nat.add_0_r. lra.
  - cbn [fold_left List.length sumSq].
    replace (k + 2 * S (List.length t))%nat with ((k + 2) + 2 * List.length t)%nat by lia.
    replace (A + (x * x + sumSq t)) with ((A + x * x) + sumSq t) by ring.
    assert (Hx : 0 <= x * x) by nra.
    apply IH; [lra|].
    unfold roundedStep.
    pose proof (rnd_nonneg (x * x) Hx) as Hp.
    pose proof (a_pow k) as Hak. pose proof (b_pow k) as Hbk.
    assert (Ha : 0 < a < 1) by lra.
    assert (Hb : 1 < b) by lra.
    assert (H0 : 0 <= acc).
    { apply Rle_trans with (a ^ k * A); [apply Rmult_le_pos; lra | ]. lra. }
    assert (H1 : 0 <= acc + rnd (x * x)).
    { assert (0 <= a * (x * x)) by (apply Rmult_le_pos; lra). lra. }
    pose proof (rnd_nonneg (acc + rnd (x * x)) H1) as Hs.
    rewrite !pow_add. cbn [pow]. rewrite !Rmult_1_r.
    set (p := a ^ k) in *. set (q := b ^ k) in *. set (y := x * x) in *.
    set (r := rnd y) in *. set (s := rnd (acc + r)) in *.
    clearbody p q y r s. clear IH.
    assert (0 <= p * A) by (apply Rmult_le_pos; lra).
    assert (0 <= q * A) by (apply Rmult_le_pos; lra).
    assert (0 <= a * y) by (apply Rmult_le_pos; lra).
    assert (0 <= b * y) by (apply Rmult_le_pos; lra).
    split.
    + assert (p * a * (A + y) <= acc + r).
      { assert (p * A * a <= p * A) by nra.
        assert (p * (a * y) <= a * y) by nra.
        lra. }
      apply Rle_trans with (a * (acc + r)); [|lra].
      replace (p * (a * a) * (A + y)) with (a * (p * a * (A + y))) by ring.
      apply Rmult_le_compat_l; lra.
    + assert (acc + r <= q * b * (A + y)).
      { assert (q * A <= q * A * b) by nra.
        assert (b * y <= q * (b * y)) by nra.
        lra. }
      apply Rle_trans with (b * (acc + r)); [lra|].
      replace (q * (b * b) * (A + y)) with (b * (q * b * (A + y))) by ring.
      apply Rmult_le_compat_l; lra.
Qed.

#[local] Abbreviation NR := (rounded_Number rnd).

Lemma sumSquares_rounded (e : list R) :
  a ^ (2 * List.length e) * sumSq e
  <= sumSquares (N := NR) e
  <= b ^ (2 * List.length e) * sumSq e.
Proof.
  pose proof (roundedSum_bounds e 0 0 0%nat (Rle_refl 0)) as H.
  rewrite !Rplus_0_l, !Rmult_0_r in H. cbn [Nat.add] in H.
  unfold sumSquares, zero. cbn [ofZ add mul rounded_Number].
  rewrite rnd_zero. apply H. lra.
Qed.

Lemma magnitude_rounded (e : list R) :
  let s := sumSquares (N := NR) e in
  let m := magnitude (N := NR) e in
  0 <= s -> a * a * s <= m * m <= b * b * s /\ a * R_sqrt.sqrt s <= m.
Proof.
  intros s m Hs. unfold m, magnitude. cbn [sqrt rounded_Number]. fold s.
  pose proof (rnd_square (R_sqrt.sqrt s)) as H.
  rewrite (sqrt_sqrt s Hs) in H. split; [exact H|].
  apply rnd_nonneg, sqrt_pos.
Qed.

Lemma sumSq_rounded_quotients (e : list R) (m : R) :
  m <> 0 ->
  a * a * sumSq e <= sumSq (map (fun v => rnd (v / m)) e) * (m * m)
  <= b * b * sumSq e.
Proof.
  intros Hm. induction e as [|x t IH]; cbn [map sumSq]; [lra|].
  pose proof (rnd_square (x / m)) as H.
  replace (x / m * (x / m)) with (x * x / (m * m)) in H by (field; exact Hm).
  assert (Hmm : 0 < m * m) by nra.
  set (r := rnd (x / m)) in *. clearbody r.
  set (T := sumSq (map (fun v => rnd (v / m)) t)) in *. clearbody T.
  set (M := m * m) in *. clearbody M.
  assert (E : x * x / M * M = x * x) by (field; lra).
  assert (L : a * a * (x * x / M) * M <= r * r * M) by (apply Rmult_le_compat_r; lra).
  assert (U : r * r * M <= b * b * (x * x / M) * M) by (apply Rmult_le_compat_r; lra).
  replace (a * a * (x * x / M) * M) with (a * a * (x * x / M * M)) in L by ring.
  replace (b * b * (x * x / M) * M) with (b * b * (x * x / M * M)) in U by ring.
  rewrite E in L, U. lra.
Qed.

Lemma normalize_rounded (e : list R) :
  List.length e = 384%nat ->
  (exists i, nth i e 0 <> 0) ->
  R_lt 0 (magnitude (N := NR) e) = true
  /\ normalize (N := NR) e = map (fun v => rnd (v / magnitude (N := NR) e)) e
  /\ Rabs (euclideanNorm (normalize (N := NR) e) - 1) <= 1 / 1000000.
Proof.
  intros Hlen Hnz. pose proof (sumSq_pos e Hnz) as HS.
  pose proof (sumSquares_rounded e) as Hs. rewrite Hlen in Hs.
  change (2 * 384)%nat with 768%nat in Hs.
  pose proof (a_pow 768) as Ha. pose proof (b_pow 768) as Hb.
  pose proof (ab_pow 768) as Hab. pose proof (bernoulli 768) as Hc.
  replace (INR 768) with 768 in Hc by (rewrite INR_IZR_INZ; reflexivity).
  set (pa := a ^ 768) in *. set (pb := b ^ 768) in *. clearbody pa pb.
  assert (Hs0 : 0 < sumSquares (N := NR) e).
  { apply Rlt_le_trans with (pa * sumSq e); [apply Rmult_lt_0_compat; lra | lra]. }
  destruct (magnitude_rounded e (Rlt_le _ _ Hs0)) as [Hmm Hm].
  assert (Hm0 : 0 < magnitude (N := NR) e).
  { apply Rlt_le_trans with (a * R_sqrt.sqrt (sumSquares (N := NR) e)); [|exact Hm].
    apply Rmult_lt_0_compat; [unfold unitRoundoff; lra | now apply sqrt_lt_R0]. }
  assert (Hn : normalize (N := NR) e
               = map (fun v => rnd (v / magnitude (N := NR) e)) e).
  { unfold normalize, gt, zero. cbn [lt ofZ div rounded_Number].
    rewrite rnd_zero, (R_lt_true 0 _ Hm0). reflexivity. }
  split; [now apply R_lt_true|]. split; [exact Hn|].
  rewrite Hn. unfold euclideanNorm.
  pose proof (sumSq_rounded_quotients e (magnitude (N := NR) e) ltac:(lra)) as HT.
  set (T := sumSq (map (fun v => rnd (v / magnitude (N := NR) e)) e)) in *.
  set (M := magnitude (N := NR) e * magnitude (N := NR) e) in *.
  assert (HM : 0 < M) by (unfold M; nra).
  set (s := sumSquares (N := NR) e) in *. set (S := sumSq e) in *.
  clearbody T M s S. clear Hn Hm Hm0 Hnz Hlen.
  assert (HT0 : 1 - 1 / 1000000 <= T <= 1 + 1 / 1000000).
  { unfold unitRoundoff in *.
    assert (Hpb : pb * (1 - 768 * / 9007199254740992) <= 1) by nra.
    split.
    -       apply Rmult_le_reg_r with M; [exact HM|].
      apply Rle_trans with ((1 - / 9007199254740992) * (1 - / 9007199254740992) * S); [|lra].
      apply Rle_trans with ((1 - 1 / 1000000) * ((1 + / 9007199254740992) * (1 + / 9007199254740992) * (pb * S))).
      + apply Rmult_le_compat_l; lra.
      + assert (pb * S * (1 - 768 * / 9007199254740992) <= S) by nra.
        nra.
    - apply Rmult_le_reg_r with M; [exact HM|].
      apply Rle_trans with ((1 + / 9007199254740992) * (1 + / 9007199254740992) * S); [lra|].
      apply Rle_trans with ((1 + 1 / 1000000) * ((1 - / 9007199254740992) * (1 - / 9007199254740992) * (pa * S))).
      + assert ((1 - 768 * / 9007199254740992) * S <= pa * S) by nra.
        nra.
      + apply Rmult_le_compat_l; lra. }
  assert (Hr : 0 <= R_sqrt.sqrt T) by apply sqrt_pos.
  assert (Hrr : R_sqrt.sqrt T * R_sqrt.sqrt T = T) by (apply sqrt_sqrt; lra).
  set (r := R_sqrt.sqrt T) in *. clearbody r.
  apply Rabs_le. split; nra.
Qed.

Lemma normalize_rounded_zero (e : list R) :
  Forall (fun v => v = 0) e -> normalize (N := NR) e = e.
Proof.
  intros Hz. unfold normalize, gt, magnitude, zero.
  assert (E : sumSquares (N := NR) e = 0).
  { pose proof (sumSquares_rounded e) as H. rewrite (sumSq_zero e Hz) in H. lra. }
  rewrite E. cbn [lt ofZ sqrt rounded_Number].
  rewrite sqrt_0, rnd_zero, R_lt_false; [reflexivity|lra].
Qed.

Lemma unit_norm_rounded (text : string) :
  List.length (generateEmbedding (N := NR) text) = 384%nat
  /\ ((exists i, nth i (rawEmbedding (N := NR) text) 0 <> 0) ->
      R_lt 0 (magnitude (N := NR) (rawEmbedding (N := NR) text)) = true
      /\ generateEmbedding (N := NR) text
         = map (fun v => rnd (v / magnitude (N := NR) (rawEmbedding (N := NR) text)))
             (rawEmbedding (N := NR) text)
      /\ Rabs (euclideanNorm (generateEmbedding (N := NR) text) - 1) <= 1 / 1000000)
  /\ (Forall (fun v => v = 0) (rawEmbedding (N := NR) text) ->
      generateEmbedding (N := NR) text = rawEmbedding (N := NR) text).
Proof.
  unfold generateEmbedding. split; [|split].
  - unfold normalize. destruct (gt _ _).
    + rewrite length_map. apply (rawEmbedding_length (N := NR)).
    + apply (rawEmbedding_length (N := NR)).
  - apply normalize_rounded, (rawEmbedding_length (N := NR)).
  - apply normalize_rounded_zero.
Qed.

End RoundedNorm.

(** ** The guard of the division, on binary64 *)

(** A double that passes the test [magnitude > 0] is neither zero nor
    NaN. *)
Lemma positive_divisor_binary64 (m : float) :
  PrimFloat.ltb 0 m = true ->
  PrimFloat.eqb m 0 = false /\ PrimFloat.is_nan m = false.
Proof.
  unfold PrimFloat.is_nan.
  rewrite FloatAxioms.ltb_spec, !FloatAxioms.eqb_spec.
  change (Prim2SF 0) with (S754_zero false).
  unfold SFltb, SFeqb.
  destruct (Prim2SF m) as [s|s| |s mm e]; cbn [SFcompare];
    try discriminate; destruct s; try discriminate; intros _;
    (split; [reflexivity|]); cbn [negb];
    try reflexivity.
  rewrite Z.compare_refl, Pos.compare_cont_refl. reflexivity.
Qed.

(** On doubles the vector always has 384 entries; either it is returned
    as it is, or the magnitude has passed the guard (it is positive, not
    zero, not NaN) and every entry is divided by it; an all-zero vector
    has magnitude 0 and is returned as it is. *)
Lemma guarded_division_binary64 (text : string) :
  List.length (generateEmbedding (num := float) text) = 384%nat
  /\ (generateEmbedding (num := float) text = rawEmbedding text
      \/ (PrimFloat.ltb 0 (magnitude (rawEmbedding text)) = true
          /\ PrimFloat.eqb (magnitude (rawEmbedding text)) 0 = false
          /\ PrimFloat.is_nan (magnitude (rawEmbedding text)) = false
          /\ generateEmbedding (num := float) text
             = map (fun v => PrimFloat.div v (magnitude (rawEmbedding text)))
                 (rawEmbedding text)))
  /\ (rawEmbedding (num := float) text = repeat 0%float dimension ->
      generateEmbedding (num := float) text = rawEmbedding text).
Proof.
  split; [|split].
  - unfold generateEmbedding, normalize. destruct (gt _ _).
    + rewrite length_map. apply (rawEmbedding_length (num := float)).
    + apply (rawEmbedding_length (num := float)).
  - unfold generateEmbedding, normalize, gt.
    change (@lt float float_Number (@zero float float_Number))
      with (PrimFloat.ltb 0).
    destruct (PrimFloat.ltb 0 (magnitude (rawEmbedding text))) eqn:E.
    + right. destruct (positive_divisor_binary64 _ E) as [Hz Hn].
      repeat split; assumption.
    + now left.
  - intros H. unfold generateEmbedding. rewrite H. vm_compute. reflexivity.
Qed.

Definition withinTolerance (x : float) : bool :=
  PrimFloat.ltb (PrimFloat.abs (PrimFloat.sub x 1)) (dec 1 1000000).

(** The cleaned text of scenario C, the empty text and a text with no
    signal, evaluated as the engine would. *)
Example fingerprint_norm_binary64 :
  withinTolerance
    (magnitude (generateEmbedding "water leaking badly near house every single day"))
  = true
  /\ withinTolerance (magnitude (generateEmbedding "")) = true
  /\ generateEmbedding (num := float) "zzz" = repeat 0%float dimension.
Proof. vm_compute. repeat split. Qed.

(** A rounding that is never exact away from 0: every result is scaled
    by 1 + 2^-53. *)
Definition roundUp (x : R) : R := (x * (1 + unitRoundoff))%R.

Lemma roundUp_error (x : R) :
  (Rabs (roundUp x - x) <= Rabs x * unitRoundoff)%R.
Proof.
  unfold roundUp.
  replace (x * (1 + unitRoundoff) - x)%R with (x * unitRoundoff)%R by ring.
  rewrite Rabs_mult, (Rabs_pos_eq unitRoundoff); [lra|].
  unfold unitRoundoff. lra.
Qed.



End UnderstandingFacts.

(* ================================================================== *)
(** * Properties of the clustering                                     *)
(* ================================================================== *)

Module DiscoveryFacts.
Import JSNumber Store Discovery DiscoveryAgent.

Section Partition.
Context {num : Type} {N : Number num}.

#[local] Abbreviation Complaint := (Complaint num).
#[local] Abbreviation Cluster := (Cluster num).

(** All members of all clusters, cluster after cluster. *)
Definition members (clusters : list Cluster) : list Complaint :=
  List.concat (map complaints clusters).

Lemma initialClusters_length rand first (input : list Complaint) k :
  List.length (initialClusters rand first input k) = Z.to_nat k.
Proof. unfold initialClusters. now rewrite length_map, length_seq. Qed.

Lemma bestCluster_in_range (clusters : list Cluster) complaint :
  clusters <> [] -> (bestCluster clusters complaint < List.length clusters)%nat.
Proof.
  intros Hne. unfold bestCluster.
  assert (G : forall (l : list (nat * Cluster)) n acc,
             Forall (fun p => (fst p < n)%nat) l -> (fst acc < n)%nat ->
             (fst (fold_left
                (fun '(best, bestSimilarity) '(idx, cluster) =>
                   let similarity :=
                     cosineSimilarity (embedding complaint) (centroid cluster) in
                   if gt similarity bestSimilarity then (idx, similarity)
                   else (best, bestSimilarity)) l acc) < n)%nat).
  { induction l as [|[idx cl] t IH]; intros n [b s] Hall Hb; simpl; [exact Hb|].
    inversion Hall; subst. apply IH; [assumption|].
    destruct (gt _ s); simpl in *; assumption. }
  apply G.
  - apply Forall_forall. intros [i c] Hin. apply in_combine_l in Hin.
    apply in_seq in Hin. simpl. lia.
  - simpl. destruct clusters; [contradiction | simpl; lia].
Qed.

Lemma pushAt_spec idx complaint (clusters : list Cluster) :
  (idx < List.length clusters)%nat ->
  exists clusters',
    pushAt idx complaint clusters = Some clusters'
    /\ List.length clusters' = List.length clusters
    /\ Permutation (members clusters') (complaint :: members clusters).
Proof.
  revert idx. induction clusters as [|c rest IH]; intros [|j] H; simpl in H; try lia.
  - eexists. split; [reflexivity|]. split; [reflexivity|].
    unfold members. simpl. rewrite <- app_assoc. simpl.
    symmetry. apply Permutation_middle.
  - destruct (IH j ltac:(lia)) as (rest' & Hp & Hl & Hperm).
    exists (c :: rest'). simpl. rewrite Hp. split; [reflexivity|].
    split; [simpl; congruence|].
    unfold members in *. simpl.
    rewrite Hperm. symmetry. apply Permutation_middle.
Qed.

Lemma assignAll_spec (input : list Complaint) :
  forall clusters : list Cluster,
    clusters <> [] ->
    exists clusters',
      assignAll input clusters = Some clusters'
      /\ List.length clusters' = List.length clusters
      /\ Permutation (members clusters') (members clusters ++ input).
Proof.
  induction input as [|x rest IH]; intros clusters Hne; simpl.
  - exists clusters. rewrite app_nil_r. auto.
  - destruct (pushAt_spec (bestCluster clusters x) x clusters
                (bestCluster_in_range clusters x Hne)) as (c1 & Hp & Hl & Hperm).
    rewrite Hp.
    destruct (IH c1) as (c2 & Ha & Hl2 & Hperm2).
    { intros ->. destruct clusters; [contradiction | discriminate]. }
    exists c2. split; [exact Ha|]. split; [congruence|].
    rewrite Hperm2, Hperm. simpl. apply Permutation_middle.
Qed.

Lemma members_cleared (clusters : list Cluster) :
  members (map clearMembers clusters) = [].
Proof. unfold members. induction clusters; simpl; auto. Qed.

Lemma recenter_members dim (c : Cluster) :
  complaints (snd (recenter dim c)) = complaints c.
Proof.
  unfold recenter. destruct (complaints c) eqn:E; simpl; [exact E|].
  destruct (lt _ _); simpl; auto.
Qed.

Lemma updateCentroids_spec dim (clusters : list Cluster) :
  List.length (snd (updateCentroids dim clusters)) = List.length clusters
  /\ members (snd (updateCentroids dim clusters)) = members clusters.
Proof.
  unfold updateCentroids, members. simpl. rewrite !length_map.
  split; [reflexivity|]. rewrite !map_map. f_equal.
  apply map_ext. intros c. apply recenter_members.
Qed.

(** One or more rounds, starting from at least one cluster, end with the
    same number of clusters, holding together a rearrangement of the
    input. *)
Lemma iterate_spec dim (input : list Complaint) :
  forall fuel (clusters : list Cluster),
    clusters <> [] ->
    exists clusters',
      iterate (S fuel) dim input clusters = Some clusters'
      /\ List.length clusters' = List.length clusters
      /\ Permutation (members clusters') input.
Proof.
  induction fuel as [|fuel IH]; intros clusters Hne.
  - cbn [iterate].
    destruct (assignAll_spec input (map clearMembers clusters))
      as (a & Ha & Hl & Hperm).
    { destruct clusters; [contradiction | discriminate]. }
    rewrite Ha. rewrite members_cleared in Hperm. simpl in Hperm.
    destruct (updateCentroids_spec dim a) as [Hl' Hm'].
    destruct (updateCentroids dim a) as [changed updated]. simpl in *.
    exists updated. rewrite length_map in Hl.
    split; [destruct changed; reflexivity|]. split; [congruence|].
    now rewrite Hm'.
  - remember (S fuel) as f eqn:Hf. cbn [iterate].
    destruct (assignAll_spec input (map clearMembers clusters))
      as (a & Ha & Hl & Hperm).
    { destruct clusters; [contradiction | discriminate]. }
    rewrite Ha. rewrite members_cleared in Hperm. simpl in Hperm.
    destruct (updateCentroids_spec dim a) as [Hl' Hm'].
    destruct (updateCentroids dim a) as [changed updated]. simpl in *.
    rewrite length_map in Hl.
    destruct changed.
    + subst f. destruct (IH updated) as (r & Hr & Hlr & Hpr).
      { intros ->. destruct clusters; [contradiction|]. simpl in *. lia. }
      exists r. split; [exact Hr|]. split; [congruence | exact Hpr].
    + exists updated. split; [reflexivity|]. split; [congruence|].
      now rewrite Hm'.
Qed.

Lemma filter_nonEmpty_spec (clusters : list Cluster) :
  (List.length (filter nonEmpty clusters) <= List.length clusters)%nat
  /\ Forall (fun c => complaints c <> []) (filter nonEmpty clusters)
  /\ members (filter nonEmpty clusters) = members clusters.
Proof.
  unfold members. induction clusters as [|c rest (Hl & Hf & Hm)].
  - simpl. repeat split; auto.
  - cbn [filter]. destruct (nonEmpty c) eqn:En; unfold nonEmpty in En.
    + assert (Hc : complaints c <> [])
        by (destruct (complaints c); [discriminate En | discriminate]).
      cbn [map List.concat List.length].
      repeat split; [lia | constructor; assumption | now rewrite Hm].
    + assert (Hc : complaints c = [])
        by (destruct (complaints c); [reflexivity | discriminate En]).
      cbn [map List.concat List.length]. rewrite Hc.
      repeat split; [lia | assumption | exact Hm].
Qed.

(** The run of the algorithm for a positive [k]. *)
Lemma kMeans_spec rand (input : list Complaint) (k : Z) :
  input <> [] -> (1 <= k)%Z ->
  exists clusters,
    kMeansClustering rand input k = Some clusters
    /\ (Z.of_nat (List.length clusters) <= k)%Z
    /\ Forall (fun c => complaints c <> []) clusters
    /\ Permutation (members clusters) input.
Proof.
  intros Hne Hk. unfold kMeansClustering.
  destruct input as [|first rest]; [contradiction|].
  set (input := first :: rest) in *.
  set (k' := Z.min k (Z.of_nat (List.length input))).
  assert (Hk' : (1 <= k' <= k)%Z) by (unfold k', input; simpl; lia).
  destruct (iterate_spec (List.length (embedding first)) input 19
              (initialClusters rand first input k')) as (cl & Hi & Hl & Hp).
  { intros E. apply (f_equal (@List.length _)) in E.
    rewrite initialClusters_length in E. simpl in E. lia. }
  change (S 19) with maxIterations in Hi. rewrite Hi.
  destruct (filter_nonEmpty_spec cl) as (Hfl & Hff & Hfm).
  exists (filter nonEmpty cl). split; [reflexivity|].
  rewrite initialClusters_length in Hl.
  split; [lia|]. split; [assumption|]. now rewrite Hfm.
Qed.

End Partition.

Section Exclusive.
Context {num : Type} {N : Number num}.

Lemma concat_NoDup_unique {A} (ls : list (list A)) :
  NoDup (List.concat ls) ->
  forall j j' a b x,
    nth_error ls j = Some a -> nth_error ls j' = Some b ->
    In x a -> In x b -> j = j'.
Proof.
  induction ls as [|l rest IH]; intros Hnd j j' a b x Ha Hb Hxa Hxb.
  - destruct j; discriminate Ha.
  - simpl in Hnd. apply NoDup_app_remove_l in Hnd as Hrest.
    assert (Hsep : forall y, In y l -> ~ In y (List.concat rest)).
    { intros y Hy Hin. clear - Hnd Hy Hin.
      induction l as [|z t IHt]; [contradiction|].
      simpl in Hnd. inversion Hnd; subst. destruct Hy as [->|Hy].
      - apply H1. apply in_or_app. now right.
      - now apply IHt. }
    assert (Hin : forall i c, nth_error rest i = Some c -> In x c ->
                              In x (List.concat rest)).
    { intros i c Hi Hc. apply in_concat. exists c. split; [|assumption].
      eapply nth_error_In; eassumption. }
    destruct j as [|j], j' as [|j']; simpl in Ha, Hb.
    + reflexivity.
    + injection Ha as <-. exfalso. eapply Hsep; eauto.
    + injection Hb as <-. exfalso. eapply Hsep; eauto.
    + f_equal. eapply IH; eauto.
Qed.

(** C1: for every non-empty list of complaints and every number of
    clusters [k] asked for (a positive integer: the handler, the only
    caller, passes one between 3 and 8), whatever the random draws,
    [kMeansClustering] returns (it does not throw) at most [k] clusters,
    none of them empty, and the clusters' member lists together are a
    rearrangement of the input; when the input has no repeated complaint,
    each complaint is a member of exactly one returned cluster. *)
Theorem kMeans_partitions_input
    (rand : nat -> nat) (input : list (Complaint num)) (k : Z) :
  input <> [] ->
  (1 <= k)%Z ->
  exists clusters,
    kMeansClustering rand input k = Some clusters
    /\ (Z.of_nat (List.length clusters) <= k)%Z
    /\ Forall (fun c => complaints c <> []) clusters
    /\ Permutation (List.concat (map complaints clusters)) input
    /\ (NoDup input ->
        forall x, In x input ->
          exists j c,
            nth_error clusters j = Some c /\ In x (complaints c)
            /\ forall j' c', nth_error clusters j' = Some c' ->
                             In x (complaints c') -> j' = j).
Proof.
  intros Hne Hk.
  destruct (kMeans_spec rand input k Hne Hk) as (cl & Hrun & Hlen & Hall & Hperm).
  exists cl. repeat (split; [assumption|]).
  intros Hnd x Hx. unfold members in Hperm.
  assert (Hnd' : NoDup (List.concat (map complaints cl))).
  { eapply Permutation_NoDup; [symmetry; exact Hperm | exact Hnd]. }
  assert (Hin : In x (List.concat (map complaints cl))).
  { eapply Permutation_in; [symmetry; exact Hperm | exact Hx]. }
  apply in_concat in Hin as (l & Hl & Hxl).
  apply In_nth_error in Hl as [j Hj].
  destruct (nth_error cl j) as [c|] eqn:Hc;
    [|rewrite nth_error_map, Hc in Hj; discriminate Hj].
  assert (l = complaints c) as ->
    by (rewrite nth_error_map, Hc in Hj; simpl in Hj; congruence).
  exists j, c. split; [exact Hc|]. split; [assumption|].
  intros j' c' Hc' Hxc'.
  eapply (concat_NoDup_unique _ Hnd' j' j); try eassumption.
  rewrite nth_error_map, Hc'. reflexivity.
Qed.

End Exclusive.

Definition sampleComplaint (name : string) (e : list float) : Complaint float :=
  {| id := name; cleaned_text := ""; embedding := e; location := "" |}.

Lemma kMeans_partitions_input_witness :
  exists clusters,
    kMeansClustering (fun i => i)
      [sampleComplaint "a" [1; 0]%float; sampleComplaint "b" [0; 1]%float] 3
    = Some clusters
    /\ (Z.of_nat (List.length clusters) <= 3)%Z
    /\ Forall (fun c => complaints c <> []) clusters
    /\ Permutation (List.concat (map complaints clusters))
         [sampleComplaint "a" [1; 0]%float; sampleComplaint "b" [0; 1]%float]
    /\ (NoDup [sampleComplaint "a" [1; 0]%float; sampleComplaint "b" [0; 1]%float] ->
        forall x,
          In x [sampleComplaint "a" [1; 0]%float; sampleComplaint "b" [0; 1]%float] ->
          exists j c,
            nth_error clusters j = Some c /\ In x (complaints c)
            /\ forall j' c', nth_error clusters j' = Some c' ->
                             In x (complaints c') -> j' = j).
Proof.
  apply (kMeans_partitions_input (num := float) (fun i => i)
           [sampleComplaint "a" [1; 0]%float; sampleComplaint "b" [0; 1]%float] 3).
  - discriminate.
  - lia.
Defined.

(** ** The number of clusters *)

Lemma ceilThird_spec (n c : Z) :
  (3 * (c - 1) < n <= 3 * c)%Z -> ceilThird n = c.
Proof.
  intros H. unfold ceilThird.
  pose proof (Z.div_mod (- n) 3 ltac:(lia)) as Hd.
  pose proof (Z.mod_pos_bound (- n) 3 ltac:(lia)) as Hm.
  lia.
Qed.

Lemma numClusters_positive n : (3 <= numClusters n <= 8)%Z.
Proof. unfold numClusters. lia. Qed.

(** On doubles the two expressions give the same integers, for up to
    10000 complaints. *)
Definition countBound : Z := 10000.

Definition countTestsAt (n : Z) : bool :=
  PrimFloat.Leibniz.eqb
    (min (max (ofZ 3) (float_ceil (div (float_ofZ n) (ofZ 3)))) (ofZ 8))
    (float_ofZ (Z.min (Z.max 3 (ceilThird n)) 8))
  && PrimFloat.Leibniz.eqb
       (min (min (max (ofZ 3) (float_ceil (div (float_ofZ n) (ofZ 3)))) (ofZ 8))
            (float_ofZ n))
       (float_ofZ (Z.min (Z.min (Z.max 3 (ceilThird n)) 8) n)).

Fixpoint countTestsFrom (count : nat) (n : Z) : bool :=
  match count with
  | O => true
  | S count' => countTestsAt n && countTestsFrom count' (n + 1)
  end.

Lemma countTestsFrom_spec count :
  forall n k,
    countTestsFrom count n = true ->
    (n <= k < n + Z.of_nat count)%Z -> countTestsAt k = true.
Proof.
  induction count as [|count IH]; intros n k H Hk; [lia|].
  cbn [countTestsFrom] in H. apply andb_true_iff in H as [Hn Hrest].
  destruct (Z.eq_dec k n) as [->|Hne]; [exact Hn|].
  apply (IH (n + 1)%Z k Hrest). lia.
Qed.

Lemma countTests_table : countTestsFrom (Z.to_nat countBound) 1 = true.
Proof. vm_compute. reflexivity. Qed.

Lemma cluster_count_binary64 (n : nat) :
  (1 <= Z.of_nat n <= countBound)%Z ->
  numClustersNumber n = float_ofZ (numClusters n)
  /\ min (numClustersNumber n) (ofNat n)
     = float_ofZ (Z.min (numClusters n) (Z.of_nat n)).
Proof.
  intros H.
  pose proof (countTestsFrom_spec _ 1 (Z.of_nat n) countTests_table) as Ht.
  assert (Hk : (1 <= Z.of_nat n < 1 + Z.of_nat (Z.to_nat countBound))%Z)
    by (unfold countBound in *; lia).
  specialize (Ht Hk). unfold countTestsAt in Ht.
  apply andb_true_iff in Ht as [H1 H2].
  apply FloatAxioms.Leibniz.eqb_spec in H1, H2.
  split; [exact H1 | exact H2].
Qed.

(** ** The handler: what a run leaves in the store *)

Section Replacement.
Context {num : Type} {N : Number num}.
Variable generateClusterTitle : list (Complaint num) -> string.
Variable rand : nat -> nat.
Variable newId : nat -> string.
Variable logId : string.

(** The rows a run inserts for its clusters, the first one numbered
    [start]. *)
Fixpoint insertedProblems (start : nat) (clusters : list (Cluster num))
    : list (ProblemRow num) :=
  match clusters with
  | [] => []
  | c :: rest =>
      problemOf generateClusterTitle (newId start) c
      :: insertedProblems (S start) rest
  end.

Fixpoint insertedLinks (start : nat) (clusters : list (Cluster num))
    : list (LinkRow num) :=
  match clusters with
  | [] => []
  | c :: rest =>
      (map (linkOf (newId start)) (complaints c)
       ++ insertedLinks (S start) rest)%list
  end.

Lemma linkMember_fold pid (ms : list (Complaint num)) :
  forall db : DB num,
    problems_table (fold_left (linkMember pid) ms db) = problems_table db
    /\ complaint_problems_table (fold_left (linkMember pid) ms db)
       = (complaint_problems_table db ++ map (linkOf pid) ms)%list.
Proof.
  induction ms as [|m rest IH]; intros db; simpl.
  - now rewrite app_nil_r.
  - destruct (IH (linkMember pid db m)) as [Hp Hl].
    rewrite Hp, Hl. simpl. now rewrite <- app_assoc.
Qed.

Lemma storeCluster_fold (clusters : list (Cluster num)) :
  forall (db : DB num) (created : list Created),
    let result :=
      fold_left (storeCluster generateClusterTitle newId) clusters (db, created) in
    problems_table (fst result)
    = (problems_table db ++ insertedProblems (List.length created) clusters)%list
    /\ complaint_problems_table (fst result)
       = (complaint_problems_table db
          ++ insertedLinks (List.length created) clusters)%list
    /\ map created_id (snd result)
       = (map created_id created
          ++ map p_id (insertedProblems (List.length created) clusters))%list.
Proof.
  induction clusters as [|c rest IH]; intros db created.
  - simpl. now rewrite !app_nil_r.
  - cbn [fold_left insertedProblems insertedLinks map].
    set (pid := newId (List.length created)).
    assert (Hstep : storeCluster generateClusterTitle newId (db, created) c
              = (fold_left (linkMember pid) (complaints c)
                   (insertProblem (problemOf generateClusterTitle pid c) db),
                 (created
                  ++ [{| created_id := pid;
                         created_title :=
                           p_title (problemOf generateClusterTitle pid c);
                         created_count := List.length (complaints c) |}])%list))
      by reflexivity.
    rewrite Hstep. clear Hstep.
    match goal with
    | |- context [fold_left _ rest (?d, ?cr)] => specialize (IH d cr)
    end.
    cbv zeta in IH. destruct IH as (Hp & Hl & Hc).
    rewrite Hp, Hl, Hc.
    destruct (linkMember_fold pid (complaints c)
                (insertProblem (problemOf generateClusterTitle pid c) db))
      as [Hp' Hl'].
    rewrite Hp', Hl'. cbn [insertProblem problems_table complaint_problems_table].
    rewrite length_app, map_app. cbn [List.length map created_id p_id problemOf].
    rewrite Nat.add_1_r, <- !app_assoc. auto.
Qed.

Lemma filter_false {A} (f : A -> bool) (l : list A) :
  (forall x, In x l -> f x = false) -> filter f l = [].
Proof.
  intros H. induction l as [|x t IH]; simpl; [reflexivity|].
  rewrite (H x (or_introl eq_refl)). apply IH. intros y Hy. apply H. now right.
Qed.

(** C2, amended: a re-analysis run that selects at least one complaint
    (status processing, fingerprint present) deletes every Problem row
    and every ComplaintProblemLink row before it inserts, so when it
    completes the Problem table holds exactly the rows this run inserted,
    one per cluster of its k-means result, and the link table exactly
    this run's links; a run that selects no complaint completes without
    touching either table.  Stored rows are assumed to carry generated
    identifiers, never the nil UUID that the two deletions exempt. *)
Theorem reanalysis_replaces_problem_set (db : DB num) :
  Forall (fun p => p_id p <> nilUUID) (problems_table db) ->
  Forall (fun l => l_complaint_id l <> nilUUID) (complaint_problems_table db) ->
  let selected := filter eligible (complaints_table db) in
  (selected = [] ->
     exists db',
       discoveryAgent generateClusterTitle rand newId logId db = Completed db' []
       /\ problems_table db' = problems_table db
       /\ complaint_problems_table db' = complaint_problems_table db)
  /\ (selected <> [] ->
     exists clusters db' created,
       kMeansClustering rand (map parseComplaint selected)
         (numClusters (List.length selected)) = Some clusters
       /\ discoveryAgent generateClusterTitle rand newId logId db
          = Completed db' created
       /\ problems_table db' = insertedProblems 0 clusters
       /\ complaint_problems_table db' = insertedLinks 0 clusters
       /\ map created_id created = map p_id (problems_table db')).
Proof.
  intros Hp Hl selected. unfold discoveryAgent.
  cbn [insertLog complaints_table]. fold selected. split.
  - intros ->. eexists. split; [reflexivity|]. split; reflexivity.
  - intros Hne.
    destruct (kMeans_spec rand (map parseComplaint selected)
                (numClusters (List.length selected)))
      as (clusters & Hrun & _).
    { destruct selected; [contradiction | discriminate]. }
    { pose proof (numClusters_positive (List.length selected)). lia. }
    destruct selected as [|s0 srest] eqn:Hsel; [contradiction|].
    rewrite <- Hsel in *. rewrite length_map, Hrun.
    match goal with
    | |- context [fold_left ?f clusters (?d, [])] =>
        pose proof (storeCluster_fold clusters d []) as Hfold;
        destruct (fold_left f clusters (d, [])) as [db1 created]
    end.
    cbv zeta in Hfold. cbn [fst snd] in Hfold. destruct Hfold as (H1 & H2 & H3).
    exists clusters, (completeLog logId db1), created.
    split; [reflexivity|]. split; [reflexivity|].
    cbn [completeLog problems_table complaint_problems_table].
    cbn [deleteLinksNeq deleteProblemsNeq insertLog problems_table
         complaint_problems_table List.length map] in H1, H2, H3.
    rewrite filter_false in H1.
    2:{ intros p Hin. rewrite Forall_forall in Hp.
        apply String.eqb_neq. now apply Hp. }
    rewrite filter_false in H2.
    2:{ intros l Hin. apply filter_In in Hin as [Hin _].
        rewrite Forall_forall in Hl. apply String.eqb_neq. now apply Hl. }
    simpl in H1, H2, H3. rewrite H1, H2, H3. auto.
Qed.

End Replacement.

Definition oldProblem : ProblemRow float :=
  {| p_id := "7d1b9c1e-0000-4000-8000-000000000001";
     p_title := "Water & Pipe Issues";
     p_cluster_id := 0;
     p_complaint_count := 1;
     p_priority_score := 44%float;
     p_trend := "stable";
     p_keywords := [] |}.

Definition oldLink : LinkRow float :=
  {| l_complaint_id := "c0a80101-0000-4000-8000-000000000001";
     l_problem_id := "7d1b9c1e-0000-4000-8000-000000000001";
     l_confidence := dec 8 10 |}.

Definition analyzedComplaint : ComplaintRow float :=
  {| c_id := "c0a80101-0000-4000-8000-000000000001";
     c_text := "Water pipe leaking";
     c_cleaned_text := "water pipe leaking";
     c_location := "ward 5";
     c_status := "analyzed";
     c_embedding := Some [1; 0]%float;
     c_created_at := 1700000000000 |}.

Definition newComplaint : ComplaintRow float :=
  {| c_id := "c0a80101-0000-4000-8000-000000000002";
     c_text := "Street lamp broken";
     c_cleaned_text := "street lamp broken";
     c_location := "ward 7";
     c_status := "processing";
     c_embedding := Some [0; 1]%float;
     c_created_at := 1700000100000 |}.

(** A store after one run, with nothing left to cluster. *)
Definition settledStore : DB float :=
  {| complaints_table := [analyzedComplaint];
     problems_table := [oldProblem];
     complaint_problems_table := [oldLink];
     agent_logs_table := [] |}.

(** The same store after one more submission. *)
Definition pendingStore : DB float :=
  {| complaints_table := [analyzedComplaint; newComplaint];
     problems_table := [oldProblem];
     complaint_problems_table := [oldLink];
     agent_logs_table := [] |}.

Definition fixedTitle (_ : list (Complaint float)) : string := "General Issues".
Definition firstDraw (_ : nat) : nat := 0%nat.
Definition numberedId (i : nat) : string :=
  String (ascii_of_nat (48 + i)) "d1b9c1e-0000-4000-8000-0000000000ff".

Lemma reanalysis_replaces_problem_set_witness :
  (exists db',
     discoveryAgent fixedTitle firstDraw numberedId "log-1" settledStore
     = Completed db' []
     /\ problems_table db' = problems_table settledStore
     /\ complaint_problems_table db' = complaint_problems_table settledStore)
  /\ (exists clusters db' created,
        kMeansClustering firstDraw
          (map parseComplaint (filter eligible (complaints_table pendingStore)))
          (numClusters
             (List.length (filter eligible (complaints_table pendingStore))))
        = Some clusters
        /\ discoveryAgent fixedTitle firstDraw numberedId "log-1" pendingStore
           = Completed db' created
        /\ problems_table db' = insertedProblems fixedTitle numberedId 0 clusters
        /\ complaint_problems_table db' = insertedLinks numberedId 0 clusters
        /\ map created_id created = map p_id (problems_table db')).
Proof.
  split.
  - apply (reanalysis_replaces_problem_set fixedTitle firstDraw numberedId
             "log-1" settledStore).
    + repeat constructor. discriminate.
    + repeat constructor. discriminate.
    + reflexivity.
  - apply (reanalysis_replaces_problem_set fixedTitle firstDraw numberedId
             "log-1" pendingStore).
    + repeat constructor. discriminate.
    + repeat constructor. discriminate.
    + discriminate.
Defined.

(** C2 as stated fails: a run that finds no complaint to cluster returns
    early, completed, with the Problem rows of the earlier run still in
    the table; none of them was produced by this run, whose response
    lists no created problem. *)
Lemma empty_run_keeps_old_problems :
  ~ (forall (db db' : DB float) (created : list Created),
       discoveryAgent fixedTitle firstDraw numberedId "log-1" db
       = Completed db' created ->
       forall p, In p (problems_table db') ->
                 In (p_id p) (map created_id created)).
Proof.
  intros H.
  specialize (H settledStore _ [] eq_refl oldProblem (or_introl eq_refl)).
  exact H.
Qed.

End DiscoveryFacts.

(* ================================================================== *)
(** * Properties of the priority agent                                 *)
(* ================================================================== *)

Module PriorityFacts.
Import JSString JSNumber JSObject Store Priority.

(** ** The trend classifier: what holds for every number structure *)

Section TrendStructure.
Context {num : Type} {N : Number num}.

#[local] Abbreviation Row := (ComplaintRow num).

Lemma insertByTime_length (c : Row) sorted :
  List.length (insertByTime c sorted) = S (List.length sorted).
Proof.
  induction sorted as [|d rest IH]; simpl; [reflexivity|].
  destruct (c_created_at c <=? c_created_at d)%Z; simpl; congruence.
Qed.

Lemma sortByTime_length (l : list Row) :
  List.length (sortByTime l) = List.length l.
Proof.
  induction l as [|c rest IH]; simpl; [reflexivity|].
  now rewrite insertByTime_length, IH.
Qed.

(** The earliest creation time of a list (0 for the empty list). *)
Definition earliestTime (l : list Row) : Z :=
  match l with
  | [] => 0
  | c :: rest => fold_right (fun d m => Z.min (c_created_at d) m) (c_created_at c) rest
  end.

Definition headTime (l : list Row) : Z :=
  match l with
  | c :: _ => c_created_at c
  | [] => 0
  end.

Lemma insertByTime_head (c : Row) sorted :
  headTime (insertByTime c sorted)
  = match sorted with
    | [] => c_created_at c
    | d :: _ => Z.min (c_created_at c) (c_created_at d)
    end.
Proof.
  destruct sorted as [|d rest]; simpl; [reflexivity|].
  destruct (c_created_at c <=? c_created_at d)%Z eqn:E; simpl;
    [apply Z.leb_le in E | apply Z.leb_gt in E]; lia.
Qed.

Lemma fold_min_swap (a b : Z) (r : list Row) :
  Z.min b (fold_right (fun d m => Z.min (c_created_at d) m) a r)
  = Z.min a (fold_right (fun d m => Z.min (c_created_at d) m) b r).
Proof. induction r as [|d r IH]; simpl; lia. Qed.

(** The first element of the sorted list carries the earliest time. *)
Lemma sortByTime_head (l : list Row) :
  headTime (sortByTime l) = earliestTime l.
Proof.
  induction l as [|c rest IH]; [reflexivity|].
  change (sortByTime (c :: rest)) with (insertByTime c (sortByTime rest)).
  rewrite insertByTime_head.
  destruct rest as [|d r]; [reflexivity|].
  destruct (sortByTime (d :: r)) as [|e s] eqn:Hs.
  - apply (f_equal (@List.length _)) in Hs.
    rewrite sortByTime_length in Hs. discriminate Hs.
  - simpl in IH. rewrite IH. simpl.
    pose proof (fold_min_swap (c_created_at c) (c_created_at d) r). lia.
Qed.

(** The two halves of the sorted list. *)
Definition firstHalfOf (l : list Row) : list Row :=
  firstn (List.length l / 2) (sortByTime l).

Definition secondHalfOf (l : list Row) : list Row :=
  skipn (List.length l / 2) (sortByTime l).

Lemma halves_sizes (l : list Row) :
  List.length (firstHalfOf l) = (List.length l / 2)%nat
  /\ List.length (secondHalfOf l) = (List.length l - List.length l / 2)%nat.
Proof.
  unfold firstHalfOf, secondHalfOf.
  rewrite length_firstn, length_skipn, sortByTime_length.
  pose proof (Nat.div_mod_eq (List.length l) 2) as Hd.
  pose proof (Nat.mod_upper_bound (List.length l) 2 ltac:(lia)) as Hm.
  lia.
Qed.

Lemma halves_lengths (l : list Row) :
  (2 <= List.length l)%nat ->
  (1 <= List.length (firstHalfOf l) <= List.length (secondHalfOf l))%nat.
Proof.
  intros H. destruct (halves_sizes l) as [-> ->].
  pose proof (Nat.div_mod_eq (List.length l) 2) as Hd.
  pose proof (Nat.mod_upper_bound (List.length l) 2 ltac:(lia)) as Hm.
  lia.
Qed.

(** The three quantities the code compares, as it computes them. *)
Definition growthRate (l : list Row) : num :=
  div (ofNat (List.length (secondHalfOf l))) (ofNat (List.length (firstHalfOf l))).

Definition timeDiff (l : list Row) : num :=
  sub (averageTime (secondHalfOf l)) (averageTime (firstHalfOf l)).

Definition expectedDiff (now : Z) (l : list Row) : num :=
  div (sub (ofZ now) (ofZ (earliestTime l))) (ofZ 2).

Lemma determineTrend_short (now : Z) (l : list Row) :
  (List.length l < 2)%nat -> determineTrend now l = "stable".
Proof.
  intros H. unfold determineTrend.
  replace (List.length l <? 2)%nat with true
    by (symmetry; apply Nat.ltb_lt; lia).
  reflexivity.
Qed.

Lemma determineTrend_cases (now : Z) (l : list Row) :
  (2 <= List.length l)%nat ->
  determineTrend now l
  = if gt (growthRate l) (dec 13 10)
       && lt (timeDiff l) (mul (expectedDiff now l) (dec 7 10))
    then "rising"
    else if lt (growthRate l) (dec 7 10) then "falling" else "stable".
Proof.
  intros H. unfold determineTrend.
  replace (List.length l <? 2)%nat with false
    by (symmetry; apply Nat.ltb_ge; lia).
  rewrite sortByTime_length.
  fold (firstHalfOf l) (secondHalfOf l).
  assert (Hhead : match sortByTime l with
                  | c :: _ => createdAt c
                  | [] => nan
                  end = ofZ (earliestTime l)).
  { rewrite <- sortByTime_head.
    destruct (sortByTime l) as [|c s] eqn:Hs; [|reflexivity].
    apply (f_equal (@List.length _)) in Hs.
    rewrite sortByTime_length in Hs. simpl in Hs. lia. }
  rewrite Hhead. reflexivity.
Qed.

(** Once the growth-rate test of "falling" fails, the answer follows the
    test of "rising". *)
Lemma determineTrend_iff (now : Z) (l : list Row) :
  (2 <= List.length l)%nat ->
  lt (growthRate l) (dec 7 10) = false ->
  (determineTrend now l = "rising"
   <-> gt (growthRate l) (dec 13 10) = true
       /\ lt (timeDiff l) (mul (expectedDiff now l) (dec 7 10)) = true)
  /\ (determineTrend now l = "falling" <-> lt (growthRate l) (dec 7 10) = true)
  /\ (determineTrend now l = "stable"
      <-> ~ (gt (growthRate l) (dec 13 10) = true
             /\ lt (timeDiff l) (mul (expectedDiff now l) (dec 7 10)) = true)
          /\ lt (growthRate l) (dec 7 10) <> true).
Proof.
  intros H Hf. rewrite (determineTrend_cases now l H), Hf.
  destruct (gt (growthRate l) (dec 13 10));
    destruct (lt (timeDiff l) (mul (expectedDiff now l) (dec 7 10)));
    cbn [andb]; repeat split;
    try discriminate; try tauto; intros; try discriminate;
    try (intros [? ?]; discriminate);
    match goal with
    | Hc : _ /\ _ |- _ => destruct Hc; try discriminate; try tauto
    | |- _ => idtac
    end.
Qed.

End TrendStructure.

(** ** The trend classifier, in exact arithmetic *)

Section TrendReal.
Local Open Scope R_scope.

#[local] Abbreviation Row := (ComplaintRow R).

(** What the specification's sentence names. *)
Definition meanTime (l : list Row) : R :=
  fold_right (fun c s => IZR (c_created_at c) + s) 0 l / INR (List.length l).

Definition growthRatio (l : list Row) : R :=
  INR (List.length (secondHalfOf l)) / INR (List.length (firstHalfOf l)).

Definition actualGap (l : list Row) : R :=
  meanTime (secondHalfOf l) - meanTime (firstHalfOf l).

(** Half the time elapsed since the earliest complaint. *)
Definition expectedGap (now : Z) (l : list Row) : R :=
  (IZR now - IZR (earliestTime l)) / 2.

Lemma R_lt_iff (a b : R) : R_lt a b = true <-> a < b.
Proof. unfold R_lt. destruct (Rlt_dec a b); split; auto; discriminate. Qed.

Lemma ofNat_INR n : ofNat (num := R) n = INR n.
Proof. unfold ofNat. cbn [ofZ R_Number]. symmetry. apply INR_IZR_INZ. Qed.

Lemma averageTime_mean (l : list Row) : averageTime l = meanTime l.
Proof.
  unfold averageTime, meanTime. rewrite ofNat_INR. cbn [div R_Number].
  f_equal.
  assert (G : forall acc,
             fold_left (fun sum c => add sum (createdAt c)) l acc
             = acc + fold_right (fun (c : Row) s => IZR (c_created_at c) + s) 0 l).
  { induction l as [|c rest IH]; intros acc; simpl; [lra|].
    rewrite IH. unfold createdAt. cbn [add ofZ R_Number]. lra. }
  rewrite G. change (@zero R R_Number) with 0. lra.
Qed.

Lemma growthRate_ratio (l : list Row) : growthRate l = growthRatio l.
Proof. unfold growthRate, growthRatio. now rewrite !ofNat_INR. Qed.

Lemma timeDiff_gap (l : list Row) : timeDiff l = actualGap l.
Proof. unfold timeDiff, actualGap. now rewrite !averageTime_mean. Qed.

Lemma expectedDiff_gap now (l : list Row) :
  mul (expectedDiff now l) (dec 7 10) = 7 / 10 * expectedGap now l.
Proof.
  unfold expectedDiff, expectedGap, dec. cbn [mul div sub ofZ R_Number]. lra.
Qed.

Lemma growthRatio_ge_1 (l : list Row) :
  (2 <= List.length l)%nat -> 1 <= growthRatio l.
Proof.
  intros H. destruct (halves_lengths l H) as [H1 H2]. unfold growthRatio.
  assert (0 < INR (List.length (firstHalfOf l))) by (apply lt_0_INR; lia).
  apply le_INR in H2.
  apply Rmult_le_reg_r with (INR (List.length (firstHalfOf l))); [assumption|].
  unfold Rdiv. rewrite Rmult_assoc, Rinv_l by lra. lra.
Qed.

Lemma growth_test_real (l : list Row) :
  (2 <= List.length l)%nat -> lt (growthRate l) (dec 7 10) = false.
Proof.
  intros H. pose proof (growthRatio_ge_1 l H) as Hg.
  rewrite growthRate_ratio. unfold dec. cbn [lt div ofZ R_Number].
  destruct (R_lt (growthRatio l) (7 / 10)) eqn:E; [|reflexivity].
  apply R_lt_iff in E. lra.
Qed.

End TrendReal.

(** ** The trend classifier on binary64, for up to 10000 complaints *)

Section TrendBinary64.

(** For [n] complaints the growth rate is the quotient of the sizes of
    the halves, [(n - n/2) / (n/2)]; its two tests only depend on [n]. *)
Definition growthOfSize (n : Z) : float :=
  PrimFloat.div (float_ofZ (n - n / 2)) (float_ofZ (n / 2)).

Definition growthTestsAt (n : Z) : bool :=
  negb (PrimFloat.ltb (growthOfSize n) (dec 7 10))
  && negb (PrimFloat.ltb (growthOfSize n) one).

Fixpoint growthTestsFrom (count : nat) (n : Z) : bool :=
  match count with
  | O => true
  | S count' => growthTestsAt n && growthTestsFrom count' (n + 1)
  end.

Definition sizeBound : Z := 10000.

Lemma growthTestsFrom_spec count :
  forall n k,
    growthTestsFrom count n = true ->
    (n <= k < n + Z.of_nat count)%Z -> growthTestsAt k = true.
Proof.
  induction count as [|count IH]; intros n k H Hk; [lia|].
  cbn [growthTestsFrom] in H. apply andb_true_iff in H as [Hn Hrest].
  destruct (Z.eq_dec k n) as [->|Hne]; [exact Hn|].
  apply (IH (n + 1)%Z k Hrest). lia.
Qed.

(** Evaluated for every size from 2 to 10000. *)
Lemma growthTests_table : growthTestsFrom (Z.to_nat (sizeBound - 1)) 2 = true.
Proof. vm_compute. reflexivity. Qed.

Lemma growthRate_of_size (l : list (ComplaintRow float)) :
  growthRate l = growthOfSize (Z.of_nat (List.length l)).
Proof.
  unfold growthRate, growthOfSize, ofNat. destruct (halves_sizes l) as [-> ->].
  cbn [div ofZ float_Number].
  pose proof (Nat.div_mod_eq (List.length l) 2) as Hd.
  pose proof (Nat.mod_upper_bound (List.length l) 2 ltac:(lia)) as Hm.
  rewrite Nat2Z.inj_sub by lia.
  now rewrite (Nat2Z.inj_div (List.length l) 2).
Qed.

Lemma growth_test_binary64 (l : list (ComplaintRow float)) :
  (2 <= Z.of_nat (List.length l) <= sizeBound)%Z ->
  lt (growthRate l) (dec 7 10) = false /\ lt (growthRate l) one = false.
Proof.
  intros H. rewrite growthRate_of_size.
  pose proof (growthTestsFrom_spec _ 2 (Z.of_nat (List.length l))
                growthTests_table) as Ht.
  unfold growthTestsAt in Ht.
  assert (Hk : (2 <= Z.of_nat (List.length l)
                < 2 + Z.of_nat (Z.to_nat (sizeBound - 1)))%Z)
    by (unfold sizeBound in *; lia).
  specialize (Ht Hk). apply andb_true_iff in Ht as [H1 H2].
  apply negb_true_iff in H1, H2. split; assumption.
Qed.

End TrendBinary64.

Section TrendClaims.
Local Open Scope R_scope.


(** C10: for two or more complaints the second half of the split has at
    least as many elements as the first, the growth ratio is at least 1,
    and the classifier never answers "falling": in exact arithmetic for
    every list, and on binary64, with the quotient and the comparison as
    the engine computes them, for up to 10000 complaints. *)
Theorem trend_never_falling :
  (forall (now : Z) (l : list (ComplaintRow R)),
     (2 <= List.length l)%nat ->
     (List.length (firstHalfOf l) <= List.length (secondHalfOf l))%nat
     /\ 1 <= growthRatio l
     /\ determineTrend now l <> "falling")
  /\ (forall (now : Z) (l : list (ComplaintRow float)),
        (2 <= Z.of_nat (List.length l) <= sizeBound)%Z ->
        (List.length (firstHalfOf l) <= List.length (secondHalfOf l))%nat
        /\ lt (growthRate l) one = false
        /\ lt (growthRate l) (dec 7 10) = false
        /\ determineTrend now l <> "falling").
Proof.
  split; intros now l H.
  - split; [apply (halves_lengths l H)|].
    split; [apply (growthRatio_ge_1 l H)|].
    rewrite (determineTrend_cases now l H), (growth_test_real l H).
    destruct (_ && _); discriminate.
  - destruct (growth_test_binary64 l H) as [H7 H1].
    split; [apply (halves_lengths l); lia|].
    split; [exact H1|]. split; [exact H7|].
    rewrite (determineTrend_cases now l) by lia. rewrite H7.
    destruct (_ && _); discriminate.
Qed.

End TrendClaims.

Definition rowAt {num : Type} (name loc : string) (t : Z) : ComplaintRow num :=
  {| c_id := name; c_text := "street lamp dark"; c_cleaned_text := "street lamp dark";
     c_location := loc; c_status := "analyzed"; c_embedding := None;
     c_created_at := t |}.

Definition threeRows {num : Type} : list (ComplaintRow num) :=
  [rowAt "a" "ward 5" 1000; rowAt "b" "ward 5" 5000; rowAt "c" "ward 7" 5200].


Lemma trend_never_falling_witness :
  determineTrend (num := R) 9000 threeRows <> "falling"
  /\ determineTrend (num := float) 9000 threeRows <> "falling".
Proof.
  destruct trend_never_falling as [HR HF].
  assert (HlenR : (2 <= List.length (threeRows (num := R)))%nat)
    by (simpl; lia).
  assert (HlenF : (2 <= Z.of_nat (List.length (threeRows (num := float)))
                   <= sizeBound)%Z)
    by (unfold sizeBound; simpl; lia).
  split.
  - destruct (HR 9000%Z threeRows HlenR) as (_ & _ & H). exact H.
  - destruct (HF 9000%Z threeRows HlenF) as (_ & _ & _ & H). exact H.
Defined.

(** ** The composite score, in exact arithmetic *)

Section Score.
Local Open Scope R_scope.

#[local] Abbreviation Row := (ComplaintRow R).

Lemma min_Rmin (a b : R) : min a b = Rmin a b.
Proof.
  unfold min, isNaN. cbn [eq lt R_Number]. unfold R_eq, R_lt.
  destruct (Req_dec_T a a) as [_|Ha]; [|contradiction].
  destruct (Req_dec_T b b) as [_|Hb]; [|contradiction]. cbn [negb].
  unfold Rmin. destruct (Rlt_dec b a), (Rle_dec a b); lra.
Qed.

Lemma max_Rmax (a b : R) : max a b = Rmax a b.
Proof.
  unfold max, isNaN. cbn [eq lt R_Number]. unfold R_eq, R_lt.
  destruct (Req_dec_T a a) as [_|Ha]; [|contradiction].
  destruct (Req_dec_T b b) as [_|Hb]; [|contradiction]. cbn [negb].
  unfold Rmax. destruct (Rlt_dec a b), (Rle_dec a b); lra.
Qed.

Lemma keywordHits_nonneg text keywords (w s : R) :
  0 <= w -> 0 <= s -> 0 <= keywordHits text keywords w s.
Proof.
  intros Hw. unfold keywordHits. revert s.
  induction keywords as [|k rest IH]; intros s Hs; simpl; [exact Hs|].
  apply IH. destruct (includes text k); [|exact Hs]. lra.
Qed.

Lemma calculateSeverityScore_nonneg (l : list Row) :
  l <> [] -> 0 <= calculateSeverityScore l <= 10.
Proof.
  intros Hne. unfold calculateSeverityScore. rewrite min_Rmin, ofNat_INR.
  cbn [div ofZ R_Number].
  assert (Hsum : forall acc, 0 <= acc ->
            0 <= fold_left
                   (fun s (complaint : Row) =>
                      keywordHits (toLowerCase (c_cleaned_text complaint))
                        importantKeywords (ofZ 1)
                        (keywordHits (toLowerCase (c_cleaned_text complaint))
                           urgentKeywords (ofZ 3) s)) l acc).
  { clear Hne. induction l as [|c rest IH]; intros acc Hacc; cbn [fold_left];
      [exact Hacc|].
    apply IH.
    apply keywordHits_nonneg; [cbn [ofZ R_Number]; lra|].
    apply keywordHits_nonneg; [cbn [ofZ R_Number]; lra | exact Hacc]. }
  assert (Hz : 0 <= @zero R R_Number) by (unfold zero; cbn [ofZ R_Number]; lra).
  specialize (Hsum zero Hz).
  assert (Hlen : 0 < INR (List.length l)).
  { apply lt_0_INR. destruct l; [contradiction | simpl; lia]. }
  split.
  - apply Rmin_glb; [|lra]. apply Rmult_le_pos; [exact Hsum|].
    apply Rlt_le, Rinv_0_lt_compat, Hlen.
  - apply Rmin_r.
Qed.

Lemma calculateRecencyScore_nonneg now (l : list Row) :
  l <> [] -> 0 <= calculateRecencyScore now l.
Proof.
  intros Hne. unfold calculateRecencyScore. rewrite ofNat_INR.
  cbn [div R_Number].
  assert (Hsum : forall acc, 0 <= acc ->
            0 <= fold_left
                   (fun s (complaint : Row) =>
                      if lt (sub (ofZ now) (createdAt complaint)) (ofZ oneDay)
                      then add s (ofZ 3)
                      else if lt (sub (ofZ now) (createdAt complaint)) (ofZ oneWeek)
                           then add s (dec 3 2) else add s (dec 1 2)) l acc).
  { clear Hne. induction l as [|c rest IH]; intros acc Hacc; cbn [fold_left];
      [exact Hacc|].
    apply IH. cbn [lt add ofZ R_Number]. unfold dec. cbn [div ofZ R_Number].
    destruct (R_lt _ _); [lra|]. destruct (R_lt _ _); lra. }
  assert (Hz : 0 <= @zero R R_Number) by (unfold zero; cbn [ofZ R_Number]; lra).
  specialize (Hsum zero Hz).
  apply Rmult_le_pos; [exact Hsum|].
  apply Rlt_le, Rinv_0_lt_compat, lt_0_INR.
  destruct l; [contradiction | simpl; lia].
Qed.

(** Every cell is a positive count as long as no location is an
    inherited property name. *)
Definition counted (obj : object) : Prop :=
  Forall (fun kv => exists n, snd kv = Count n /\ (1 <= n)%Z) obj.

Lemma own_counted obj key v :
  counted obj -> own obj key = Some v -> exists n, v = Count n /\ (1 <= n)%Z.
Proof.
  induction 1 as [|[k w] rest Hk _ IH]; simpl; [discriminate|].
  destruct (String.eqb k key); [|exact IH].
  intros [= <-]. exact Hk.
Qed.

Lemma store_counted obj key n :
  counted obj -> (1 <= n)%Z -> counted (store obj key (Count n)).
Proof.
  intros H Hn. induction H as [|[k w] rest Hk Hrest IH]; simpl.
  - repeat constructor. now exists n.
  - destruct (String.eqb k key); constructor; auto. now exists n.
Qed.

Lemma bump_counted obj key :
  JSString.has inheritedNames key = false -> counted obj -> counted (bump obj key).
Proof.
  intros Hk Hobj. unfold bump. rewrite Hk.
  destruct (own obj key) as [v|] eqn:E.
  - destruct (own_counted _ _ _ Hobj E) as (n & -> & Hn).
    apply store_counted; [assumption|].
    destruct (Z.eqb_spec n 0); lia.
  - apply store_counted; [assumption | lia].
Qed.

Lemma locationMap_counted (l : list Row) :
  Forall (fun c => JSString.has inheritedNames (c_location c) = false) l ->
  counted (locationMap l).
Proof.
  unfold locationMap. intros H.
  assert (G : forall obj, counted obj ->
            counted (fold_left
                       (fun obj (complaint : Row) =>
                          if (0 <? String.length (c_location complaint))%nat
                          then bump obj (c_location complaint) else obj) l obj)).
  { induction H as [|c rest Hc _ IH]; intros obj Hobj; simpl; [exact Hobj|].
    apply IH. destruct (0 <? _)%nat; [now apply bump_counted | exact Hobj]. }
  apply G. constructor.
Qed.

Lemma maxWithOne_ge_1 (obj : object) :
  counted obj -> 1 <= maxWithOne (num := R) (values obj).
Proof.
  unfold maxWithOne, values. intros H.
  assert (G : forall m : R, 1 <= m ->
            1 <= fold_left (fun m v => max m (toNumber v)) (map snd obj) m).
  { induction H as [|[k v] rest _ _ IH]; intros m Hm; simpl; [exact Hm|].
    apply IH. rewrite max_Rmax. pose proof (Rmax_l m (toNumber v)). lra. }
  apply G. unfold one. simpl. lra.
Qed.

Lemma calculateLocationDensity_nonneg (l : list Row) :
  Forall (fun c => JSString.has inheritedNames (c_location c) = false) l ->
  0 <= calculateLocationDensity l.
Proof.
  intros H. unfold calculateLocationDensity.
  pose proof (maxWithOne_ge_1 _ (locationMap_counted l H)) as Hm.
  cbn [mul add log10 ofZ R_Number R_MathLib]. unfold R_log10, one.
  cbn [ofZ R_Number].
  assert (0 < ln 10) by (rewrite <- ln_1; apply ln_increasing; lra).
  assert (0 < ln (maxWithOne (values (locationMap l)) + 1))
    by (rewrite <- ln_1; apply ln_increasing; lra).
  apply Rmult_le_pos; [|lra].
  apply Rmult_le_pos; [lra|]. apply Rlt_le, Rinv_0_lt_compat. lra.
Qed.

(** [Math.round] of a value between 0 and 100 is an integer between 0
    and 100. *)
Lemma R_round_range (x : R) :
  0 <= x <= 100 -> exists z : Z, (0 <= z <= 100)%Z /\ R_round x = IZR z.
Proof.
  intros Hx. unfold R_round. exists (up (x + / 2) - 1)%Z.
  split; [|reflexivity].
  destruct (archimed (x + / 2)) as [Hgt Hle].
  split.
  - assert (0 < IZR (up (x + / 2))) by lra.
    apply lt_IZR in H. lia.
  - assert (IZR (up (x + / 2)) < 102) by lra.
    apply lt_IZR in H. lia.
Qed.

(** The composite score of a problem whose complaints carry ordinary
    location names is an integer between 0 and 100. *)
Lemma priority_score_in_range (now : Z) (l : list Row) :
  l <> [] ->
  Forall (fun c => JSString.has inheritedNames (c_location c) = false) l ->
  exists z : Z,
    (0 <= z <= 100)%Z /\ calculatePriorityScore (factorsOf now l) = IZR z.
Proof.
  intros Hne Hloc. unfold calculatePriorityScore, factorsOf.
  cbn [complaint_count severity_score recency_score location_density].
  pose proof (calculateSeverityScore_nonneg l Hne) as Hs.
  pose proof (calculateRecencyScore_nonneg now l Hne) as Hr.
  pose proof (calculateLocationDensity_nonneg l Hloc) as Hd.
  rewrite !min_Rmin, ofNat_INR.
  cbn [round R_MathLib]. apply R_round_range.
  unfold dec, one. cbn [add mul div ofZ R_Number].
  assert (Hn : 0 <= INR (List.length l)) by apply pos_INR.
  assert (Hc : 0 <= Rmin (INR (List.length l) / 10) 1)
    by (apply Rmin_glb; lra).
  split; [|apply Rmin_r].
  apply Rmin_glb; [|lra].
  assert (0 <= Rmin (INR (List.length l) / 10) 1 * 100 * (4 / 10)) by nra.
  assert (0 <= calculateSeverityScore l * 10 * (35 / 100)) by nra.
  assert (0 <= calculateRecencyScore now l * 10 * (15 / 100)) by nra.
  assert (0 <= calculateLocationDensity l * 10 * (1 / 10)) by nra.
  lra.
Qed.

End Score.

(** ** The composite score on binary64, at a location named like an
       inherited property *)

Definition integersUpTo100 : list Z := map Z.of_nat (seq 0 101).

(** C3 fails on the code: for a problem whose one linked complaint has
    location "constructor", [locationMap["constructor"]] reads the
    inherited function, [+ 1] makes a string of it, [Math.max] of that
    string is NaN, and the composite score comes out NaN, whatever the
    engine's [Math.log10]: it equals none of the integers 0..100. *)
Theorem priority_score_nan_on_inherited_location (engine_log10 : float -> float) :
  let complaints := [rowAt (num := float) "a" "constructor" 1700000000000] in
  let score :=
    calculatePriorityScore (M := float_MathLib engine_log10)
      (factorsOf (M := float_MathLib engine_log10) 1700000600000 complaints) in
  locationMap complaints = [("constructor", Text)]
  /\ prioritize (M := float_MathLib engine_log10) 1700000600000 1700000600000
       complaints = Some (PrimFloat.nan, "stable")
  /\ existsb (fun z => PrimFloat.eqb score (float_ofZ z)) integersUpTo100 = false.
Proof.
  vm_compute. repeat split.
Qed.

End PriorityFacts.

(* ================================================================== *)
(** * Further properties of the validator                              *)
(* ================================================================== *)

Module IngestionShape.
Import JSString Ingestion IngestionFacts.

#[local] Arguments isWhiteSpace : simpl never.
#[local] Arguments toLowerCaseChar : simpl never.

Lemma allChars_Forall (P : ascii -> bool) (s : string) :
  allChars P s = true -> Forall (fun c => P c = true) (chars s).
Proof.
  unfold chars. induction s as [|c r IH]; simpl; [constructor|].
  rewrite andb_true_iff. intros [Hc Hr]. constructor; auto.
Qed.

Lemma has_false_not_In (ws : list string) (w : string) :
  has ws w = false -> ~ In w ws.
Proof.
  unfold has. intros H Hin.
  assert (existsb (String.eqb w) ws = true).
  { apply existsb_exists. exists w. split; [assumption | apply String.eqb_refl]. }
  congruence.
Qed.

(** Every word the validator keeps is at least 3 characters long, is no
    stop-word, holds no white space and is in lower case. *)
Theorem kept_words_invariant (text w : string) :
  In w (words text) ->
  (3 <= String.length w)%nat
  /\ ~ In w stopWords
  /\ Forall (fun c => isWhiteSpace c = false /\ toLowerCaseChar c = c) (chars w).
Proof.
  intros Hin.
  pose proof (words_clean text) as Hc. pose proof (words_kept text) as Hk.
  rewrite Forall_forall in Hc, Hk. specialize (Hc w Hin). specialize (Hk w Hin).
  unfold keepWord in Hk. apply andb_true_iff in Hk as [Hlen Hstop].
  apply Nat.ltb_lt in Hlen. apply negb_true_iff in Hstop.
  split; [lia|]. split; [now apply has_false_not_In|].
  unfold cleanWord in Hc. apply andb_true_iff in Hc as [Hc _].
  apply allChars_Forall in Hc. eapply Forall_impl; [|exact Hc].
  intros c Hcc. unfold clean, lowered in Hcc.
  apply andb_true_iff in Hcc as [H1 H2].
  apply negb_true_iff in H1. apply Ascii.eqb_eq in H2. auto.
Qed.

Lemma kept_words_invariant_witness :
  (3 <= String.length "leaking")%nat
  /\ ~ In "leaking" stopWords
  /\ Forall (fun c => isWhiteSpace c = false /\ toLowerCaseChar c = c)
       (chars "leaking").
Proof.
  apply (kept_words_invariant scenarioC "leaking").
  vm_compute. tauto.
Defined.

(** The cleaned text is in normal form: trimming, lower-casing and
    collapsing white space leave it unchanged, and splitting it on spaces
    gives back the kept words. *)
Theorem cleaned_text_normal_form (text loc : string) :
  let cleaned := cleaned_text (validate text loc) in
  trim cleaned = cleaned
  /\ toLowerCase cleaned = cleaned
  /\ collapseWhitespace cleaned = cleaned
  /\ tokens (validate text loc)
     = match words text with [] => [EmptyString] | _ :: _ => words text end.
Proof.
  pose proof (words_clean text) as Hc.
  cbn [cleaned_text validate tokens]. unfold trim, collapseWhitespace.
  rewrite trimStart_join, trimEnd_join, toLowerCase_join, collapseFrom_join
    by assumption.
  repeat split.
  unfold tokens, validate. cbn [cleaned_text].
  destruct (words text) as [|w ws] eqn:E; [reflexivity|].
  now apply split_join.
Qed.

(** ** Splitting and joining *)

Lemma join_of_split (s : string) : join (split s) = s.
Proof.
  induction s as [|c r IH]; [reflexivity|].
  cbn [split]. destruct (Ascii.eqb_spec c " ") as [->|Hc].
  - pose proof (split_not_nil r) as Hne.
    destruct (split r) as [|w ws]; [contradiction|].
    change (join (EmptyString :: w :: ws)) with (String " " (join (w :: ws))).
    now rewrite IH.
  - pose proof (split_not_nil r) as Hne.
    destruct (split r) as [|w ws]; [contradiction|].
    destruct ws as [|w' ws'].
    + simpl in *. now rewrite IH.
    + change (join (String c w :: w' :: ws'))
        with (String c (join (w :: w' :: ws'))).
      now rewrite IH.
Qed.

(** The number of space characters of a string. *)
Definition spaces (s : string) : nat :=
  List.length (filter (Ascii.eqb " ") (chars s)).

(** [s.split(' ')] has one piece more than [s] has spaces, no piece
    contains a space, and [s.split(' ').join(' ')] is [s] again, for
    every string. *)
Theorem join_split (s : string) :
  join (split s) = s
  /\ List.length (split s) = S (spaces s)
  /\ Forall (fun w => spaces w = 0%nat) (split s).
Proof.
  split; [apply join_of_split|].
  induction s as [|c r [IH1 IH2]]; [split; [reflexivity | repeat constructor]|].
  unfold spaces in *. cbn [split chars list_ascii_of_string filter].
  fold (chars r).
  destruct (Ascii.eqb_spec c " ") as [->|Hc].
  - cbn [Ascii.eqb Bool.eqb andb List.length]. split; [now rewrite IH1|].
    constructor; [reflexivity | exact IH2].
  - assert (Hcs : Ascii.eqb " " c = false)
      by (apply Ascii.eqb_neq; congruence).
    rewrite Hcs. destruct (split r) as [|w ws]; [discriminate IH1|].
    cbn [List.length] in *. split; [exact IH1|].
    inversion IH2 as [|? ? Hw Hws]; subst. constructor; [|exact Hws].
    cbn [chars list_ascii_of_string filter]. rewrite Hcs. exact Hw.
Qed.

(** ** Lengths *)

Lemma trimStart_length s : (String.length (trimStart s) <= String.length s)%nat.
Proof.
  induction s as [|c r IH]; simpl; [lia|].
  destruct (isWhiteSpace c); simpl; lia.
Qed.

Lemma trimEnd_length s : (String.length (trimEnd s) <= String.length s)%nat.
Proof.
  induction s as [|c r IH]; simpl; [lia|].
  destruct (trimEnd r); [destruct (isWhiteSpace c)|]; simpl in *; lia.
Qed.

Lemma collapseFrom_length b s :
  (String.length (collapseFrom b s) <= String.length s)%nat.
Proof.
  revert b. induction s as [|c r IH]; intros b; simpl; [lia|].
  destruct (isWhiteSpace c); [destruct b|]; simpl;
    match goal with |- context [collapseFrom ?x r] => specialize (IH x) end; lia.
Qed.

Lemma append_length a b :
  String.length (a ++ b) = (String.length a + String.length b)%nat.
Proof. induction a; simpl; congruence. Qed.

(** The characters of the pieces plus one separator each. *)
Fixpoint spread (ws : list string) : nat :=
  match ws with
  | [] => O
  | w :: rest => (String.length w + 1 + spread rest)%nat
  end.

Lemma join_length ws :
  String.length (join ws) = (spread ws - 1)%nat.
Proof.
  induction ws as [|w rest IH]; [reflexivity|].
  destruct rest as [|w' rest'].
  - simpl. lia.
  - change (join (w :: w' :: rest')) with (w ++ String " " (join (w' :: rest')))%string.
    rewrite append_length. cbn [String.length]. rewrite IH. simpl. lia.
Qed.

Lemma spread_filter (f : string -> bool) ws :
  (spread (filter f ws) <= spread ws)%nat.
Proof.
  induction ws as [|w rest IH]; simpl; [lia|].
  destruct (f w); simpl; lia.
Qed.

(** ** Letter case *)

Lemma isWhiteSpace_lower c : isWhiteSpace (toLowerCaseChar c) = isWhiteSpace c.
Proof. destruct c as [[] [] [] [] [] [] [] []]; vm_compute; reflexivity. Qed.

Lemma trimStart_lower s : trimStart (toLowerCase s) = toLowerCase (trimStart s).
Proof.
  induction s as [|c r IH]; [reflexivity|].
  cbn [toLowerCase trimStart]. rewrite isWhiteSpace_lower.
  destruct (isWhiteSpace c); [exact IH | reflexivity].
Qed.

Lemma trimEnd_lower s : trimEnd (toLowerCase s) = toLowerCase (trimEnd s).
Proof.
  induction s as [|c r IH]; [reflexivity|].
  cbn [toLowerCase trimEnd]. rewrite IH, isWhiteSpace_lower.
  destruct (trimEnd r); cbn [toLowerCase]; [destruct (isWhiteSpace c)|];
    reflexivity.
Qed.

Lemma toLowerCase_idem s : toLowerCase (toLowerCase s) = toLowerCase s.
Proof.
  induction s as [|c r IH]; [reflexivity|].
  cbn [toLowerCase]. now rewrite toLowerCaseChar_idem, IH.
Qed.

Lemma words_of_lower text : words (toLowerCase text) = words text.
Proof.
  unfold words, trim.
  now rewrite trimStart_lower, trimEnd_lower, toLowerCase_idem.
Qed.

(** The cleaned text is never longer than the lower-cased text
    ([text.toLowerCase()]): trimming, collapsing white space and dropping
    words only shorten. *)
Theorem cleaned_text_not_longer (text loc : string) :
  (String.length (cleaned_text (validate text loc))
   <= String.length (toLowerCase text))%nat.
Proof.
  cbn [cleaned_text validate]. unfold words.
  set (s := collapseWhitespace (toLowerCase (trim text))).
  rewrite join_length.
  pose proof (spread_filter keepWord (split s)) as Hf.
  pose proof (join_length (split s)) as Hj. rewrite join_of_split in Hj.
  assert (Hs : (String.length s <= String.length (toLowerCase text))%nat).
  { unfold s, collapseWhitespace, trim.
    rewrite <- trimEnd_lower, <- trimStart_lower.
    pose proof (collapseFrom_length false (trimEnd (trimStart (toLowerCase text)))).
    pose proof (trimEnd_length (trimStart (toLowerCase text))).
    pose proof (trimStart_length (toLowerCase text)). lia. }
  lia.
Qed.

(** Two texts that differ only in letter case have the same kept words
    and the same cleaned text. *)
Theorem cleaned_text_ignores_case (text1 text2 loc1 loc2 : string) :
  toLowerCase text1 = toLowerCase text2 ->
  words text1 = words text2
  /\ cleaned_text (validate text1 loc1) = cleaned_text (validate text2 loc2).
Proof.
  intros H.
  assert (Hw : words text1 = words text2)
    by (rewrite <- (words_of_lower text1), <- (words_of_lower text2); now rewrite H).
  split; [exact Hw|]. cbn [cleaned_text validate]. now rewrite Hw.
Qed.

Lemma cleaned_text_ignores_case_witness :
  words "WATER Pipe Leaking" = words "water pipe leaking"
  /\ cleaned_text (validate "WATER Pipe Leaking" "")
     = cleaned_text (validate "water pipe leaking" "ward 5").
Proof.
  apply (cleaned_text_ignores_case "WATER Pipe Leaking" "water pipe leaking").
  reflexivity.
Defined.

(** ** Accepted texts *)

Lemma spread_kept ws :
  Forall (fun w => keepWord w = true) ws ->
  (4 * List.length ws <= spread ws)%nat.
Proof.
  induction 1 as [|w rest Hw _ IH]; simpl; [lia|].
  unfold keepWord in Hw. apply andb_true_iff in Hw as [Hlen _].
  apply Nat.ltb_lt in Hlen. lia.
Qed.

Lemma startsWith_prefix (p s : string) :
  startsWith p s = true <-> exists rest, s = (p ++ rest)%string.
Proof.
  revert s. induction p as [|a p IH]; intros s; cbn [startsWith append].
  - split; [intros _; now exists s | reflexivity].
  - destruct s as [|b s]; [split; [discriminate | intros [rest H]; discriminate H]|].
    rewrite andb_true_iff, IH. split.
    + intros [Hab [rest ->]]. apply Ascii.eqb_eq in Hab. subst b. now exists rest.
    + intros [rest H]. injection H as -> ->.
      split; [apply Ascii.eqb_refl | now exists rest].
Qed.

(** A text that starts with the same character six times, that character
    being no line terminator (the dot of the pattern matches none). *)
Definition sixfoldStart (text : string) : Prop :=
  exists c rest,
    isLineTerminator c = false
    /\ text = String c (String c (String c (String c (String c (String c rest))))).

Lemma repeatedPrefix_sixfold (text : string) :
  repeatedPrefix text = true <-> sixfoldStart text.
Proof.
  unfold sixfoldStart. destruct text as [|c r]; cbn [repeatedPrefix].
  - split; [discriminate | intros (c & rest & _ & H); discriminate H].
  - rewrite andb_true_iff, negb_true_iff, startsWith_prefix. split.
    + intros [Hc [rest ->]]. exists c, rest. split; [exact Hc | reflexivity].
    + intros (c' & rest & Hc & H). injection H as -> ->.
      split; [exact Hc | now exists rest].
Qed.

(** The verdict is positive exactly when the reason is empty, and exactly
    when the text has at least 10 characters, keeps at least 3 words and
    does not start with six times the same character other than a line
    terminator (a text starting with six line feeds passes the spam
    test); the cleaned text of an accepted text has at least 11
    characters. *)
Theorem accepted_text_shape (text loc : string) :
  (is_valid (validate text loc) = true <-> reason (validate text loc) = "")
  /\ (is_valid (validate text loc) = true
      <-> (10 <= String.length text)%nat
          /\ (3 <= List.length (words text))%nat
          /\ ~ sixfoldStart text)
  /\ (is_valid (validate text loc) = true ->
      (11 <= String.length (cleaned_text (validate text loc)))%nat).
Proof.
  pose proof (repeatedPrefix_sixfold text) as Hsix.
  cbn [is_valid reason cleaned_text validate].
  destruct (String.length text <? 10)%nat eqn:E1.
  { apply Nat.ltb_lt in E1. cbn [fst snd].
    split; [split; discriminate|]. split; [|discriminate].
    split; [discriminate | intros (H & _); lia]. }
  destruct (List.length (words text) <? 3)%nat eqn:E2.
  { apply Nat.ltb_lt in E2. cbn [fst snd].
    split; [split; discriminate|]. split; [|discriminate].
    split; [discriminate | intros (_ & H & _); lia]. }
  destruct (repeatedPrefix text) eqn:E3.
  { cbn [fst snd].
    split; [split; discriminate|]. split; [|discriminate].
    split; [discriminate | intros (_ & _ & H); exfalso; apply H, Hsix; reflexivity]. }
  cbn [fst snd]. apply Nat.ltb_ge in E1, E2.
  split; [tauto|]. split.
  - split; [intros _ | reflexivity].
    split; [exact E1|]. split; [exact E2|].
    intros H. apply Hsix in H. discriminate H.
  - intros _. rewrite join_length.
    pose proof (spread_kept (words text) (words_kept text)). lia.
Qed.

Definition sixLineFeeds : string :=
  String "010" (String "010" (String "010" (String "010" (String "010"
    (String "010" "water pipe broken"))))).

Lemma accepted_text_shape_witness :
  (11 <= String.length (cleaned_text (validate scenarioC "")))%nat
  /\ (11 <= String.length (cleaned_text (validate sixLineFeeds "")))%nat.
Proof.
  split.
  - apply (accepted_text_shape scenarioC ""). reflexivity.
  - apply (accepted_text_shape sixLineFeeds ""). reflexivity.
Defined.

End IngestionShape.

(* ================================================================== *)
(** * Further properties of the fingerprint generator                  *)
(* ================================================================== *)

Module UnderstandingShape.
Import JSString JSNumber Understanding UnderstandingFacts.

(** ** The string hash *)

Local Open Scope Z_scope.

(** The polynomial in 31 with the character codes as coefficients, from
    the accumulator [h]. *)
Definition poly31 (cs : list ascii) (h : Z) : Z :=
  fold_left (fun acc c => 31 * acc + charCode c) cs h.

Lemma toInt32_range z : - 2 ^ 31 <= toInt32 z < 2 ^ 31.
Proof.
  unfold toInt32. pose proof (Z.mod_pos_bound (z + 2 ^ 31) (2 ^ 32) ltac:(lia)).
  lia.
Qed.

Lemma toInt32_congr a b :
  a mod 2 ^ 32 = b mod 2 ^ 32 -> toInt32 a = toInt32 b.
Proof.
  intros H. unfold toInt32. f_equal.
  rewrite (Z.add_mod a), (Z.add_mod b), H by lia. reflexivity.
Qed.

Lemma toInt32_mod z : toInt32 z mod 2 ^ 32 = z mod 2 ^ 32.
Proof.
  unfold toInt32.
  rewrite <- (Zminus_mod_idemp_l ((z + 2 ^ 31) mod 2 ^ 32)).
  rewrite Z.mod_mod by lia. rewrite Zminus_mod_idemp_l. f_equal. lia.
Qed.

Lemma hashStep_poly h c :
  hashStep h c mod 2 ^ 32 = (31 * h + charCode c) mod 2 ^ 32.
Proof.
  unfold hashStep. rewrite toInt32_mod.
  rewrite <- Zplus_mod_idemp_l, <- Zminus_mod_idemp_l, toInt32_mod.
  rewrite Zminus_mod_idemp_l, Zplus_mod_idemp_l. f_equal. lia.
Qed.

Lemma fold_hashStep_poly cs :
  forall h h',
    h mod 2 ^ 32 = h' mod 2 ^ 32 ->
    fold_left hashStep cs h mod 2 ^ 32 = poly31 cs h' mod 2 ^ 32.
Proof.
  unfold poly31. induction cs as [|c rest IH]; intros h h' H; simpl; [exact H|].
  apply IH. rewrite hashStep_poly.
  rewrite <- Zplus_mod_idemp_l, <- Zmult_mod_idemp_r, H.
  rewrite Zmult_mod_idemp_r, Zplus_mod_idemp_l. reflexivity.
Qed.

Lemma fold_hashStep_range cs h :
  - 2 ^ 31 <= h < 2 ^ 31 -> - 2 ^ 31 <= fold_left hashStep cs h < 2 ^ 31.
Proof.
  revert h. induction cs as [|c rest IH]; intros h H; simpl; [exact H|].
  apply IH. apply toInt32_range.
Qed.

Lemma toInt32_id z : - 2 ^ 31 <= z < 2 ^ 31 -> toInt32 z = z.
Proof.
  intros H. unfold toInt32. rewrite Z.mod_small by lia. lia.
Qed.

Lemma simpleHash_position (str : string) :
  (Z.to_nat (simpleHash str mod 384) < dimension)%nat.
Proof.
  unfold dimension, simpleHash.
  pose proof (Z.mod_pos_bound (Z.abs (fold_left hashStep (chars str) 0)) 384
                ltac:(lia)). lia.
Qed.

(** [simpleHash] is the absolute value of the base-31 polynomial of the
    character codes wrapped to 32 bits; it lies between 0 and 2^31
    inclusive, and the cell it selects is below 384. *)
Theorem simpleHash_polynomial (str : string) :
  simpleHash str = Z.abs (toInt32 (poly31 (chars str) 0))
  /\ 0 <= simpleHash str <= 2 ^ 31
  /\ (Z.to_nat (simpleHash str mod 384) < dimension)%nat.
Proof.
  unfold simpleHash.
  pose proof (fold_hashStep_range (chars str) 0 ltac:(lia)) as Hr.
  split; [|split].
  - f_equal. rewrite <- (toInt32_id _ Hr). apply toInt32_congr.
    now apply fold_hashStep_poly.
  - lia.
  - apply simpleHash_position.
Qed.

Close Scope Z_scope.

(** ** The layout of the vector *)

Section Layout.
Context {num : Type} {N : Number num}.

(** Cells above the last band are untouched by [fillBands]. *)
Lemma fillBands_above score base width groups :
  forall idx (e : list num) j d,
    (base + (idx + List.length groups) * width <= List.length e)%nat ->
    (base + (idx + List.length groups) * width <= j)%nat ->
    nth j (fillBands score base width idx groups e) d = nth j e d.
Proof.
  induction groups as [|g rest IH]; intros idx e j d Hlen Hj; [reflexivity|].
  cbn [fillBands]. cbn [List.length] in Hlen, Hj.
  destruct (fillBand_spec (base + idx * width) width
              (div (score g) (ofNat (List.length g + 1))) e) as [L1 B1]; [nia|].
  rewrite IH.
  - rewrite B1.
    replace (j <? base + idx * width + width)%nat with false
      by (symmetry; apply Nat.ltb_ge; nia).
    now rewrite andb_false_r.
  - rewrite L1. nia.
  - nia.
Qed.

(** The vector when both band loops have run. *)
Definition bandsOf (text : string) : list num :=
  severityStage (wordsOf text) (categoryStage (wordsOf text) (repeat zero dimension)).

(** The 30-cell band of each of the 10 topic categories holds the
    category's score divided by its size plus one (the urgency loop does
    not touch it), and the last 24 cells are still zero. *)
Theorem category_bands_and_tail (text : string) :
  (forall k category i,
     nth_error problemCategories k = Some category -> (i < 30)%nat ->
     get (bandsOf text) (k * 30 + i)
     = div (categoryScore (wordsOf text) category)
           (ofNat (List.length category + 1)))
  /\ (forall j, (360 <= j < 384)%nat -> get (bandsOf text) j = zero).
Proof.
  unfold bandsOf, get.
  set (words := wordsOf text).
  assert (Hz : List.length (repeat (@zero num N) dimension) = dimension)
    by apply repeat_length.
  destruct (fillBands_spec (categoryScore words) 0 30 problemCategories 0
              (repeat zero dimension)) as (Lc & _ & Bc).
  { rewrite Hz. vm_compute. lia. }
  destruct (fillBands_spec (severityScore words) 300 20 severityTerms 0
              (categoryStage words (repeat zero dimension))) as (_ & Low & _).
  { rewrite categoryStage_length by exact Hz. vm_compute. lia. }
  split.
  - intros k category i Hk Hi.
    assert (Hk10 : (k < 10)%nat).
    { change 10%nat with (List.length problemCategories).
      apply nth_error_Some. congruence. }
    unfold severityStage. rewrite Low by (simpl; lia).
    unfold categoryStage. exact (Bc k category i nan Hk Hi).
  - intros j Hj. unfold severityStage, categoryStage.
    rewrite fillBands_above.
    + rewrite fillBands_above.
      * apply nth_repeat_lt. unfold dimension. lia.
      * rewrite Hz. vm_compute. lia.
      * simpl. lia.
    + fold (categoryStage words (repeat zero dimension)).
      rewrite categoryStage_length by exact Hz. vm_compute. lia.
    + simpl. lia.
Qed.

(** How many words longer than 3 characters hash to cell [j]. *)
Definition hashedTo (words : list string) (j : nat) : nat :=
  List.length
    (filter (fun word =>
               (3 <? String.length word)%nat
               && (Z.to_nat (simpleHash word mod 384) =? j)%nat)
       words).

Lemma hashStage_cell (words : list string) :
  forall (e : list num) j,
    List.length e = dimension -> (j < dimension)%nat ->
    get (hashStage words e) j
    = Nat.iter (hashedTo words j) (fun x => add x (dec 1 10)) (get e j).
Proof.
  unfold hashStage, hashedTo, get.
  induction words as [|w rest IH]; intros e j He Hj; [reflexivity|].
  cbn [fold_left filter].
  destruct (3 <? String.length w)%nat eqn:Hlen; cbn [andb].
  - assert (Hpos : (Z.to_nat (simpleHash w mod 384) < List.length e)%nat).
    { rewrite He. apply simpleHash_position. }
    rewrite IH by (rewrite ?assign_length; assumption).
    destruct (Nat.eqb_spec (Z.to_nat (simpleHash w mod 384)) j) as [Heq|Hne].
    + subst j. rewrite assign_same by assumption.
      cbn [List.length]. now rewrite Nat.iter_succ_r.
    + rewrite assign_other by (assumption || congruence). reflexivity.
  - now apply IH.
Qed.

(** The hashed bag of words only adds: every cell of the vector before
    normalisation is its band value plus 0.1 added once for each word
    longer than 3 characters whose hash selects the cell. *)
Theorem raw_cell_is_band_plus_hashes (text : string) (j : nat) :
  (j < 384)%nat ->
  get (rawEmbedding text) j
  = Nat.iter (hashedTo (wordsOf text) j) (fun x => add x (dec 1 10))
      (get (bandsOf text) j).
Proof.
  intros Hj. unfold rawEmbedding, bandsOf.
  apply hashStage_cell; [|exact Hj].
  apply severityStage_length, categoryStage_length, repeat_length.
Qed.

End Layout.

Lemma category_bands_and_tail_witness :
  get (bandsOf (num := float) "water pipe") (0 * 30 + 29)
  = div (categoryScore (num := float) (wordsOf "water pipe")
           ["water"; "tap"; "supply"; "pipe"; "leak"; "drinking"; "dry"; "shortage"])
        (ofNat (8 + 1))
  /\ get (bandsOf (num := float) "water pipe") 383 = zero.
Proof.
  destruct (category_bands_and_tail (num := float) "water pipe") as [H1 H2]. split.
  - apply (H1 0%nat
             ["water"; "tap"; "supply"; "pipe"; "leak"; "drinking"; "dry"; "shortage"]
             29%nat); [reflexivity | lia].
  - apply H2. lia.
Defined.

Lemma raw_cell_is_band_plus_hashes_witness :
  get (rawEmbedding (num := float) "water pipe") 151
  = Nat.iter (hashedTo (wordsOf "water pipe") 151) (fun x => add x (dec 1 10))
      (get (bandsOf (num := float) "water pipe") 151).
Proof.
  apply (raw_cell_is_band_plus_hashes (num := float) "water pipe" 151). lia.
Defined.

(** ** From the validator to the vector *)

Section Handoff.
Context {num : Type} {N : Number num}.
Import Ingestion IngestionFacts UnderstandingAgent.

Lemma valid_keeps_three_words text loc :
  is_valid (validate text loc) = true -> (3 <= List.length (words text))%nat.
Proof.
  cbn [is_valid validate].
  destruct (String.length text <? 10)%nat; [discriminate|].
  destruct (List.length (words text) <? 3)%nat eqn:E; [discriminate|].
  intros _. now apply Nat.ltb_ge in E.
Qed.

Lemma tokensOf_cleaned text loc :
  tokensOf (cleaned_text (validate text loc)) = words text.
Proof.
  cbn [cleaned_text validate]. unfold tokensOf.
  pose proof (words_clean text) as Hc. pose proof (words_kept text) as Hk.
  destruct (words text) as [|w ws]; [reflexivity|].
  rewrite split_join by exact Hc.
  apply filter_all. eapply Forall_impl; [|exact Hk].
  intros a Ha. unfold keepWord in Ha. now apply andb_true_iff in Ha.
Qed.

(** The orchestrator hands the validator's cleaned text to the
    understanding agent.  The agent's token list is then the validator's
    list of kept words, for every text; for an accepted text so is the
    word list of [generateEmbedding], whose vector is therefore computed
    from the kept words alone (white space, letter case, short words and
    stop words of the submission leave no trace in it). *)
Theorem understanding_reads_kept_words (text loc : string) :
  tokensOf (cleaned_text (validate text loc)) = words text
  /\ (is_valid (validate text loc) = true ->
      wordsOf (cleaned_text (validate text loc)) = words text
      /\ generateEmbedding (cleaned_text (validate text loc))
         = normalize
             (hashStage (words text)
                (severityStage (words text)
                   (categoryStage (words text) (repeat zero dimension))))).
Proof.
  split; [apply tokensOf_cleaned|].
  intros Hv. apply valid_keeps_three_words in Hv.
  assert (Hw : wordsOf (cleaned_text (validate text loc)) = words text).
  { cbn [cleaned_text validate]. unfold wordsOf.
    pose proof (words_clean text) as Hc.
    rewrite toLowerCase_join by exact Hc.
    destruct (words text) as [|w ws]; [simpl in Hv; lia|].
    now apply split_join. }
  split; [exact Hw|].
  unfold generateEmbedding, rawEmbedding. now rewrite Hw.
Qed.

End Handoff.

Lemma understanding_reads_kept_words_witness :
  wordsOf (Ingestion.cleaned_text (Ingestion.validate Ingestion.scenarioC ""))
  = Ingestion.words Ingestion.scenarioC
  /\ generateEmbedding (num := float)
       (Ingestion.cleaned_text (Ingestion.validate Ingestion.scenarioC ""))
     = normalize
         (hashStage (Ingestion.words Ingestion.scenarioC)
            (severityStage (Ingestion.words Ingestion.scenarioC)
               (categoryStage (Ingestion.words Ingestion.scenarioC)
                  (repeat zero dimension)))).
Proof.
  apply (understanding_reads_kept_words (num := float) Ingestion.scenarioC "").
  reflexivity.
Defined.

End UnderstandingShape.

(* ================================================================== *)
(** * Further properties of the discovery agent                        *)
(* ================================================================== *)

Module DiscoveryShape.
Import JSNumber Store Discovery DiscoveryAgent DiscoveryFacts.

(** ** Comparison and multiplication of doubles *)

Lemma SFltb_trans (a b c : spec_float) :
  SFltb a b = true -> SFltb b c = true -> SFltb a c = true.
Proof.
  unfold SFltb, SFcompare.
  destruct a as [sa|sa| |sa ma ea], b as [sb|sb| |sb mb eb],
           c as [sc|sc| |sc mc ec];
    try discriminate;
    repeat match goal with s : bool |- _ => destruct s end;
    try discriminate; try reflexivity;
    change (PosDef.Pos.compare_cont Eq) with Pos.compare;
    destruct (Z.compare_spec ea eb), (Z.compare_spec eb ec),
             (Z.compare_spec ea ec);
    try discriminate; try reflexivity; try lia;
    destruct (Pos.compare_spec ma mb), (Pos.compare_spec mb mc),
             (Pos.compare_spec ma mc);
    cbn [CompOpp]; try discriminate; try reflexivity; try lia.
Qed.

Lemma SFltb_irrefl (a : spec_float) : SFltb a a = false.
Proof.
  unfold SFltb, SFcompare.
  destruct a as [sa|sa| |sa ma ea]; try reflexivity;
    destruct sa; try reflexivity;
    change (PosDef.Pos.compare_cont Eq) with Pos.compare;
    rewrite Z.compare_refl, Pos.compare_refl; reflexivity.
Qed.

Lemma SFltb_cotrans (a x f : spec_float) :
  SFeqb x x = true -> SFltb a x = false -> SFltb a f = true -> SFltb x f = true.
Proof.
  unfold SFltb, SFeqb, SFcompare.
  destruct a as [sa|sa| |sa ma ea], x as [sx|sx| |sx mx ex],
           f as [sf|sf| |sf mf ef];
    try discriminate;
    repeat match goal with s : bool |- _ => destruct s end;
    try discriminate; try reflexivity;
    change (PosDef.Pos.compare_cont Eq) with Pos.compare;
    intros _;
    destruct (Z.compare_spec ea ex), (Z.compare_spec ea ef),
             (Z.compare_spec ex ef);
    try discriminate; try reflexivity; try lia;
    destruct (Pos.compare_spec ma mx), (Pos.compare_spec ma mf),
             (Pos.compare_spec mx mf);
    cbn [CompOpp]; try discriminate; try reflexivity; try lia.
Qed.

Lemma float_lt_trans (a b c : float) :
  lt a b = true -> lt b c = true -> lt a c = true.
Proof.
  cbn [lt float_Number]. rewrite !FloatAxioms.ltb_spec. apply SFltb_trans.
Qed.

Lemma float_lt_irrefl (a : float) : lt a a = false.
Proof. cbn [lt float_Number]. rewrite FloatAxioms.ltb_spec. apply SFltb_irrefl. Qed.

Lemma float_lt_cotrans (a x f : float) :
  eq x x = true -> lt a x = false -> lt a f = true -> lt x f = true.
Proof.
  cbn [lt eq float_Number]. rewrite !FloatAxioms.ltb_spec, FloatAxioms.eqb_spec.
  apply SFltb_cotrans.
Qed.

Lemma float_mul_comm (x y : float) : mul x y = mul y x.
Proof.
  cbn [mul float_Number]. apply Prim2SF_inj. rewrite !FloatAxioms.mul_spec.
  unfold SF64mul, SFmul.
  destruct (Prim2SF x) as [sx|sx| |sx mx ex], (Prim2SF y) as [sy|sy| |sy my ey];
    try reflexivity; rewrite (xorb_comm sx sy); try reflexivity.
  now rewrite (Pos.mul_comm mx my), (Z.add_comm ex ey).
Qed.

(** A double equal to zero is +0 or -0; its square is +0. *)
Lemma float_square_zero (x : float) : eq x zero = true -> mul x x = zero.
Proof.
  cbn [eq mul float_Number]. rewrite FloatAxioms.eqb_spec.
  intros H. apply Prim2SF_inj. rewrite FloatAxioms.mul_spec.
  change (Prim2SF (@zero float float_Number)) with (S754_zero false) in *.
  unfold SFeqb, SFcompare in H.
  destruct (Prim2SF x) as [s|s| |s m e]; try discriminate H.
  - now destruct s.
  - destruct s; discriminate H.
  - destruct s; discriminate H.
Qed.

(** ** Cosine similarity: what holds on every number structure *)

Section CosineLaws.
Context {num : Type} {N : Number num}.
Hypothesis mul_comm : forall x y : num, mul x y = mul y x.
Hypothesis square_zero : forall x : num, eq x zero = true -> mul x x = zero.
Hypothesis add_zero : add (@zero num N) zero = zero.
Hypothesis sqrt_zero : sqrt (@zero num N) = zero.
Hypothesis eq_zero : eq (@zero num N) zero = true.

(** The three sums of the loop, one by one. *)
Definition sumOver (u v : list num) (l : list nat) (s : num) : num :=
  fold_left (fun s i => add s (mul (get u i) (get v i))) l s.

Lemma cosine_loop (a b : list num) (l : list nat) :
  forall d ma mb,
    fold_left
      (fun '(d, ma, mb) i =>
         (add d (mul (get a i) (get b i)),
          add ma (mul (get a i) (get a i)),
          add mb (mul (get b i) (get b i))))
      l (d, ma, mb)
    = (sumOver a b l d, sumOver a a l ma, sumOver b b l mb).
Proof.
  induction l as [|i l IH]; intros d ma mb; [reflexivity|].
  cbn [fold_left sumOver]. apply IH.
Qed.

Lemma cosineSimilarity_sums (a b : list num) :
  let l := seq 0 (List.length a) in
  cosineSimilarity a b
  = if eq (sqrt (sumOver a a l zero)) zero || eq (sqrt (sumOver b b l zero)) zero
    then zero
    else div (sumOver a b l zero)
           (mul (sqrt (sumOver a a l zero)) (sqrt (sumOver b b l zero))).
Proof. cbv zeta. unfold cosineSimilarity. rewrite cosine_loop. reflexivity. Qed.

Lemma sumOver_comm (u v : list num) (l : list nat) :
  forall s, sumOver u v l s = sumOver v u l s.
Proof.
  induction l as [|i l IH]; intros s; [reflexivity|].
  cbn [sumOver fold_left]. rewrite (mul_comm (get u i) (get v i)). apply IH.
Qed.

Lemma cosine_symmetric_any (a b : list num) :
  List.length a = List.length b -> cosineSimilarity a b = cosineSimilarity b a.
Proof.
  intros H. rewrite !cosineSimilarity_sums. cbv zeta. rewrite <- H.
  rewrite (sumOver_comm b a), orb_comm.
  now rewrite (mul_comm (sqrt (sumOver b b _ _))).
Qed.

Lemma sumOver_zero (a : list num) :
  Forall (fun x => eq x zero = true) a ->
  forall l, Forall (fun i => (i < List.length a)%nat) l ->
            sumOver a a l zero = zero.
Proof.
  intros Hz l Hl. induction Hl as [|i l Hi _ IH]; [reflexivity|].
  cbn [sumOver fold_left].
  assert (Hx : eq (get a i) zero = true).
  { rewrite Forall_forall in Hz. apply Hz. unfold get. now apply nth_In. }
  rewrite (square_zero _ Hx), add_zero. exact IH.
Qed.

Lemma cosine_of_zeros (a b : list num) :
  Forall (fun x => eq x zero = true) a -> cosineSimilarity a b = zero.
Proof.
  intros Hz. rewrite cosineSimilarity_sums. cbv zeta.
  rewrite (sumOver_zero a Hz).
  - now rewrite sqrt_zero, eq_zero.
  - apply Forall_forall. intros i Hi. apply in_seq in Hi. lia.
Qed.

End CosineLaws.

(** ** Cosine similarity, in exact arithmetic *)

Section CosineReal.
Local Open Scope R_scope.

(** The sum of [a[i] * b[i]] over [i < n]. *)
Definition dotTo (a b : list R) (n : nat) : R :=
  fold_left (fun s i => s + get a i * get b i) (seq 0 n) 0.

Lemma cosine_sums (a b : list R) (l : list nat) :
  forall d ma mb,
    fold_left
      (fun '(d, ma, mb) i =>
         (add d (mul (get a i) (get b i)),
          add ma (mul (get a i) (get a i)),
          add mb (mul (get b i) (get b i))))
      l (d, ma, mb)
    = (fold_left (fun s i => s + get a i * get b i) l d,
       fold_left (fun s i => s + get a i * get a i) l ma,
       fold_left (fun s i => s + get b i * get b i) l mb).
Proof.
  induction l as [|i l IH]; intros d ma mb; [reflexivity|].
  cbn [fold_left]. apply IH.
Qed.

Lemma dotTo_S a b n : dotTo a b (S n) = dotTo a b n + get a n * get b n.
Proof. unfold dotTo. rewrite seq_S, fold_left_app. reflexivity. Qed.

Lemma dotTo_nonneg a n : 0 <= dotTo a a n.
Proof.
  induction n as [|n IH]; [unfold dotTo; simpl; lra|].
  rewrite dotTo_S. nra.
Qed.

(** Cauchy-Schwarz. *)
Lemma dotTo_bound a b n :
  dotTo a b n * dotTo a b n <= dotTo a a n * dotTo b b n.
Proof.
  induction n as [|n IH]; [unfold dotTo; simpl; lra|].
  rewrite !dotTo_S.
  pose proof (dotTo_nonneg a n) as HA. pose proof (dotTo_nonneg b n) as HB.
  set (D := dotTo a b n) in *. set (A := dotTo a a n) in *.
  set (B := dotTo b b n) in *. set (x := get a n). set (y := get b n).
  clearbody D A B x y.
  assert (Hyy : 0 <= y * y) by exact (Rle_0_sqr y).
  assert (Hxx : 0 <= x * x) by exact (Rle_0_sqr x).
  assert (Hu : 0 <= A * (y * y) + B * (x * x)).
  { pose proof (Rmult_le_pos _ _ HA Hyy). pose proof (Rmult_le_pos _ _ HB Hxx). lra. }
  assert (Hsq : (2 * D * x * y) * (2 * D * x * y)
                <= (A * (y * y) + B * (x * x)) * (A * (y * y) + B * (x * x))).
  { assert (H1 : 0 <= (A * (y * y) - B * (x * x)) * (A * (y * y) - B * (x * x)))
      by exact (Rle_0_sqr _).
    assert (H2 : 0 <= (x * y) * (x * y) * (A * B - D * D)).
    { apply Rmult_le_pos; [exact (Rle_0_sqr _) | lra]. }
    lra. }
  assert (Hle : 2 * D * x * y <= A * (y * y) + B * (x * x)).
  { destruct (Rle_lt_dec (2 * D * x * y) (A * (y * y) + B * (x * x))) as [Hl|Hl];
      [exact Hl|].
    exfalso.
    assert (0 < 2 * D * x * y - (A * (y * y) + B * (x * x))) by lra.
    assert (0 < (2 * D * x * y - (A * (y * y) + B * (x * x)))
                * (2 * D * x * y + (A * (y * y) + B * (x * x)))).
    { apply Rmult_lt_0_compat; lra. }
    lra. }
  lra.
Qed.

Lemma cosineSimilarity_real (a b : list R) :
  cosineSimilarity a b
  = if R_eq (R_sqrt.sqrt (dotTo a a (List.length a))) 0
       || R_eq (R_sqrt.sqrt (dotTo b b (List.length a))) 0
    then 0
    else dotTo a b (List.length a)
         / (R_sqrt.sqrt (dotTo a a (List.length a))
            * R_sqrt.sqrt (dotTo b b (List.length a))).
Proof.
  unfold cosineSimilarity. unfold zero. cbn [ofZ R_Number].
  rewrite cosine_sums. reflexivity.
Qed.

Lemma R_eq_true a b : R_eq a b = true <-> a = b.
Proof. unfold R_eq. destruct (Req_dec_T a b); split; congruence. Qed.

Lemma R_eq_false a b : R_eq a b = false <-> a <> b.
Proof. unfold R_eq. destruct (Req_dec_T a b); split; congruence. Qed.

Lemma cosine_in_range (a b : list R) : -1 <= cosineSimilarity a b <= 1.
Proof.
  rewrite cosineSimilarity_real.
  set (n := List.length a).
  pose proof (dotTo_nonneg a n) as HA. pose proof (dotTo_nonneg b n) as HB.
  pose proof (dotTo_bound a b n) as HD.
  destruct (R_eq (R_sqrt.sqrt (dotTo a a n)) 0) eqn:Ea; [simpl; lra|].
  destruct (R_eq (R_sqrt.sqrt (dotTo b b n)) 0) eqn:Eb; [simpl; lra|].
  cbn [orb]. apply R_eq_false in Ea, Eb.
  pose proof (sqrt_pos (dotTo a a n)) as Pa.
  pose proof (sqrt_pos (dotTo b b n)) as Pb.
  pose proof (sqrt_sqrt _ HA) as Sa. pose proof (sqrt_sqrt _ HB) as Sb.
  set (sa := R_sqrt.sqrt (dotTo a a n)) in *.
  set (sb := R_sqrt.sqrt (dotTo b b n)) in *.
  set (D := dotTo a b n) in *.
  assert (HP : 0 < sa * sb) by (apply Rmult_lt_0_compat; lra).
  assert (HDP : D * D <= (sa * sb) * (sa * sb)).
  { replace ((sa * sb) * (sa * sb)) with ((sa * sa) * (sb * sb)) by ring.
    now rewrite Sa, Sb. }
  assert (H1 : D <= sa * sb) by nra.
  assert (H2 : - (sa * sb) <= D) by nra.
  split.
  - apply Rmult_le_reg_r with (sa * sb); [exact HP|].
    unfold Rdiv. rewrite Rmult_assoc, Rinv_l by lra. lra.
  - apply Rmult_le_reg_r with (sa * sb); [exact HP|].
    unfold Rdiv. rewrite Rmult_assoc, Rinv_l by lra. lra.
Qed.

End CosineReal.

(** ** Cosine similarity on doubles and in exact arithmetic *)

Lemma R_mul_comm (x y : R) : mul x y = mul y x.
Proof. cbn [mul R_Number]. apply Rmult_comm. Qed.

Lemma R_square_zero (x : R) : eq x zero = true -> mul x x = zero.
Proof.
  cbn [eq mul R_Number]. unfold zero. cbn [ofZ R_Number].
  intros H. apply R_eq_true in H. subst x. apply Rmult_0_l.
Qed.

(** On doubles, as the engine computes, and in exact arithmetic alike:
    the similarity of two vectors of one dimension does not depend on the
    order of its arguments, and a vector of zeros (of either sign, on
    doubles) has similarity 0 to every vector: the guard on the
    magnitudes returns before the division.  In exact arithmetic the
    similarity lies between -1 and 1.  On doubles it does not: rounding
    can take it below -1 and above 1. *)
Theorem cosine_similarity_properties :
  (forall a b : list float,
     List.length a = List.length b ->
     cosineSimilarity a b = cosineSimilarity b a)
  /\ (forall a b : list float,
        Forall (fun x => PrimFloat.eqb x 0 = true) a ->
        cosineSimilarity a b = 0%float)
  /\ (forall a b : list R,
        List.length a = List.length b ->
        (-1 <= cosineSimilarity a b <= 1)%R
        /\ cosineSimilarity a b = cosineSimilarity b a
        /\ (Forall (fun x => x = 0%R) a -> cosineSimilarity a b = 0%R))
  /\ (exists a b : list float,
        List.length a = List.length b
        /\ PrimFloat.ltb (cosineSimilarity a b) (-1)%float = true)
  /\ (exists a : list float, PrimFloat.ltb 1%float (cosineSimilarity a a) = true).
Proof.
  split; [|split; [|split; [|split]]].
  - intros a b. apply (cosine_symmetric_any float_mul_comm).
  - intros a b Hz.
    apply (cosine_of_zeros (num := float) float_square_zero); try reflexivity.
    exact Hz.
  - intros a b Hlen. split; [apply cosine_in_range|]. split.
    + apply (cosine_symmetric_any R_mul_comm a b Hlen).
    + intros Hz.
      apply (cosine_of_zeros (num := R) R_square_zero).
      * unfold zero. cbn [add ofZ R_Number]. apply Rplus_0_l.
      * unfold zero. cbn [sqrt ofZ R_Number]. apply sqrt_0.
      * apply R_eq_true. reflexivity.
      * eapply Forall_impl; [|exact Hz]. intros x ->.
        apply R_eq_true. reflexivity.
  - exists [-1; -1; -1]%float, [1; 1; 1]%float. split; reflexivity.
  - exists [1; 1; 1]%float. reflexivity.
Qed.

Lemma cosine_similarity_properties_witness :
  cosineSimilarity [1; 0]%float [0; 1]%float
  = cosineSimilarity [0; 1]%float [1; 0]%float
  /\ cosineSimilarity [0; (-0)]%float [0; 1]%float = 0%float
  /\ (-1 <= cosineSimilarity [1; 0]%R [0; 1]%R <= 1)%R.
Proof.
  destruct cosine_similarity_properties as (Hs & Hz & HR & _).
  split; [|split].
  - apply (Hs [1; 0]%float [0; 1]%float). reflexivity.
  - apply (Hz [0; (-0)]%float [0; 1]%float). repeat constructor.
  - apply (HR [1; 0]%R [0; 1]%R). reflexivity.
Defined.

Lemma nth_error_numbered {A} (l : list A) :
  forall start k i x,
    nth_error (combine (seq start (List.length l)) l) k = Some (i, x) ->
    i = (start + k)%nat /\ nth_error l k = Some x.
Proof.
  induction l as [|y l IH]; intros start k i x H.
  - destruct k; discriminate H.
  - destruct k as [|k]; cbn [List.length seq combine nth_error] in H.
    + injection H as <- <-. split; [lia | reflexivity].
    + apply IH in H as [-> H]. split; [lia | exact H].
Qed.

Lemma numbered_nth_error {A} (l : list A) :
  forall start k x,
    nth_error l k = Some x ->
    nth_error (combine (seq start (List.length l)) l) k = Some ((start + k)%nat, x).
Proof.
  induction l as [|y l IH]; intros start k x Hk; [destruct k; discriminate|].
  destruct k as [|k]; cbn [List.length seq combine nth_error] in *.
  - injection Hk as ->. now rewrite Nat.add_0_r.
  - rewrite (IH (S start) k x Hk). f_equal. f_equal. lia.
Qed.

Lemma fold_left_pointwise {A B} (f g : A -> B -> A) (l : list B) :
  (forall a b, f a b = g a b) -> forall a, fold_left f l a = fold_left g l a.
Proof.
  intros H. induction l as [|b l IH]; intros a; [reflexivity|].
  cbn [fold_left]. now rewrite H, IH.
Qed.

(** ** The assignment step: what holds on every ordered number structure *)

Section Choice.
Context {num : Type} {N : Number num}.
Hypothesis lt_irrefl : forall a : num, lt a a = false.
Hypothesis lt_trans :
  forall a b c : num, lt a b = true -> lt b c = true -> lt a c = true.
Hypothesis lt_cotrans :
  forall a x f : num, eq x x = true -> lt a x = false -> lt a f = true ->
                      lt x f = true.
Variable complaint : Complaint num.

Definition similarityTo (cluster : Cluster num) : num :=
  cosineSimilarity (embedding complaint) (centroid cluster).

Definition pick (acc : nat * num) (entry : nat * Cluster num) : nat * num :=
  let '(best, bestSimilarity) := acc in
  let '(idx, cluster) := entry in
  let similarity := cosineSimilarity (embedding complaint) (centroid cluster) in
  if gt similarity bestSimilarity then (idx, similarity)
  else (best, bestSimilarity).

Lemma pick_step b0 s0 i c :
  pick (b0, s0) (i, c)
  = if lt s0 (similarityTo c) then (i, similarityTo c) else (b0, s0).
Proof. reflexivity. Qed.

Lemma pick_fold (l : list (nat * Cluster num)) :
  forall b0 s0,
    let r := fold_left pick l (b0, s0) in
    (forall p, In p l -> lt (snd r) (similarityTo (snd p)) = false)
    /\ lt (snd r) s0 = false
    /\ ((r = (b0, s0)
         /\ forall p, In p l -> lt s0 (similarityTo (snd p)) = false)
        \/ exists k c,
             nth_error l k = Some (fst r, c)
             /\ similarityTo c = snd r /\ lt s0 (snd r) = true
             /\ forall j p, (j < k)%nat -> nth_error l j = Some p ->
                            eq (similarityTo (snd p)) (similarityTo (snd p)) = true ->
                            lt (similarityTo (snd p)) (snd r) = true).
Proof.
  induction l as [|[i c] l IH]; intros b0 s0; cbv zeta.
  - cbn [fold_left snd]. split; [intros p []|]. split; [apply lt_irrefl|].
    left. split; [reflexivity | intros p []].
  - cbn [fold_left]. rewrite pick_step.
    destruct (lt s0 (similarityTo c)) eqn:Hlt.
    + specialize (IH i (similarityTo c)). cbv zeta in IH.
      destruct IH as (Hall & Hle & Hcase).
      split.
      { intros p [<-|Hin]; [exact Hle | now apply Hall]. }
      assert (Hs0 : lt s0 (snd (fold_left pick l (i, similarityTo c))) = true).
      { destruct Hcase as [[Heq _]|(k & c' & _ & _ & Hlt' & _)].
        - rewrite Heq. exact Hlt.
        - exact (lt_trans _ _ _ Hlt Hlt'). }
      split.
      { destruct (lt (snd (fold_left pick l (i, similarityTo c))) s0) eqn:E;
          [|reflexivity].
        pose proof (lt_trans _ _ _ Hs0 E) as Hbad.
        rewrite lt_irrefl in Hbad. discriminate Hbad. }
      right.
      destruct Hcase as [[Heq _]|(k & c' & Hk & Hs & Hlt' & Hbefore)].
      * exists 0%nat, c. rewrite Heq. cbn [fst snd nth_error].
        split; [reflexivity|]. split; [reflexivity|]. split; [exact Hlt|].
        intros j p Hj. lia.
      * exists (S k), c'. cbn [nth_error].
        split; [exact Hk|]. split; [exact Hs|]. split; [exact Hs0|].
        intros [|j] p Hj Hp Hnum; cbn [nth_error] in Hp.
        -- injection Hp as <-. cbn [snd]. exact Hlt'.
        -- apply (Hbefore j p); [lia | exact Hp | exact Hnum].
    + specialize (IH b0 s0). cbv zeta in IH.
      destruct IH as (Hall & Hle & Hcase).
      split.
      { intros p [<-|Hin]; [|now apply Hall]. cbn [snd].
        destruct Hcase as [[Heq _]|(k & c' & _ & _ & Hlt' & _)].
        - rewrite Heq. exact Hlt.
        - destruct (lt (snd (fold_left pick l (b0, s0))) (similarityTo c)) eqn:E;
            [|reflexivity].
          pose proof (lt_trans _ _ _ Hlt' E) as Hbad. congruence. }
      split; [exact Hle|].
      destruct Hcase as [[Heq Hnone]|(k & c' & Hk & Hs & Hlt' & Hbefore)].
      * left. split; [exact Heq|].
        intros p [<-|Hin]; [exact Hlt | now apply Hnone].
      * right. exists (S k), c'. cbn [nth_error].
        split; [exact Hk|]. split; [exact Hs|]. split; [exact Hlt'|].
        intros [|j] p Hj Hp Hnum; cbn [nth_error] in Hp.
        -- injection Hp as <-. cbn [snd] in *.
           exact (lt_cotrans _ _ _ Hnum Hlt Hlt').
        -- apply (Hbefore j p); [lia | exact Hp | exact Hnum].
Qed.

Lemma bestCluster_pick (clusters : list (Cluster num)) :
  bestCluster clusters complaint
  = fst (fold_left pick (combine (seq 0 (List.length clusters)) clusters)
           (0%nat, ofZ (-1))).
Proof.
  unfold bestCluster. f_equal. apply fold_left_pointwise.
  intros [b s] [i c]. reflexivity.
Qed.

(** The index chosen for a complaint.  When some similarity exceeds the
    start value -1: the cluster chosen exceeds -1, no cluster is more
    similar, and every cluster before it whose similarity is a number is
    strictly less similar.  When none does: index 0. *)
Lemma bestCluster_choice (clusters : list (Cluster num)) :
  clusters <> [] ->
  ((exists c, In c clusters /\ lt (ofZ (-1)) (similarityTo c) = true) ->
   exists best,
     nth_error clusters (bestCluster clusters complaint) = Some best
     /\ lt (ofZ (-1)) (similarityTo best) = true
     /\ (forall c, In c clusters -> lt (similarityTo best) (similarityTo c) = false)
     /\ (forall j c, (j < bestCluster clusters complaint)%nat ->
                     nth_error clusters j = Some c ->
                     eq (similarityTo c) (similarityTo c) = true ->
                     lt (similarityTo c) (similarityTo best) = true))
  /\ ((forall c, In c clusters -> lt (ofZ (-1)) (similarityTo c) = false) ->
      bestCluster clusters complaint = 0%nat).
Proof.
  intros Hne. rewrite bestCluster_pick.
  pose proof (pick_fold (combine (seq 0 (List.length clusters)) clusters)
                0%nat (ofZ (-1))) as H.
  cbv zeta in H. destruct H as (Hall & _ & Hcase).
  assert (Hin : forall c, In c clusters ->
                  exists i, In (i, c) (combine (seq 0 (List.length clusters)) clusters)).
  { intros c Hc. apply In_nth_error in Hc as [k Hk].
    exists (0 + k)%nat. apply (nth_error_In _ k).
    now apply numbered_nth_error. }
  split.
  - intros (c0 & Hc0 & Hgt).
    destruct Hcase as [[_ Hnone]|(k & c & Hk & Hs & Hlt & Hbefore)].
    + destruct (Hin c0 Hc0) as [i Hi]. specialize (Hnone _ Hi).
      cbn [snd] in Hnone. congruence.
    + apply nth_error_numbered in Hk as Hk'.
      destruct Hk' as [Hfst Hc]. cbn [Nat.add] in Hfst. rewrite Hfst.
      exists c. split; [exact Hc|]. rewrite Hs. split; [exact Hlt|]. split.
      * intros c' Hc'. destruct (Hin c' Hc') as [i Hi].
        exact (Hall _ Hi).
      * intros j c' Hj Hc' Hnum.
        apply (Hbefore j (j, c')); [exact Hj | | exact Hnum].
        exact (numbered_nth_error clusters 0 j c' Hc').
  - intros Hnone.
    destruct Hcase as [[Heq _]|(k & c & Hk & Hs & Hlt & _)].
    + now rewrite Heq.
    + apply nth_error_numbered in Hk as [_ Hc].
      apply nth_error_In in Hc. specialize (Hnone c Hc). congruence.
Qed.

End Choice.

(** ** The assignment step on doubles and in exact arithmetic *)

Lemma R_lt_irrefl (a : R) : lt a a = false.
Proof. cbn [lt R_Number]. unfold R_lt. destruct (Rlt_dec a a); [lra | reflexivity]. Qed.

Lemma R_lt_trans (a b c : R) : lt a b = true -> lt b c = true -> lt a c = true.
Proof.
  cbn [lt R_Number]. unfold R_lt.
  destruct (Rlt_dec a b), (Rlt_dec b c), (Rlt_dec a c);
    try discriminate; try reflexivity. lra.
Qed.

Lemma R_lt_cotrans (a x f : R) :
  eq x x = true -> lt a x = false -> lt a f = true -> lt x f = true.
Proof.
  cbn [lt R_Number]. unfold R_lt. intros _.
  destruct (Rlt_dec a x), (Rlt_dec a f), (Rlt_dec x f);
    try discriminate; try reflexivity. lra.
Qed.

Definition axisComplaint {num : Type} (e : list num) : Complaint num :=
  {| id := "a"; cleaned_text := ""; embedding := e; location := "" |}.

Definition axisCluster {num : Type} (i : Z) (e : list num) : Cluster num :=
  {| cluster_id := i; complaints := []; centroid := e; title := "" |}.

(** The cluster a complaint is assigned to.  On doubles, as the engine
    computes: when some similarity exceeds the start value -1, the chosen
    cluster's similarity exceeds -1, no cluster is more similar, and
    every cluster of lower index whose similarity is a number is strictly
    less similar; when no similarity exceeds -1, the complaint goes to
    cluster 0.  In exact arithmetic, on vectors of one dimension, no
    similarity is below -1, so the chosen cluster is always one of
    maximal similarity, the first of them.  On doubles it need not be:
    a similarity can round below -1 and cluster 0 is then chosen over a
    strictly more similar cluster. *)
Theorem assignment_picks_first_maximum :
  (forall (complaint : Complaint float) (clusters : list (Cluster float)),
     clusters <> [] ->
     ((exists c, In c clusters
                 /\ PrimFloat.ltb (-1)%float (similarityTo complaint c) = true) ->
      exists best,
        nth_error clusters (bestCluster clusters complaint) = Some best
        /\ PrimFloat.ltb (-1)%float (similarityTo complaint best) = true
        /\ (forall c, In c clusters ->
              PrimFloat.ltb (similarityTo complaint best) (similarityTo complaint c)
              = false)
        /\ (forall j c, (j < bestCluster clusters complaint)%nat ->
              nth_error clusters j = Some c ->
              PrimFloat.eqb (similarityTo complaint c) (similarityTo complaint c)
              = true ->
              PrimFloat.ltb (similarityTo complaint c) (similarityTo complaint best)
              = true))
     /\ ((forall c, In c clusters ->
            PrimFloat.ltb (-1)%float (similarityTo complaint c) = false) ->
         bestCluster clusters complaint = 0%nat))
  /\ (forall (complaint : Complaint R) (clusters : list (Cluster R)),
        clusters <> [] ->
        Forall (fun c => List.length (centroid c) = List.length (embedding complaint))
          clusters ->
        exists best,
          nth_error clusters (bestCluster clusters complaint) = Some best
          /\ (forall c, In c clusters ->
                (similarityTo complaint c <= similarityTo complaint best)%R)
          /\ (forall j c, (j < bestCluster clusters complaint)%nat ->
                nth_error clusters j = Some c ->
                (similarityTo complaint c < similarityTo complaint best)%R))
  /\ (exists (complaint : Complaint float) (c0 c1 : Cluster float),
        bestCluster [c0; c1] complaint = 0%nat
        /\ PrimFloat.ltb (similarityTo complaint c0) (similarityTo complaint c1)
           = true).
Proof.
  split; [|split].
  - intros complaint clusters Hne.
    exact (bestCluster_choice float_lt_irrefl float_lt_trans float_lt_cotrans
             complaint clusters Hne).
  - intros complaint clusters Hne _.
    destruct (bestCluster_choice R_lt_irrefl R_lt_trans R_lt_cotrans
                complaint clusters Hne) as [HA HB].
    assert (Hlt : forall x y : R, lt x y = false -> (y <= x)%R).
    { intros x y. cbn [lt R_Number]. unfold R_lt.
      destruct (Rlt_dec x y); [discriminate | lra]. }
    assert (Hgt : forall x y : R, lt x y = true -> (x < y)%R).
    { intros x y. cbn [lt R_Number]. unfold R_lt.
      destruct (Rlt_dec x y); [tauto | discriminate]. }
    destruct (existsb (fun c => lt (ofZ (-1)) (similarityTo complaint c)) clusters)
      eqn:E.
    + apply existsb_exists in E.
      destruct (HA E) as (best & Hb & _ & Hmax & Hbefore).
      exists best. split; [exact Hb|]. split.
      * intros c Hc. apply Hlt. now apply Hmax.
      * intros j c Hj Hc. apply Hgt. apply (Hbefore j c Hj Hc).
        apply R_eq_true. reflexivity.
    + assert (Hnone : forall c, In c clusters ->
                        lt (ofZ (-1)) (similarityTo complaint c) = false).
      { intros c Hc. destruct (lt (ofZ (-1)) (similarityTo complaint c)) eqn:E';
          [|reflexivity].
        assert (existsb (fun c => lt (ofZ (-1)) (similarityTo complaint c)) clusters
                = true) by (apply existsb_exists; eauto).
        congruence. }
      rewrite (HB Hnone).
      destruct clusters as [|c0 rest]; [contradiction|].
      exists c0. split; [reflexivity|]. split; [|intros j c Hj; lia].
      intros c Hc. pose proof (Hlt _ _ (Hnone c Hc)) as H1.
      pose proof (cosine_in_range (embedding complaint) (centroid c0))
        as H2.
      unfold similarityTo in *. cbn [ofZ R_Number] in H1. lra.
  - exists (axisComplaint [-1; -1; -1]%float),
           (axisCluster 0 [1; 1; 1]%float), (axisCluster 1 [3; 3; 3]%float).
    split; reflexivity.
Qed.

Lemma assignment_picks_first_maximum_witness :
  exists best,
    nth_error [axisCluster 0 [0; 1]%float; axisCluster 1 [1; 0]%float]
      (bestCluster [axisCluster 0 [0; 1]%float; axisCluster 1 [1; 0]%float]
         (axisComplaint [1; 0]%float))
    = Some best
    /\ PrimFloat.ltb (-1)%float (similarityTo (axisComplaint [1; 0]%float) best)
       = true.
Proof.
  destruct assignment_picks_first_maximum as (HF & _ & _).
  destruct (HF (axisComplaint [1; 0]%float)
              [axisCluster 0 [0; 1]%float; axisCluster 1 [1; 0]%float])
    as [HA _]; [discriminate|].
  destruct HA as (best & Hb & Hgt & _).
  - exists (axisCluster 0 [0; 1]%float). split; [now left | reflexivity].
  - exists best. split; [exact Hb | exact Hgt].
Defined.

(** ** Cluster numbers *)

Section Numbers.
Context {num : Type} {N : Number num}.

Lemma pushAt_ids idx (complaint : Complaint num) :
  forall (clusters clusters' : list (Cluster num)),
    pushAt idx complaint clusters = Some clusters' ->
    map cluster_id clusters' = map cluster_id clusters.
Proof.
  induction idx as [|j IH]; intros [|c rest] clusters' H; cbn [pushAt] in H;
    try discriminate H.
  - injection H as <-. reflexivity.
  - destruct (pushAt j complaint rest) as [rest'|] eqn:E; [|discriminate H].
    injection H as <-. cbn [map]. f_equal. now apply IH.
Qed.

Lemma assignAll_ids (input : list (Complaint num)) :
  forall (clusters clusters' : list (Cluster num)),
    assignAll input clusters = Some clusters' ->
    map cluster_id clusters' = map cluster_id clusters.
Proof.
  induction input as [|x rest IH]; intros clusters clusters' H; cbn [assignAll] in H.
  - now injection H as <-.
  - destruct (pushAt _ x clusters) as [c1|] eqn:E; [|discriminate H].
    rewrite (IH _ _ H). now apply pushAt_ids in E.
Qed.

Lemma updateCentroids_ids dim (clusters : list (Cluster num)) :
  map cluster_id (snd (updateCentroids dim clusters)) = map cluster_id clusters.
Proof.
  unfold updateCentroids. cbn [snd]. rewrite !map_map. apply map_ext.
  intros c. unfold recenter. destruct (complaints c); [reflexivity|].
  now destruct (lt _ _).
Qed.

Lemma iterate_ids dim (input : list (Complaint num)) :
  forall fuel (clusters clusters' : list (Cluster num)),
    iterate fuel dim input clusters = Some clusters' ->
    map cluster_id clusters' = map cluster_id clusters.
Proof.
  induction fuel as [|fuel IH]; intros clusters clusters' H; cbn [iterate] in H.
  - now injection H as <-.
  - destruct (assignAll input (map clearMembers clusters)) as [a|] eqn:Ea;
      [|discriminate H].
    apply assignAll_ids in Ea.
    assert (Hc : map cluster_id (map clearMembers clusters) = map cluster_id clusters)
      by (rewrite map_map; now apply map_ext).
    rewrite Hc in Ea. clear Hc.
    pose proof (updateCentroids_ids dim a) as Hu.
    destruct (updateCentroids dim a) as [changed updated]. cbn [snd] in Hu.
    destruct changed.
    + rewrite (IH _ _ H). congruence.
    + injection H as <-. congruence.
Qed.

Lemma initialClusters_ids rand first (input : list (Complaint num)) k :
  map cluster_id (initialClusters rand first input k)
  = map Z.of_nat (seq 0 (Z.to_nat k)).
Proof. unfold initialClusters. rewrite map_map. reflexivity. Qed.

Lemma numbers_sorted start count :
  StronglySorted Z.lt (map Z.of_nat (seq start count)).
Proof.
  revert start. induction count as [|count IH]; intros start; [constructor|].
  cbn [seq map]. constructor; [apply IH|].
  apply Forall_forall. intros z Hz. apply in_map_iff in Hz as (i & <- & Hi).
  apply in_seq in Hi. lia.
Qed.

Lemma filter_sorted (f : Cluster num -> bool) (l : list (Cluster num)) :
  StronglySorted Z.lt (map cluster_id l) ->
  StronglySorted Z.lt (map cluster_id (filter f l)).
Proof.
  induction l as [|c l IH]; intros H; [constructor|].
  cbn [map] in H. inversion H as [|? ? Hs Hall]; subst.
  cbn [filter]. destruct (f c); [|now apply IH].
  cbn [map]. constructor; [now apply IH|].
  rewrite Forall_forall in *. intros z Hz. apply Hall.
  apply in_map_iff in Hz as (x & <- & Hx). apply filter_In in Hx as [Hx _].
  now apply in_map.
Qed.

Lemma kMeans_numbers
    (rand : nat -> nat) (input : list (Complaint num)) (k : Z)
    (clusters : list (Cluster num)) :
  kMeansClustering rand input k = Some clusters ->
  StronglySorted Z.lt (map cluster_id clusters)
  /\ Forall (fun c => (0 <= cluster_id c < Z.min k (Z.of_nat (List.length input)))%Z)
       clusters.
Proof.
  intros Hrun. unfold kMeansClustering in Hrun.
  destruct input as [|first rest].
  { injection Hrun as <-. split; constructor. }
  set (input := first :: rest) in *.
  set (k' := Z.min k (Z.of_nat (List.length input))) in *.
  destruct (iterate maxIterations (List.length (embedding first)) input
              (initialClusters rand first input k')) as [cl|] eqn:Ei;
    [|discriminate Hrun].
  injection Hrun as <-.
  apply iterate_ids in Ei. rewrite initialClusters_ids in Ei.
  split.
  - apply filter_sorted. rewrite Ei. apply numbers_sorted.
  - apply Forall_forall. intros c Hc. apply filter_In in Hc as [Hc _].
    apply (in_map cluster_id) in Hc. rewrite Ei in Hc.
    apply in_map_iff in Hc as (i & <- & Hi). apply in_seq in Hi. lia.
Qed.

(** The clusters come back in the order of their numbers, which are
    distinct and lie in [0, min(k, n)): the numbers of the seeds, those of
    emptied clusters left out. *)
Theorem kMeans_cluster_numbers
    (rand : nat -> nat) (input : list (Complaint num)) (k : Z) :
  input <> [] ->
  (1 <= k)%Z ->
  exists clusters,
    kMeansClustering rand input k = Some clusters
    /\ StronglySorted Z.lt (map cluster_id clusters)
    /\ NoDup (map cluster_id clusters)
    /\ Forall (fun c => (0 <= cluster_id c < Z.min k (Z.of_nat (List.length input)))%Z)
         clusters.
Proof.
  intros Hne Hk.
  destruct (kMeans_spec rand input k Hne Hk) as (clusters & Hrun & _).
  exists clusters. split; [exact Hrun|].
  destruct (kMeans_numbers rand input k clusters Hrun) as [Hsorted Hrange].
  split; [exact Hsorted|]. split; [|exact Hrange].
  clear - Hsorted. induction Hsorted as [|z l Hs IH Hall]; constructor; [|exact IH].
  intros Hin. rewrite Forall_forall in Hall. specialize (Hall z Hin). lia.
Qed.

End Numbers.

Lemma kMeans_cluster_numbers_witness :
  exists clusters,
    kMeansClustering (fun i => i)
      [sampleComplaint "a" [1; 0]%float; sampleComplaint "b" [0; 1]%float] 3
    = Some clusters
    /\ StronglySorted Z.lt (map cluster_id clusters)
    /\ NoDup (map cluster_id clusters)
    /\ Forall (fun c => (0 <= cluster_id c < Z.min 3 (Z.of_nat 2))%Z) clusters.
Proof.
  apply (kMeans_cluster_numbers (num := float) (fun i => i)
           [sampleComplaint "a" [1; 0]%float; sampleComplaint "b" [0; 1]%float] 3).
  - discriminate.
  - lia.
Defined.

(** ** The handler: what a run leaves in the complaints table *)

Section Settling.
Context {num : Type} {N : Number num}.
Variable generateClusterTitle : list (Complaint num) -> string.
Variable rand : nat -> nat.
Variable newId : nat -> string.
Variable logId : string.

(** A row with its status set to 'analyzed'. *)
Definition analyzed (row : ComplaintRow num) : ComplaintRow num :=
  {| c_id := c_id row; c_text := c_text row;
     c_cleaned_text := c_cleaned_text row; c_location := c_location row;
     c_status := "analyzed"; c_embedding := c_embedding row;
     c_created_at := c_created_at row |}.

Definition markAll (ids : list string) (row : ComplaintRow num) : ComplaintRow num :=
  if existsb (String.eqb (c_id row)) ids then analyzed row else row.

Definition markEach (ids : list string) (table : list (ComplaintRow num))
    : list (ComplaintRow num) :=
  fold_left (fun t cid => map (markAnalyzed cid) t) ids table.

Lemma markAll_step cid ids row :
  markAll ids (markAnalyzed cid row) = markAll (cid :: ids) row.
Proof.
  unfold markAll, markAnalyzed. cbn [existsb].
  destruct (String.eqb (c_id row) cid); cbn [orb c_id]; [|reflexivity].
  now destruct (existsb _ ids).
Qed.

Lemma markEach_markAll ids :
  forall table, markEach ids table = map (markAll ids) table.
Proof.
  unfold markEach. induction ids as [|cid ids IH]; intros table; cbn [fold_left].
  - symmetry. etransitivity; [|apply map_id]. now apply map_ext.
  - rewrite IH, map_map. apply map_ext. intros row. apply markAll_step.
Qed.

Lemma linkMember_complaints pid (ms : list (Complaint num)) :
  forall db : DB num,
    complaints_table (fold_left (linkMember pid) ms db)
    = markEach (map id ms) (complaints_table db).
Proof.
  induction ms as [|m rest IH]; intros db; [reflexivity|].
  cbn [fold_left map]. rewrite IH. reflexivity.
Qed.

Lemma storeCluster_complaints (clusters : list (Cluster num)) :
  forall (db : DB num) (created : list Created),
    complaints_table
      (fst (fold_left (storeCluster generateClusterTitle newId) clusters (db, created)))
    = markEach (map id (members clusters)) (complaints_table db).
Proof.
  induction clusters as [|c rest IH]; intros db created; [reflexivity|].
  cbn [fold_left].
  assert (Hstep : exists created',
             storeCluster generateClusterTitle newId (db, created) c
             = (fold_left (linkMember (newId (List.length created))) (complaints c)
                  (insertProblem
                     (problemOf generateClusterTitle (newId (List.length created)) c)
                     db),
                created'))
    by (eexists; reflexivity).
  destruct Hstep as [created' ->]. rewrite IH, linkMember_complaints.
  cbn [insertProblem complaints_table].
  unfold members. cbn [map List.concat]. rewrite map_app.
  unfold markEach. now rewrite fold_left_app.
Qed.

Lemma markAll_same_ids ids ids' row :
  (forall x, In x ids <-> In x ids') -> markAll ids row = markAll ids' row.
Proof.
  intros H. unfold markAll.
  assert (E : existsb (String.eqb (c_id row)) ids
              = existsb (String.eqb (c_id row)) ids').
  { apply eq_true_iff_eq. rewrite !existsb_exists.
    split; intros (x & Hx & Hq); exists x; (split; [now apply H | exact Hq]). }
  now rewrite E.
Qed.

Lemma eligible_analyzed row : eligible (analyzed row) = false.
Proof. unfold eligible. cbn [analyzed c_embedding c_status]. now destruct (c_embedding row). Qed.

(** The complaints table when the run is over. *)
Lemma run_complaints (db : DB num) :
  exists db' created,
    discoveryAgent generateClusterTitle rand newId logId db = Completed db' created
    /\ complaints_table db'
       = map (markAll (map c_id (filter eligible (complaints_table db))))
           (complaints_table db).
Proof.
  unfold discoveryAgent. cbn [insertLog complaints_table].
  set (selected := filter eligible (complaints_table db)).
  destruct selected as [|s0 srest] eqn:Hsel.
  - eexists _, _. split; [reflexivity|].
    cbn [completeLog insertLog complaints_table map].
    symmetry. etransitivity; [|apply map_id]. now apply map_ext.
  - rewrite <- Hsel.
    destruct (kMeans_spec rand (map parseComplaint selected)
                (numClusters (List.length (map parseComplaint selected))))
      as (clusters & Hrun & _ & _ & Hperm).
    { rewrite Hsel. discriminate. }
    { pose proof (numClusters_positive
                    (List.length (map parseComplaint selected))). lia. }
    rewrite Hrun.
    match goal with
    | |- context [fold_left ?f clusters (?d, [])] =>
        pose proof (storeCluster_complaints clusters d []) as Hfold;
        destruct (fold_left f clusters (d, [])) as [db1 created]
    end.
    cbn [fst] in Hfold. exists (completeLog logId db1), created.
    split; [reflexivity|]. cbn [completeLog complaints_table].
    rewrite Hfold, markEach_markAll.
    cbn [deleteLinksNeq deleteProblemsNeq insertLog complaints_table].
    apply map_ext. intros row. apply markAll_same_ids. intros x.
    assert (Hids : map c_id selected = map id (map parseComplaint selected))
      by (rewrite map_map; reflexivity).
    rewrite Hids. split; intros Hin.
    + eapply Permutation_in; [apply Permutation_map; exact Hperm | exact Hin].
    + eapply Permutation_in;
        [apply Permutation_map; symmetry; exact Hperm | exact Hin].
Qed.

Lemma NoDup_map_injective {A B} (f : A -> B) (l : list A) :
  NoDup (map f l) -> forall x y, In x l -> In y l -> f x = f y -> x = y.
Proof.
  induction l as [|a l IH]; intros Hnd x y Hx Hy Hxy; [contradiction|].
  cbn [map] in Hnd. inversion Hnd as [|? ? Hnot Hrest]; subst.
  destruct Hx as [->|Hx], Hy as [->|Hy].
  - reflexivity.
  - exfalso. apply Hnot. rewrite Hxy. now apply in_map.
  - exfalso. apply Hnot. rewrite <- Hxy. now apply in_map.
  - now apply IH.
Qed.

(** When the identifiers of the complaints table are distinct (it is the
    primary key), a run sets the status of exactly the rows it selected
    (status processing, vector present) to 'analyzed' and leaves every
    other row, and every other field, as it was; it always completes. *)
Theorem run_marks_selected_rows (db : DB num) :
  NoDup (map c_id (complaints_table db)) ->
  exists db' created,
    discoveryAgent generateClusterTitle rand newId logId db = Completed db' created
    /\ complaints_table db'
       = map (fun row => if eligible row then analyzed row else row)
           (complaints_table db).
Proof.
  intros Hnd. destruct (run_complaints db) as (db' & created & Hrun & Ht).
  exists db', created. split; [exact Hrun|]. rewrite Ht.
  apply map_ext_in. intros row Hrow. unfold markAll.
  assert (E : existsb (String.eqb (c_id row))
                (map c_id (filter eligible (complaints_table db)))
              = eligible row).
  { apply eq_true_iff_eq. rewrite existsb_exists. split.
    - intros (x & Hx & Hq). apply in_map_iff in Hx as (r & <- & Hr).
      apply filter_In in Hr as [Hr He]. apply String.eqb_eq in Hq.
      now rewrite (NoDup_map_injective c_id _ Hnd row r Hrow Hr Hq).
    - intros He. exists (c_id row). split; [|apply String.eqb_refl].
      apply in_map, filter_In. now split. }
  now rewrite E.
Qed.

(** A run leaves no complaint to cluster: a second run right after it,
    whatever its random draws, completes with no cluster and leaves the
    complaints, the problems and the links as the first run wrote them. *)
Theorem second_run_is_idle (db : DB num)
    (generateClusterTitle' : list (Complaint num) -> string)
    (rand' : nat -> nat) (newId' : nat -> string) (logId' : string) :
  exists db' created,
    discoveryAgent generateClusterTitle rand newId logId db = Completed db' created
    /\ filter eligible (complaints_table db') = []
    /\ exists db'',
         discoveryAgent generateClusterTitle' rand' newId' logId' db'
         = Completed db'' []
         /\ complaints_table db'' = complaints_table db'
         /\ problems_table db'' = problems_table db'
         /\ complaint_problems_table db'' = complaint_problems_table db'.
Proof.
  destruct (run_complaints db) as (db' & created & Hrun & Ht).
  exists db', created. split; [exact Hrun|].
  assert (Hnone : filter eligible (complaints_table db') = []).
  { rewrite Ht. apply filter_false. intros r Hr.
    apply in_map_iff in Hr as (row & <- & Hrow). unfold markAll.
    destruct (existsb _ _) eqn:E; [apply eligible_analyzed|].
    destruct (eligible row) eqn:He; [|reflexivity].
    exfalso. assert (Hex : existsb (String.eqb (c_id row))
                             (map c_id (filter eligible (complaints_table db)))
                           = true).
    { apply existsb_exists. exists (c_id row). split; [|apply String.eqb_refl].
      apply in_map, filter_In. now split. }
    congruence. }
  split; [exact Hnone|].
  unfold discoveryAgent. cbn [insertLog complaints_table]. rewrite Hnone.
  eexists. split; [reflexivity|]. repeat split.
Qed.

(** ** The handler: the problems and links of a run *)

Definition createdOf (p : ProblemRow num) : Created :=
  {| created_id := p_id p; created_title := p_title p;
     created_count := p_complaint_count p |}.

Lemma storeCluster_created (clusters : list (Cluster num)) :
  forall (db : DB num) (created : list Created),
    snd (fold_left (storeCluster generateClusterTitle newId) clusters (db, created))
    = (created
       ++ map createdOf
            (insertedProblems generateClusterTitle newId (List.length created)
               clusters))%list.
Proof.
  induction clusters as [|c rest IH]; intros db created.
  - cbn [fold_left snd insertedProblems map]. now rewrite app_nil_r.
  - cbn [fold_left insertedProblems map].
    set (pid := newId (List.length created)).
    assert (Hstep : storeCluster generateClusterTitle newId (db, created) c
              = (fold_left (linkMember pid) (complaints c)
                   (insertProblem (problemOf generateClusterTitle pid c) db),
                 (created ++ [createdOf (problemOf generateClusterTitle pid c)])%list))
      by reflexivity.
    rewrite Hstep, IH, length_app. cbn [List.length].
    rewrite Nat.add_1_r, <- app_assoc. reflexivity.
Qed.

Lemma insertedProblems_shape (clusters : list (Cluster num)) :
  forall start,
    map p_complaint_count (insertedProblems generateClusterTitle newId start clusters)
    = map (fun c => List.length (complaints c)) clusters
    /\ map p_cluster_id (insertedProblems generateClusterTitle newId start clusters)
       = map cluster_id clusters
    /\ Forall (fun p => p_priority_score p = zero /\ p_trend p = "stable"
                        /\ p_keywords p = [])
         (insertedProblems generateClusterTitle newId start clusters).
Proof.
  induction clusters as [|c rest IH]; intros start; cbn [insertedProblems map].
  - repeat split. constructor.
  - destruct (IH (S start)) as (H1 & H2 & H3).
    rewrite H1, H2. repeat split. constructor; [|exact H3]. repeat split.
Qed.

Lemma insertedLinks_shape (clusters : list (Cluster num)) :
  forall start,
    map l_complaint_id (insertedLinks newId start clusters)
    = map id (members clusters)
    /\ Forall (fun l =>
                 In (l_problem_id l)
                    (map p_id (insertedProblems generateClusterTitle newId start
                                 clusters))
                 /\ l_confidence l = dec 8 10)
         (insertedLinks newId start clusters).
Proof.
  induction clusters as [|c rest IH]; intros start;
    cbn [insertedLinks insertedProblems map].
  - split; [reflexivity | constructor].
  - destruct (IH (S start)) as [H1 H2]. split.
    + unfold members. cbn [map List.concat]. rewrite !map_app, H1, map_map.
      reflexivity.
    + apply Forall_app. split.
      * apply Forall_forall. intros l Hl. apply in_map_iff in Hl as (m & <- & _).
        split; [now left | reflexivity].
      * eapply Forall_impl; [|exact H2]. intros l [Hin Hc].
        split; [now right | exact Hc].
Qed.

Lemma list_sum_lengths {A} (ls : list (list A)) :
  list_sum (map (@List.length A) ls) = List.length (List.concat ls).
Proof.
  induction ls as [|l ls IH]; [reflexivity|].
  cbn [map List.concat]. rewrite length_app, <- IH. reflexivity.
Qed.

(** The tables when a run that selected at least one complaint is over,
    in terms of the clusters of its k-means result. *)
Lemma run_tables (db : DB num) :
  Forall (fun p => p_id p <> nilUUID) (problems_table db) ->
  Forall (fun l => l_complaint_id l <> nilUUID) (complaint_problems_table db) ->
  let selected := filter eligible (complaints_table db) in
  selected <> [] ->
  exists clusters db' created,
    kMeansClustering rand (map parseComplaint selected)
      (numClusters (List.length selected)) = Some clusters
    /\ (Z.of_nat (List.length clusters) <= numClusters (List.length selected))%Z
    /\ Forall (fun c => complaints c <> []) clusters
    /\ Permutation (members clusters) (map parseComplaint selected)
    /\ discoveryAgent generateClusterTitle rand newId logId db = Completed db' created
    /\ problems_table db' = insertedProblems generateClusterTitle newId 0 clusters
    /\ complaint_problems_table db' = insertedLinks newId 0 clusters
    /\ created = map createdOf (problems_table db').
Proof.
  intros Hp Hl selected Hne. unfold discoveryAgent.
  cbn [insertLog complaints_table]. fold selected.
  assert (Hne' : map parseComplaint selected <> []).
  { destruct selected; [contradiction | discriminate]. }
  assert (Hk : (1 <= numClusters (List.length (map parseComplaint selected)))%Z).
  { pose proof (numClusters_positive
                  (List.length (map parseComplaint selected))). lia. }
  destruct (kMeans_spec rand _ _ Hne' Hk) as (clusters & Hrun & Hlen & Hall & Hperm).
  rewrite length_map in Hrun, Hlen.
  destruct selected as [|s0 srest] eqn:Hsel; [contradiction|].
  rewrite <- Hsel in *. rewrite length_map, Hrun.
  match goal with
  | |- context [fold_left ?f clusters (?d, [])] =>
      pose proof (storeCluster_fold generateClusterTitle newId clusters d [])
        as Hfold;
      pose proof (storeCluster_created clusters d []) as Hcr;
      destruct (fold_left f clusters (d, [])) as [db1 created]
  end.
  cbv zeta in Hfold. cbn [fst snd] in Hfold, Hcr.
  destruct Hfold as (H1 & H2 & _).
  cbn [deleteLinksNeq deleteProblemsNeq insertLog problems_table
       complaint_problems_table List.length] in H1, H2, Hcr.
  rewrite filter_false in H1.
  2:{ intros p Hin. rewrite Forall_forall in Hp.
      apply String.eqb_neq. now apply Hp. }
  rewrite filter_false in H2.
  2:{ intros l Hin. apply filter_In in Hin as [Hin _].
      rewrite Forall_forall in Hl. apply String.eqb_neq. now apply Hl. }
  cbn [app] in H1, H2, Hcr.
  exists clusters, (completeLog logId db1), created.
  cbn [completeLog problems_table complaint_problems_table].
  rewrite H1, H2, Hcr. repeat (split; [assumption || reflexivity|]). reflexivity.
Qed.

(** [kMeansClustering] caps [k] at the number of complaints: called with
    [k] it does what it does called with [min(k, n)]. *)
Lemma kMeans_caps_k (input : list (Complaint num)) (k : Z) :
  kMeansClustering rand input k
  = kMeansClustering rand input (Z.min k (Z.of_nat (List.length input))).
Proof.
  unfold kMeansClustering. destruct input as [|first rest]; [reflexivity|].
  now rewrite <- Z.min_assoc, Z.min_id.
Qed.


(** A run that selects n >= 1 complaints leaves between 1 and
    min(max(3, ceil(n/3)), 8) problems, stored in ascending cluster
    number, each with at least one complaint, score 0, trend 'stable' and
    no keyword; their complaint counts add up to n; the links carry each
    selected complaint once, each to a problem of the table; and the
    response lists the problems as stored.  Stored rows are assumed to
    carry generated identifiers, never the nil UUID. *)
Theorem run_problems_and_links (db : DB num) :
  Forall (fun p => p_id p <> nilUUID) (problems_table db) ->
  Forall (fun l => l_complaint_id l <> nilUUID) (complaint_problems_table db) ->
  let selected := filter eligible (complaints_table db) in
  selected <> [] ->
  exists db' created,
    discoveryAgent generateClusterTitle rand newId logId db = Completed db' created
    /\ (1 <= Z.of_nat (List.length (problems_table db'))
        <= numClusters (List.length selected))%Z
    /\ StronglySorted Z.lt (map p_cluster_id (problems_table db'))
    /\ Forall (fun p => (1 <= p_complaint_count p)%nat
                        /\ p_priority_score p = zero /\ p_trend p = "stable"
                        /\ p_keywords p = [])
         (problems_table db')
    /\ list_sum (map p_complaint_count (problems_table db')) = List.length selected
    /\ Permutation (map l_complaint_id (complaint_problems_table db'))
         (map c_id selected)
    /\ Forall (fun l => In (l_problem_id l) (map p_id (problems_table db'))
                        /\ l_confidence l = dec 8 10)
         (complaint_problems_table db')
    /\ created = map createdOf (problems_table db').
Proof.
  intros Hp Hl selected Hne.
  destruct (run_tables db Hp Hl Hne)
    as (clusters & db' & created & Hrun & Hlen & Hall & Hperm & Hdone
        & H1 & H2 & Hcr).
  fold selected in Hrun, Hlen, Hperm.
  exists db', created. split; [exact Hdone|].
  rewrite Hcr, H1, H2.
  destruct (kMeans_numbers rand _ _ clusters Hrun) as [Hsorted _].
  destruct (insertedProblems_shape clusters 0) as (S1 & S2 & S3).
  destruct (insertedLinks_shape clusters 0) as (L1 & L2).
  assert (Hcount : List.length (insertedProblems generateClusterTitle newId 0 clusters)
                   = List.length clusters).
  { rewrite <- (length_map p_complaint_count), S1. apply length_map. }
  split.
  { rewrite Hcount. split; [|exact Hlen].
    destruct clusters as [|c0 crest]; [|cbn [List.length]; lia].
    apply Permutation_nil in Hperm.
    destruct selected; [contradiction | discriminate Hperm]. }
  split; [now rewrite S2|].
  split.
  { apply Forall_forall. intros p Hin. rewrite Forall_forall in S3.
    split; [|now apply S3].
    apply (in_map p_complaint_count) in Hin. rewrite S1 in Hin.
    apply in_map_iff in Hin as (c & <- & Hc).
    rewrite Forall_forall in Hall. specialize (Hall c Hc).
    destruct (complaints c); [contradiction | cbn [List.length]; lia]. }
  split.
  { rewrite S1.
    replace (map (fun c => List.length (complaints c)) clusters)
      with (map (@List.length (Complaint num)) (map complaints clusters))
      by (now rewrite map_map).
    rewrite list_sum_lengths. fold (members clusters).
    rewrite (Permutation_length Hperm). apply length_map. }
  split.
  { rewrite L1.
    assert (Hids : map c_id selected = map id (map parseComplaint selected))
      by (rewrite map_map; reflexivity).
    rewrite Hids. now apply Permutation_map. }
  split; [exact L2 | reflexivity].
Qed.

End Settling.


Lemma run_marks_selected_rows_witness :
  exists db' created,
    discoveryAgent fixedTitle firstDraw numberedId "log-1" pendingStore
    = Completed db' created
    /\ complaints_table db'
       = map (fun row => if eligible row then analyzed row else row)
           (complaints_table pendingStore).
Proof.
  apply (run_marks_selected_rows fixedTitle firstDraw numberedId "log-1"
           pendingStore).
  repeat constructor; cbn [In]; intros H; repeat destruct H as [H|H];
    try discriminate H; exact H.
Defined.

Lemma run_problems_and_links_witness :
  exists db' created,
    discoveryAgent fixedTitle firstDraw numberedId "log-1" pendingStore
    = Completed db' created
    /\ (1 <= Z.of_nat (List.length (problems_table db'))
        <= numClusters
             (List.length (filter eligible (complaints_table pendingStore))))%Z
    /\ StronglySorted Z.lt (map p_cluster_id (problems_table db'))
    /\ Forall (fun p => (1 <= p_complaint_count p)%nat
                        /\ p_priority_score p = zero /\ p_trend p = "stable"
                        /\ p_keywords p = [])
         (problems_table db')
    /\ list_sum (map p_complaint_count (problems_table db'))
       = List.length (filter eligible (complaints_table pendingStore))
    /\ Permutation (map l_complaint_id (complaint_problems_table db'))
         (map c_id (filter eligible (complaints_table pendingStore)))
    /\ Forall (fun l => In (l_problem_id l) (map p_id (problems_table db'))
                        /\ l_confidence l = dec 8 10)
         (complaint_problems_table db')
    /\ created = map createdOf (problems_table db').
Proof.
  apply (run_problems_and_links fixedTitle firstDraw numberedId "log-1"
           pendingStore).
  - repeat constructor. discriminate.
  - repeat constructor. discriminate.
  - discriminate.
Defined.

End DiscoveryShape.

(* ================================================================== *)
(** * Further properties of the priority agent                         *)
(* ================================================================== *)

Module PriorityShape.
Import JSString JSNumber JSObject Store Priority PriorityFacts.

(** ** The trend does not depend on the order of the rows *)

Section RowOrder.
Context {num : Type} {N : Number num}.

#[local] Abbreviation Row := (ComplaintRow num).

Definition timesOf (l : list Row) : list Z := map c_created_at l.

(** The sort of the code, on the creation times alone. *)
Fixpoint insertTime (t : Z) (sorted : list Z) : list Z :=
  match sorted with
  | [] => [t]
  | d :: rest => if (t <=? d)%Z then t :: d :: rest else d :: insertTime t rest
  end.

Definition sortTimes (l : list Z) : list Z := fold_right insertTime [] l.

Lemma timesOf_insert (c : Row) sorted :
  timesOf (insertByTime c sorted) = insertTime (c_created_at c) (timesOf sorted).
Proof.
  induction sorted as [|d rest IH]; [reflexivity|].
  cbn [insertByTime timesOf map insertTime].
  destruct (c_created_at c <=? c_created_at d)%Z; [reflexivity|].
  cbn [map]. f_equal. exact IH.
Qed.

Lemma timesOf_sort (l : list Row) :
  timesOf (sortByTime l) = sortTimes (timesOf l).
Proof.
  induction l as [|c rest IH]; [reflexivity|].
  change (sortByTime (c :: rest)) with (insertByTime c (sortByTime rest)).
  rewrite timesOf_insert, IH. reflexivity.
Qed.

Lemma insertTime_perm t sorted : Permutation (insertTime t sorted) (t :: sorted).
Proof.
  induction sorted as [|d rest IH]; [reflexivity|]. cbn [insertTime].
  destruct (t <=? d)%Z; [reflexivity|].
  rewrite IH. apply perm_swap.
Qed.

Lemma insertTime_sorted t sorted :
  StronglySorted Z.le sorted -> StronglySorted Z.le (insertTime t sorted).
Proof.
  induction 1 as [|d rest Hs IH Hall]; cbn [insertTime].
  - repeat constructor.
  - destruct (t <=? d)%Z eqn:E.
    + apply Z.leb_le in E. constructor; [now constructor|].
      constructor; [exact E|]. eapply Forall_impl; [|exact Hall].
      intros z Hz. cbv beta in *. lia.
    + apply Z.leb_gt in E. constructor; [exact IH|].
      apply Forall_forall. intros z Hz.
      apply (Permutation_in _ (insertTime_perm t rest)) in Hz.
      destruct Hz as [<-|Hz]; [lia|].
      rewrite Forall_forall in Hall. now apply Hall.
Qed.

Lemma sortTimes_perm l : Permutation (sortTimes l) l.
Proof.
  induction l as [|t rest IH]; [reflexivity|].
  cbn [sortTimes fold_right]. rewrite insertTime_perm. now constructor.
Qed.

Lemma sortTimes_sorted l : StronglySorted Z.le (sortTimes l).
Proof.
  induction l as [|t rest IH]; [constructor|]. now apply insertTime_sorted.
Qed.

Lemma sorted_unique (l1 : list Z) :
  forall l2,
    StronglySorted Z.le l1 -> StronglySorted Z.le l2 -> Permutation l1 l2 ->
    l1 = l2.
Proof.
  induction l1 as [|a l1 IH]; intros l2 H1 H2 Hp.
  - now apply Permutation_nil in Hp.
  - destruct l2 as [|b l2]; [symmetry in Hp; now apply Permutation_nil in Hp|].
    inversion H1 as [|? ? Hs1 Ha]; subst. inversion H2 as [|? ? Hs2 Hb]; subst.
    rewrite Forall_forall in Ha, Hb.
    assert (a = b).
    { assert (Hab : In a (b :: l2)) by (eapply Permutation_in; [exact Hp | now left]).
      assert (Hba : In b (a :: l1))
        by (eapply Permutation_in; [symmetry; exact Hp | now left]).
      destruct Hab as [->|Hab]; [reflexivity|].
      destruct Hba as [->|Hba]; [reflexivity|].
      specialize (Ha _ Hba). specialize (Hb _ Hab). lia. }
    subst b. f_equal. apply IH; try assumption.
    now apply Permutation_cons_inv in Hp.
Qed.

Lemma sortTimes_order l l' : Permutation l l' -> sortTimes l = sortTimes l'.
Proof.
  intros Hp. apply sorted_unique; try apply sortTimes_sorted.
  rewrite !sortTimes_perm. exact Hp.
Qed.

Lemma averageTime_times (h h' : list Row) :
  timesOf h = timesOf h' -> averageTime h = averageTime h'.
Proof.
  intros Ht. unfold averageTime.
  assert (G : forall (l : list Row) acc,
             fold_left (fun sum c => add sum (createdAt c)) l acc
             = fold_left (fun sum t => add sum (ofZ t)) (timesOf l) acc).
  { induction l as [|c rest IH]; intros acc; [reflexivity|].
    cbn [fold_left timesOf map]. apply IH. }
  rewrite !G, Ht. f_equal. f_equal.
  rewrite <- (length_map c_created_at h), <- (length_map c_created_at h').
  fold (timesOf h) (timesOf h'). now rewrite Ht.
Qed.

(** The rows of a problem come back from the store in no particular
    order; the trend is the same for every order, on every number
    structure: it is computed from the sorted creation times. *)
Theorem trend_ignores_row_order (now : Z) (l l' : list Row) :
  Permutation l l' -> determineTrend now l = determineTrend now l'.
Proof.
  intros Hp. pose proof (Permutation_length Hp) as Hlen.
  destruct (Nat.lt_ge_cases (List.length l) 2) as [Hs|Hs].
  - rewrite !determineTrend_short by lia. reflexivity.
  - rewrite !determineTrend_cases by lia.
    assert (Ht : timesOf (sortByTime l) = timesOf (sortByTime l')).
    { rewrite !timesOf_sort. apply sortTimes_order.
      unfold timesOf. now apply Permutation_map. }
    assert (Hg : growthRate l = growthRate l').
    { unfold growthRate. destruct (halves_sizes l) as [-> ->].
      destruct (halves_sizes l') as [-> ->]. now rewrite Hlen. }
    assert (Hd : timeDiff l = timeDiff l').
    { unfold timeDiff, firstHalfOf, secondHalfOf. rewrite <- Hlen. f_equal.
      - apply averageTime_times. unfold timesOf in *.
        now rewrite <- !skipn_map, Ht.
      - apply averageTime_times. unfold timesOf in *.
        now rewrite <- !firstn_map, Ht. }
    assert (He : expectedDiff now l = expectedDiff now l').
    { unfold expectedDiff. rewrite <- !sortByTime_head.
      assert (Hh : forall s : list Row, headTime s = hd 0%Z (timesOf s))
        by (intros [|c s]; reflexivity).
      now rewrite !Hh, Ht. }
    now rewrite Hg, Hd, He.
Qed.

End RowOrder.

Lemma trend_ignores_row_order_witness :
  determineTrend (num := float) 9000
    [rowAt "a" "ward 5" 1000; rowAt "b" "ward 5" 5000; rowAt "c" "ward 7" 5200]
  = determineTrend (num := float) 9000
      [rowAt "c" "ward 7" 5200; rowAt "a" "ward 5" 1000; rowAt "b" "ward 5" 5000].
Proof.
  apply (trend_ignores_row_order (num := float) 9000
           [rowAt "a" "ward 5" 1000; rowAt "b" "ward 5" 5000; rowAt "c" "ward 7" 5200]
           [rowAt "c" "ward 7" 5200; rowAt "a" "ward 5" 1000; rowAt "b" "ward 5" 5000]).
  apply Permutation_sym, (Permutation_cons_app [_; _] []). reflexivity.
Defined.

(** ** Which sizes can rise *)

Section RisingReal.
Local Open Scope R_scope.

Lemma growth_exceeds_real (l : list (ComplaintRow R)) :
  (2 <= List.length l)%nat ->
  (13 / 10 < growthRatio l <-> In (List.length l) [3; 5; 7]%nat).
Proof.
  intros H. unfold growthRatio. destruct (halves_sizes l) as [-> ->].
  set (n := List.length l) in *.
  pose proof (Nat.div_mod_eq n 2) as Hd.
  pose proof (Nat.mod_upper_bound n 2 ltac:(lia)) as Hm.
  assert (Hpos : 0 < INR (n / 2)) by (apply lt_0_INR; lia).
  assert (Hiff : 13 / 10 < INR (n - n / 2) / INR (n / 2)
                 <-> (13 * Z.of_nat (n / 2) < 10 * Z.of_nat (n - n / 2))%Z).
  { rewrite !INR_IZR_INZ in *.
    set (a := IZR (Z.of_nat (n - n / 2))). set (b := IZR (Z.of_nat (n / 2))) in *.
    assert (Hq : a / b * b = a) by (field; lra).
    split.
    - intros Hlt. apply lt_IZR. rewrite !mult_IZR. fold a b.
      apply (Rmult_lt_compat_r b) in Hlt; [|exact Hpos]. lra.
    - intros Hlt. apply IZR_lt in Hlt. rewrite !mult_IZR in Hlt. fold a b in Hlt.
      apply Rmult_lt_reg_r with b; [exact Hpos|]. lra. }
  rewrite Hiff. cbn [In]. split; [lia|].
  intros [<-|[<-|[<-|[]]]]; cbn; lia.
Qed.

End RisingReal.

Section RisingBinary64.

Definition risingTestsAt (n : Z) : bool :=
  Bool.eqb (PrimFloat.ltb (dec 13 10) (growthOfSize n))
    ((n =? 3)%Z || (n =? 5)%Z || (n =? 7)%Z).

Fixpoint risingTestsFrom (count : nat) (n : Z) : bool :=
  match count with
  | O => true
  | S count' => risingTestsAt n && risingTestsFrom count' (n + 1)
  end.

Lemma risingTestsFrom_spec count :
  forall n k,
    risingTestsFrom count n = true ->
    (n <= k < n + Z.of_nat count)%Z -> risingTestsAt k = true.
Proof.
  induction count as [|count IH]; intros n k H Hk; [lia|].
  cbn [risingTestsFrom] in H. apply andb_true_iff in H as [Hn Hrest].
  destruct (Z.eq_dec k n) as [->|Hne]; [exact Hn|].
  apply (IH (n + 1)%Z k Hrest). lia.
Qed.

(** Evaluated for every size from 2 to 10000. *)
Lemma risingTests_table : risingTestsFrom (Z.to_nat (sizeBound - 1)) 2 = true.
Proof. vm_compute. reflexivity. Qed.

Lemma growth_exceeds_binary64 (l : list (ComplaintRow float)) :
  (2 <= Z.of_nat (List.length l) <= sizeBound)%Z ->
  (gt (growthRate l) (dec 13 10) = true <-> In (List.length l) [3; 5; 7]%nat).
Proof.
  intros H. rewrite growthRate_of_size.
  pose proof (risingTestsFrom_spec _ 2 (Z.of_nat (List.length l))
                risingTests_table) as Ht.
  assert (Hk : (2 <= Z.of_nat (List.length l)
                < 2 + Z.of_nat (Z.to_nat (sizeBound - 1)))%Z)
    by (unfold sizeBound in *; lia).
  specialize (Ht Hk). unfold risingTestsAt in Ht. apply Bool.eqb_prop in Ht.
  unfold gt. cbn [lt float_Number]. rewrite Ht. cbn [In].
  rewrite !orb_true_iff, !Z.eqb_eq. lia.
Qed.

End RisingBinary64.

(** Only a problem with 3, 5 or 7 complaints can be "rising": it is
    exactly when the gap test succeeds; with any other number of
    complaints the trend is "stable".  In exact arithmetic for every
    list, and on binary64 for up to 10000 complaints. *)
Theorem trend_rising_sizes :
  (forall (now : Z) (l : list (ComplaintRow R)),
     (determineTrend now l = "rising"
      <-> In (List.length l) [3; 5; 7]%nat
          /\ (actualGap l < 7 / 10 * expectedGap now l)%R)
     /\ (~ In (List.length l) [3; 5; 7]%nat -> determineTrend now l = "stable"))
  /\ (forall (now : Z) (l : list (ComplaintRow float)),
        (Z.of_nat (List.length l) <= sizeBound)%Z ->
        (determineTrend now l = "rising"
         <-> In (List.length l) [3; 5; 7]%nat
             /\ lt (timeDiff l) (mul (expectedDiff now l) (dec 7 10)) = true)
        /\ (~ In (List.length l) [3; 5; 7]%nat -> determineTrend now l = "stable")).
Proof.
  split.
  - intros now l.
    destruct (Nat.lt_ge_cases (List.length l) 2) as [Hs|Hs].
    + rewrite determineTrend_short by exact Hs. split; [|reflexivity].
      split; [discriminate|]. cbn [In]. lia.
    + rewrite (determineTrend_cases now l Hs), (growth_test_real l Hs).
      pose proof (growth_exceeds_real l Hs) as Hg.
      rewrite <- growthRate_ratio in Hg.
      assert (Hgt : gt (growthRate l) (dec 13 10) = true
                    <-> In (List.length l) [3; 5; 7]%nat).
      { rewrite <- Hg. unfold gt, dec. cbn [lt div ofZ R_Number].
        apply R_lt_iff. }
      rewrite <- timeDiff_gap, <- expectedDiff_gap, <- R_lt_iff.
      change (R_lt (timeDiff l) (mul (expectedDiff now l) (dec 7 10)))
        with (lt (timeDiff l) (mul (expectedDiff now l) (dec 7 10))).
      destruct (gt (growthRate l) (dec 13 10));
        destruct (lt (timeDiff l) (mul (expectedDiff now l) (dec 7 10)));
        cbn [andb]; split; try tauto;
        try (split; [discriminate | intros [? ?]; try discriminate;
                                    exfalso; apply Hgt in H; discriminate]);
        try (intros Hn; exfalso; apply Hn, Hgt; reflexivity);
        try (split; [intros _; split; [now apply Hgt | reflexivity]
                    | reflexivity]).
  - intros now l Hb.
    destruct (Nat.lt_ge_cases (List.length l) 2) as [Hs|Hs].
    + rewrite determineTrend_short by exact Hs. split; [|reflexivity].
      split; [discriminate|]. cbn [In]. lia.
    + assert (Hsz : (2 <= Z.of_nat (List.length l) <= sizeBound)%Z) by lia.
      rewrite (determineTrend_cases now l Hs).
      destruct (growth_test_binary64 l Hsz) as [-> _].
      pose proof (growth_exceeds_binary64 l Hsz) as Hgt.
      destruct (gt (growthRate l) (dec 13 10));
        destruct (lt (timeDiff l) (mul (expectedDiff now l) (dec 7 10)));
        cbn [andb]; split; try tauto;
        try (split; [discriminate | intros [? ?]; try discriminate;
                                    exfalso; apply Hgt in H; discriminate]);
        try (intros Hn; exfalso; apply Hn, Hgt; reflexivity);
        try (split; [intros _; split; [now apply Hgt | reflexivity]
                    | reflexivity]).
Qed.

Lemma trend_rising_sizes_witness :
  determineTrend (num := R) 9000 [rowAt "a" "ward 5" 1000; rowAt "b" "ward 5" 5000]
  = "stable"
  /\ determineTrend (num := float) 9000
       [rowAt "a" "ward 5" 1000; rowAt "b" "ward 5" 5000]
     = "stable".
Proof.
  destruct trend_rising_sizes as [HR HF]. split.
  - apply (HR 9000%Z [rowAt "a" "ward 5" 1000%Z; rowAt "b" "ward 5" 5000%Z]).
    cbn [List.length In]. lia.
  - apply (HF 9000%Z [rowAt "a" "ward 5" 1000%Z; rowAt "b" "ward 5" 5000%Z]).
    + unfold sizeBound. cbn [List.length]. lia.
    + cbn [List.length In]. lia.
Defined.

(** ** The tally of locations *)

Section Tally.
Context {num : Type}.

#[local] Abbreviation Row := (ComplaintRow num).

(** How many complaints of the list carry the location. *)
Definition tally (loc : string) (l : list Row) : Z :=
  Z.of_nat (List.length (filter (fun c => String.eqb (c_location c) loc) l)).

Lemma own_store_same obj key v : own (store obj key v) key = Some v.
Proof.
  induction obj as [|[k w] rest IH]; cbn [store own].
  - now rewrite String.eqb_refl.
  - destruct (String.eqb k key) eqn:E; cbn [own]; rewrite E; [reflexivity | exact IH].
Qed.

Lemma own_store_other obj key v key' :
  key <> key' -> own (store obj key v) key' = own obj key'.
Proof.
  intros Hne. induction obj as [|[k w] rest IH]; cbn [store own].
  - apply String.eqb_neq in Hne. now rewrite Hne.
  - destruct (String.eqb k key) eqn:E; cbn [own].
    + apply String.eqb_eq in E. subst k.
      apply String.eqb_neq in Hne. now rewrite Hne.
    + now rewrite IH.
Qed.

Lemma own_bump_other obj key key' :
  key <> key' -> own (bump obj key) key' = own obj key'.
Proof.
  intros Hne. unfold bump.
  destruct (own obj key) as [[n|]|]; try now apply own_store_other.
  destruct (JSString.has inheritedNames key); [|now apply own_store_other].
  destruct (String.eqb key "__proto__"); [reflexivity | now apply own_store_other].
Qed.

Definition cellOf (count : Z) : option value :=
  if (count =? 0)%Z then None else Some (Count count).

Lemma own_bump_same obj key count :
  JSString.has inheritedNames key = false -> (0 <= count)%Z ->
  own obj key = cellOf count -> own (bump obj key) key = cellOf (count + 1).
Proof.
  intros Hk Hc Hown. unfold bump, cellOf in *.
  destruct (Z.eqb_spec count 0) as [->|Hne].
  - rewrite Hown, Hk, own_store_same. reflexivity.
  - rewrite Hown. destruct (Z.eqb_spec count 0) as [|_]; [contradiction|].
    rewrite own_store_same. destruct (Z.eqb_spec (count + 1) 0); [lia | reflexivity].
Qed.

(** For a location name that is no inherited property name, the map holds
    the number of complaints at that location, and no cell when there is
    none; the empty location is never a key. *)
Theorem locationMap_tallies (l : list Row) (loc : string) :
  JSString.has inheritedNames loc = false ->
  loc <> "" ->
  own (locationMap l) loc = cellOf (tally loc l)
  /\ own (locationMap l) "" = None.
Proof.
  intros Hk Hne. unfold locationMap.
  assert (G : forall (obj : object) count,
             (0 <= count)%Z -> own obj loc = cellOf count -> own obj "" = None ->
             own (fold_left
                    (fun obj (complaint : Row) =>
                       if (0 <? String.length (c_location complaint))%nat
                       then bump obj (c_location complaint) else obj) l obj) loc
             = cellOf (count + tally loc l)
             /\ own (fold_left
                       (fun obj (complaint : Row) =>
                          if (0 <? String.length (c_location complaint))%nat
                          then bump obj (c_location complaint) else obj) l obj) ""
                = None).
  { induction l as [|c rest IH]; intros obj count Hc Hown Hempty.
    - cbn [fold_left]. unfold tally. cbn [filter List.length].
      rewrite Z.add_0_r. now split.
    - cbn [fold_left]. unfold tally. cbn [filter].
      destruct (String.eqb (c_location c) loc) eqn:E.
      + apply String.eqb_eq in E. rewrite E.
        assert (Hlen : (0 <? String.length loc)%nat = true)
          by (destruct loc; [contradiction | reflexivity]).
        rewrite Hlen.
        destruct (IH (bump obj loc) (count + 1)%Z) as [H1 H2];
          [lia | now apply own_bump_same | |].
        { rewrite own_bump_other; [exact Hempty | exact Hne]. }
        split; [|exact H2]. rewrite H1. unfold tally. cbn [List.length].
        f_equal. lia.
      + apply String.eqb_neq in E.
        destruct (0 <? String.length (c_location c))%nat eqn:Hlen.
        * destruct (IH (bump obj (c_location c)) count) as [H1 H2];
            [exact Hc | now rewrite own_bump_other | |].
          { rewrite own_bump_other; [exact Hempty|].
            intros Heq. rewrite Heq in Hlen. discriminate Hlen. }
          split; [exact H1 | exact H2].
        * now apply IH. }
  destruct (G [] 0%Z) as [H1 H2]; [lia | reflexivity | reflexivity |].
  split; [exact H1 | exact H2].
Qed.

End Tally.

Lemma locationMap_tallies_witness :
  own (locationMap (threeRows (num := float))) "ward 5"
  = cellOf (tally "ward 5" (threeRows (num := float)))
  /\ own (locationMap (threeRows (num := float))) "" = None.
Proof.
  apply (locationMap_tallies (threeRows (num := float)) "ward 5").
  - reflexivity.
  - discriminate.
Defined.

(** ** The ranges of the factors and of the score, in exact arithmetic *)

Section Ranges.
Local Open Scope R_scope.

#[local] Abbreviation RRow := (ComplaintRow R).

Lemma recency_sum_bounds now (l : list RRow) :
  forall acc,
    acc + INR (List.length l) / 2
    <= fold_left
         (fun s (complaint : RRow) =>
            if lt (sub (ofZ now) (createdAt complaint)) (ofZ oneDay)
            then add s (ofZ 3)
            else if lt (sub (ofZ now) (createdAt complaint)) (ofZ oneWeek)
                 then add s (dec 3 2) else add s (dec 1 2)) l acc
    <= acc + 3 * INR (List.length l).
Proof.
  induction l as [|c rest IH]; intros acc.
  - cbn [fold_left List.length INR]. lra.
  - cbn [fold_left]. 
    change (List.length (c :: rest)) with (S (List.length rest)).
    rewrite S_INR.
    match goal with
    | |- _ <= fold_left _ rest ?a <= _ => specialize (IH a); set (a' := a) in *
    end.
    assert (Ha : acc + 1 / 2 <= a' <= acc + 3).
    { subst a'. cbn [lt add ofZ R_Number]. unfold dec. cbn [div ofZ R_Number].
      destruct (R_lt _ _); [lra|]. destruct (R_lt _ _); lra. }
    lra.
Qed.

Lemma calculateRecencyScore_range now (l : list RRow) :
  l <> [] -> 1 / 2 <= calculateRecencyScore now l <= 3.
Proof.
  intros Hne. unfold calculateRecencyScore. rewrite ofNat_INR.
  cbn [div R_Number].
  pose proof (recency_sum_bounds now l zero) as Hb.
  change (@zero R R_Number) with 0 in *.
  assert (Hn : 0 < INR (List.length l)).
  { apply lt_0_INR. destruct l; [contradiction | simpl; lia]. }
  set (n := INR (List.length l)) in *.
  match goal with
  | |- _ <= ?s / n <= _ => set (sum := s) in *
  end.
  split.
  - apply Rmult_le_reg_r with n; [exact Hn|].
    replace (sum / n * n) with sum by (field; lra). lra.
  - apply Rmult_le_reg_r with n; [exact Hn|].
    replace (sum / n * n) with sum by (field; lra). lra.
Qed.

Lemma log10_2_bound : 3 / 10 <= ln 2 / ln 10.
Proof.
  assert (H10 : 0 < ln 10) by (rewrite <- ln_1; apply ln_increasing; lra).
  assert (Hle : ln (10 ^ 3) <= ln (2 ^ 10)).
  { apply Rlt_le, ln_increasing; lra. }
  rewrite !ln_pow in Hle by lra.
  change (INR 3) with (1 + 1 + 1) in Hle.
  assert (H10n : INR 10 = 10) by (rewrite INR_IZR_INZ; reflexivity).
  rewrite H10n in Hle.
  apply Rmult_le_reg_r with (ln 10); [exact H10|].
  replace (ln 2 / ln 10 * ln 10) with (ln 2) by (field; lra). lra.
Qed.

Lemma calculateLocationDensity_lower (l : list RRow) :
  Forall (fun c => JSString.has inheritedNames (c_location c) = false) l ->
  9 / 10 <= calculateLocationDensity l.
Proof.
  intros H. unfold calculateLocationDensity.
  pose proof (maxWithOne_ge_1 _ (locationMap_counted l H)) as Hm.
  cbn [mul add log10 ofZ R_Number R_MathLib]. unfold R_log10, one.
  cbn [ofZ R_Number].
  assert (H10 : 0 < ln 10) by (rewrite <- ln_1; apply ln_increasing; lra).
  assert (H2 : ln 2 <= ln (maxWithOne (values (locationMap l)) + 1)).
  { destruct (Req_dec (maxWithOne (values (locationMap l)) + 1) 2) as [->|Hne];
      [lra|]. apply Rlt_le, ln_increasing; lra. }
  pose proof log10_2_bound as Hb.
  assert (Hq : ln 2 / ln 10 <= ln (maxWithOne (values (locationMap l)) + 1) / ln 10).
  { unfold Rdiv. apply Rmult_le_compat_r; [|exact H2].
    apply Rlt_le, Rinv_0_lt_compat, H10. }
  lra.
Qed.

Lemma R_round_between (x : R) (lo hi : Z) :
  IZR lo - / 2 <= x <= IZR hi ->
  exists z : Z, (lo <= z <= hi)%Z /\ R_round x = IZR z.
Proof.
  intros Hx. unfold R_round. exists (up (x + / 2) - 1)%Z.
  split; [|reflexivity].
  destruct (archimed (x + / 2)) as [Hgt Hle].
  split.
  - assert (H : IZR lo < IZR (up (x + / 2))) by lra.
    apply lt_IZR in H. lia.
  - assert (H : IZR (up (x + / 2)) < IZR (hi + 2)) by (rewrite plus_IZR; lra).
    apply lt_IZR in H. lia.
Qed.

(** For a problem with at least one complaint, none at a location named
    like an inherited property: the severity factor lies in [0, 10], the
    recency factor in [1/2, 3], the location factor is at least 0.9, and
    the composite score is an integer between 6 and 100. *)
Theorem priority_score_bounds (now : Z) (l : list RRow) :
  l <> [] ->
  Forall (fun c => JSString.has inheritedNames (c_location c) = false) l ->
  0 <= calculateSeverityScore l <= 10
  /\ 1 / 2 <= calculateRecencyScore now l <= 3
  /\ 9 / 10 <= calculateLocationDensity l
  /\ exists z : Z,
       (6 <= z <= 100)%Z /\ calculatePriorityScore (factorsOf now l) = IZR z.
Proof.
  intros Hne Hloc.
  pose proof (calculateSeverityScore_nonneg l Hne) as Hs.
  pose proof (calculateRecencyScore_range now l Hne) as Hr.
  pose proof (calculateLocationDensity_lower l Hloc) as Hd.
  split; [exact Hs|]. split; [exact Hr|]. split; [exact Hd|].
  unfold calculatePriorityScore, factorsOf.
  cbn [complaint_count severity_score recency_score location_density].
  rewrite !min_Rmin, ofNat_INR.
  cbn [round R_MathLib]. apply R_round_between.
  unfold dec, one. cbn [add mul div ofZ R_Number].
  assert (Hn : 1 <= INR (List.length l)).
  { change 1 with (INR 1). apply le_INR. destruct l; [contradiction | simpl; lia]. }
  assert (Hc : 1 / 10 <= Rmin (INR (List.length l) / 10) 1)
    by (apply Rmin_glb; lra).
  split; [|apply Rmin_r].
  apply Rmin_glb; [|lra]. lra.
Qed.

End Ranges.

Lemma priority_score_bounds_witness :
  (0 <= calculateSeverityScore (num := R) threeRows <= 10)%R
  /\ (1 / 2 <= calculateRecencyScore (num := R) 9000 threeRows <= 3)%R
  /\ (9 / 10 <= calculateLocationDensity (num := R) threeRows)%R
  /\ exists z : Z,
       (6 <= z <= 100)%Z
       /\ calculatePriorityScore (num := R) (factorsOf 9000 threeRows) = IZR z.
Proof.
  apply (priority_score_bounds 9000 threeRows).
  - discriminate.
  - repeat constructor.
Defined.

End PriorityShape.

(* ================================================================== *)
(** * Properties of the explainability agent and of the badges         *)
(* ================================================================== *)

Module ExplainabilityFacts.
Import JSString JSNumber JSObject JSArray Store Explainability.

(** ** The stable descending sort *)

Section Sorting.
Context {A : Type}.
Variable key : A -> Z.

Definition descending (a b : A) : Prop := (key b <= key a)%Z.

Lemma insertDescending_perm x sorted :
  Permutation (insertDescending key x sorted) (x :: sorted).
Proof.
  induction sorted as [|y rest IH]; [reflexivity|]. cbn [insertDescending].
  destruct (key y <=? key x)%Z; [reflexivity|].
  rewrite IH. apply perm_swap.
Qed.

Lemma sortDescending_perm arr : Permutation (sortDescending key arr) arr.
Proof.
  induction arr as [|x rest IH]; [reflexivity|].
  cbn [sortDescending fold_right]. rewrite insertDescending_perm.
  now constructor.
Qed.

Lemma insertDescending_sorted x sorted :
  StronglySorted descending sorted ->
  StronglySorted descending (insertDescending key x sorted).
Proof.
  induction 1 as [|y rest Hs IH Hall]; cbn [insertDescending].
  - repeat constructor.
  - destruct (key y <=? key x)%Z eqn:E.
    + apply Z.leb_le in E. constructor; [now constructor|].
      constructor; [exact E|]. eapply Forall_impl; [|exact Hall].
      unfold descending. intros z Hz. lia.
    + apply Z.leb_gt in E. constructor; [exact IH|].
      apply Forall_forall. intros z Hz.
      apply (Permutation_in _ (insertDescending_perm x rest)) in Hz.
      destruct Hz as [<-|Hz]; [unfold descending; lia|].
      rewrite Forall_forall in Hall. now apply Hall.
Qed.

Lemma sortDescending_sorted arr : StronglySorted descending (sortDescending key arr).
Proof.
  induction arr as [|x rest IH]; [constructor|]. now apply insertDescending_sorted.
Qed.

Lemma sorted_split (R : A -> A -> Prop) (l1 l2 : list A) :
  StronglySorted R (l1 ++ l2) ->
  StronglySorted R l1
  /\ forall x y, In x l1 -> In y l2 -> R x y.
Proof.
  induction l1 as [|a l1 IH]; intros H.
  - split; [constructor | intros x y []].
  - cbn [app] in H. inversion H as [|? ? Hs Hall]; subst.
    destruct (IH Hs) as [H1 H2]. rewrite Forall_forall in Hall. split.
    + constructor; [exact H1|]. apply Forall_forall. intros z Hz.
      apply Hall, in_or_app. now left.
    + intros x y [<-|Hx] Hy; [|now apply H2].
      apply Hall, in_or_app. now right.
Qed.

(** The first [n] elements of the sorted array and the rest. *)
Lemma top_of_sorted (n : nat) (arr : list A) :
  let top := firstn n (sortDescending key arr) in
  let rest := skipn n (sortDescending key arr) in
  Permutation (top ++ rest) arr
  /\ List.length top = Nat.min n (List.length arr)
  /\ StronglySorted descending top
  /\ forall x y, In x top -> In y rest -> (key y <= key x)%Z.
Proof.
  cbv zeta. pose proof (sortDescending_sorted arr) as Hs.
  pose proof (sortDescending_perm arr) as Hp.
  rewrite <- (firstn_skipn n (sortDescending key arr)) in Hs.
  destruct (sorted_split _ _ _ Hs) as [H1 H2].
  split; [now rewrite firstn_skipn|].
  split; [rewrite length_firstn, (Permutation_length Hp); reflexivity|].
  split; [exact H1 | exact H2].
Qed.

End Sorting.

(** ** Sample complaints *)

Section Samples.
Context {num : Type} {N : Number num}.

#[local] Abbreviation Row := (ComplaintRow num).

Definition cleanedLength (c : Row) : Z := Z.of_nat (String.length (c_cleaned_text c)).

(** The samples are the texts (the cleaned text when the text is empty)
    of min(3, n) of the n complaints, longest cleaned text first, and no
    complaint left out has a longer cleaned text than a chosen one. *)
Theorem samples_are_longest (complaints : list Row) :
  exists chosen rest,
    selectRepresentativeComplaints complaints = map sampleText chosen
    /\ Permutation (chosen ++ rest) complaints
    /\ List.length (selectRepresentativeComplaints complaints)
       = Nat.min 3 (List.length complaints)
    /\ StronglySorted (fun a b => (cleanedLength b <= cleanedLength a)%Z) chosen
    /\ forall c c', In c chosen -> In c' rest ->
                    (cleanedLength c' <= cleanedLength c)%Z.
Proof.
  unfold selectRepresentativeComplaints.
  set (n := Nat.min 3 (List.length complaints)).
  destruct (top_of_sorted cleanedLength n complaints) as (Hp & Hl & Hs & Hc).
  exists (firstn n (sortDescending cleanedLength complaints)),
         (skipn n (sortDescending cleanedLength complaints)).
  split; [reflexivity|]. split; [exact Hp|]. split.
  - rewrite length_map. fold cleanedLength. rewrite Hl. unfold n. lia.
  - split; [exact Hs | exact Hc].
Qed.

End Samples.

(** ** Keywords *)

Section Keywords.
Context {num : Type} {N : Number num}.

#[local] Abbreviation Row := (ComplaintRow num).

(** The words of all complaints, in order. *)
Definition allWords (complaints : list Row) : list string :=
  flat_map (fun c => split (c_cleaned_text c)) complaints.

(** How often a word occurs over all complaints. *)
Definition frequency (complaints : list Row) (w : string) : Z :=
  Z.of_nat (count_occ string_dec (allWords complaints) w).

Definition counts (word : string) : bool :=
  (3 <? String.length word)%nat && has importantWords word.

Lemma wordFreq_fold (complaints : list Row) :
  wordFreq complaints = fold_left bump (filter counts (allWords complaints)) [].
Proof.
  unfold wordFreq, allWords. generalize (@nil (string * value)) as obj.
  induction complaints as [|c rest IH]; intros obj; [reflexivity|].
  cbn [fold_left flat_map]. rewrite filter_app, fold_left_app, IH. f_equal.
  generalize (split (c_cleaned_text c)) as ws. clear. intros ws. revert obj.
  induction ws as [|w ws IH]; intros obj; [reflexivity|].
  cbn [fold_left filter]. fold (counts w).
  destruct (counts w); cbn [fold_left]; apply IH.
Qed.

Lemma important_not_inherited w :
  has importantWords w = true -> has inheritedNames w = false.
Proof.
  intros H. unfold has in H. apply existsb_exists in H as (x & Hx & Hq).
  apply String.eqb_eq in Hq. subst x.
  cbn [importantWords In] in Hx.
  repeat (destruct Hx as [<-|Hx]; [reflexivity|]). contradiction.
Qed.

Lemma important_is_long w :
  has importantWords w = true -> (3 <? String.length w)%nat = true.
Proof.
  intros H. unfold has in H. apply existsb_exists in H as (x & Hx & Hq).
  apply String.eqb_eq in Hq. subst x.
  cbn [importantWords In] in Hx.
  repeat (destruct Hx as [<-|Hx]; [reflexivity|]). contradiction.
Qed.

Lemma store_keys obj key v :
  map fst (store obj key v)
  = match own obj key with
    | Some _ => map fst obj
    | None => (map fst obj ++ [key])%list
    end.
Proof.
  induction obj as [|[k w] rest IH]; cbn [store own map fst app]; [reflexivity|].
  destruct (String.eqb k key); [reflexivity|].
  cbn [map fst]. rewrite IH. now destruct (own rest key).
Qed.

Lemma bump_keys obj key :
  has inheritedNames key = false ->
  map fst (bump obj key)
  = match own obj key with
    | Some _ => map fst obj
    | None => (map fst obj ++ [key])%list
    end.
Proof.
  intros Hk. unfold bump.
  destruct (own obj key) as [[n|]|] eqn:E; rewrite ?Hk, store_keys, E; reflexivity.
Qed.

Lemma own_In obj k v : own obj k = Some v -> In (k, v) obj.
Proof.
  induction obj as [|[k' w] rest IH]; cbn [own]; [discriminate|].
  destruct (String.eqb k' k) eqn:E.
  - apply String.eqb_eq in E. intros [= <-]. left. now subst.
  - intros H. right. now apply IH.
Qed.

Lemma own_None obj k : own obj k = None <-> ~ In k (map fst obj).
Proof.
  induction obj as [|[k' w] rest IH]; cbn [own map fst In]; [tauto|].
  destruct (String.eqb k' k) eqn:E.
  - apply String.eqb_eq in E. split; [discriminate | tauto].
  - apply String.eqb_neq in E. rewrite IH. tauto.
Qed.

Lemma In_own obj k v : NoDup (map fst obj) -> In (k, v) obj -> own obj k = Some v.
Proof.
  induction obj as [|[k' w] rest IH]; intros Hnd Hin; [contradiction|].
  cbn [map fst] in Hnd. inversion Hnd as [|? ? Hnot Hrest]; subst.
  cbn [own]. destruct Hin as [[= -> ->]|Hin].
  - now rewrite String.eqb_refl.
  - destruct (String.eqb k' k) eqn:E; [|now apply IH].
    apply String.eqb_eq in E. subst k'. exfalso. apply Hnot.
    change k with (fst (k, v)). now apply in_map.
Qed.

(** The object after the keys of a list have been bumped, one by one:
    its keys are distinct and each cell holds the number of occurrences
    of its key. *)
Definition tallied (keys : list string) (obj : object) : Prop :=
  NoDup (map fst obj)
  /\ forall k, own obj k
               = PriorityShape.cellOf (Z.of_nat (count_occ string_dec keys k)).

Lemma bump_tallied keys :
  Forall (fun k => has inheritedNames k = false) keys ->
  forall prefix obj,
    tallied prefix obj -> tallied (prefix ++ keys) (fold_left bump keys obj).
Proof.
  induction 1 as [|key keys Hk _ IH]; intros prefix obj Ht.
  - now rewrite app_nil_r.
  - cbn [fold_left].
    replace (prefix ++ key :: keys)%list with ((prefix ++ [key]) ++ keys)%list
      by (now rewrite <- app_assoc).
    apply IH. destruct Ht as [Hnd Hown]. split.
    + rewrite (bump_keys _ _ Hk).
      destruct (own obj key) eqn:E; [exact Hnd|].
      apply own_None in E.
      apply Permutation_NoDup with (key :: map fst obj);
        [apply Permutation_cons_append | now constructor].
    + intros k. rewrite count_occ_app. cbn [count_occ].
      destruct (string_dec key k) as [->|Hne].
      * rewrite Nat2Z.inj_add. cbn [count_occ].
        apply PriorityShape.own_bump_same; [exact Hk | lia | apply Hown].
      * rewrite Nat.add_0_r, PriorityShape.own_bump_other by exact Hne.
        apply Hown.
Qed.

Lemma count_occ_filter (f : string -> bool) (l : list string) w :
  count_occ string_dec (filter f l) w
  = if f w then count_occ string_dec l w else 0%nat.
Proof.
  induction l as [|x l IH]; cbn [filter count_occ]; [now destruct (f w)|].
  destruct (f x) eqn:Ex; cbn [count_occ]; destruct (string_dec x w) as [->|Hne];
    rewrite IH; try reflexivity.
  - now rewrite Ex.
  - now rewrite Ex.
Qed.

Lemma wordFreq_tallied (complaints : list Row) :
  tallied (filter counts (allWords complaints)) (wordFreq complaints).
Proof.
  rewrite wordFreq_fold.
  apply (bump_tallied _) with (prefix := []) (obj := []).
  - apply Forall_forall. intros k Hk. apply filter_In in Hk as [_ Hk].
    unfold counts in Hk. apply andb_true_iff in Hk as [_ Hk].
    now apply important_not_inherited.
  - split; [constructor | reflexivity].
Qed.

(** Every cell of [wordFreq]: an important word that occurs, with its
    frequency. *)
Lemma wordFreq_entry (complaints : list Row) k v :
  In (k, v) (wordFreq complaints)
  <-> has importantWords k = true
      /\ (0 < frequency complaints k)%Z
      /\ v = Count (frequency complaints k).
Proof.
  destruct (wordFreq_tallied complaints) as [Hnd Hown].
  specialize (Hown k). rewrite count_occ_filter in Hown.
  unfold frequency, PriorityShape.cellOf in *. split.
  - intros Hin. apply (In_own _ _ _ Hnd) in Hin. rewrite Hin in Hown.
    destruct (counts k) eqn:Ec; [|discriminate Hown].
    destruct (Z.eqb_spec (Z.of_nat (count_occ string_dec (allWords complaints) k)) 0);
      [discriminate Hown|].
    injection Hown as ->. unfold counts in Ec. apply andb_true_iff in Ec as [_ Ec].
    split; [exact Ec|]. split; [lia | reflexivity].
  - intros (Hi & Hpos & ->). apply own_In. rewrite Hown.
    unfold counts. rewrite Hi, (important_is_long _ Hi). cbn [andb].
    destruct (Z.eqb_spec (Z.of_nat (count_occ string_dec (allWords complaints) k)) 0);
      [lia | reflexivity].
Qed.

Lemma sorted_map {A B} (R : A -> A -> Prop) (R' : B -> B -> Prop) (f : A -> B)
    (l : list A) :
  (forall x y, In x l -> In y l -> R x y -> R' (f x) (f y)) ->
  StronglySorted R l -> StronglySorted R' (map f l).
Proof.
  intros H Hs. induction Hs as [|a l Hs IH Hall]; [constructor|].
  cbn [map]. constructor.
  - apply IH. intros x y Hx Hy. apply H; now right.
  - rewrite Forall_forall in *. intros b Hb.
    apply in_map_iff in Hb as (y & <- & Hy).
    apply H; [now left | now right | now apply Hall].
Qed.

(** The keywords of a problem: at most 8, distinct, each an important
    word that occurs in some complaint of the problem, in order of
    descending frequency; an important word that occurs and is left out
    is no more frequent than any keyword, and then there are 8
    keywords. *)
Theorem keywords_are_most_frequent (complaints : list Row) :
  let ks := extractKeywords complaints in
  (List.length ks <= 8)%nat
  /\ NoDup ks
  /\ (forall w, In w ks ->
        In w importantWords /\ (0 < frequency complaints w)%Z)
  /\ StronglySorted
       (fun a b => (frequency complaints b <= frequency complaints a)%Z) ks
  /\ (forall w, In w importantWords -> (0 < frequency complaints w)%Z ->
        ~ In w ks ->
        List.length ks = 8%nat
        /\ forall k, In k ks -> (frequency complaints w <= frequency complaints k)%Z).
Proof.
  cbv zeta. unfold extractKeywords.
  set (key := fun entry : string * value => countOf (snd entry)).
  set (obj := wordFreq complaints).
  destruct (top_of_sorted key 8 obj) as (Hp & Hl & Hs & Hc).
  set (top := firstn 8 (sortDescending key obj)) in *.
  set (rest := skipn 8 (sortDescending key obj)) in *.
  destruct (wordFreq_tallied complaints) as [Hnd _]. fold obj in Hnd.
  assert (Hin : forall e, In e top \/ In e rest <-> In e obj).
  { intros e. rewrite <- in_app_iff. split; apply Permutation_in;
      [exact Hp | symmetry; exact Hp]. }
  assert (Hentry : forall e, In e obj ->
                     has importantWords (fst e) = true
                     /\ (0 < frequency complaints (fst e))%Z
                     /\ key e = frequency complaints (fst e)).
  { intros [k v] He. apply wordFreq_entry in He as (H1 & H2 & ->).
    cbn [fst]. split; [exact H1|]. split; [exact H2 | reflexivity]. }
  split; [rewrite length_map, Hl; lia|].
  split.
  { assert (Hnd' : NoDup (map fst (top ++ rest)))
      by (eapply Permutation_NoDup;
          [apply Permutation_map; symmetry; exact Hp | exact Hnd]).
    rewrite map_app in Hnd'. now apply NoDup_app_remove_r in Hnd'. }
  split.
  { intros w Hw. apply in_map_iff in Hw as (e & <- & He).
    destruct (Hentry e) as (H1 & H2 & _); [apply Hin; now left|].
    split; [|exact H2]. unfold has in H1.
    apply existsb_exists in H1 as (x & Hx & Hq).
    apply String.eqb_eq in Hq. now subst x. }
  split.
  { apply (sorted_map (descending key)); [|exact Hs].
    intros x y Hx Hy Hxy. unfold descending in Hxy.
    destruct (Hentry x) as (_ & _ & <-); [apply Hin; now left|].
    destruct (Hentry y) as (_ & _ & <-); [apply Hin; now left|].
    exact Hxy. }
  intros w Hw Hpos Hout.
  assert (Hhas : has importantWords w = true).
  { unfold has. apply existsb_exists. exists w. split; [exact Hw|].
    apply String.eqb_refl. }
  assert (He : In (w, Count (frequency complaints w)) obj)
    by (apply wordFreq_entry; auto).
  apply Hin in He. destruct He as [He|He].
  { exfalso. apply Hout. apply in_map_iff. now exists (w, Count (frequency complaints w)). }
  split.
  - rewrite length_map, Hl.
    assert (Hlen : (8 < List.length (sortDescending key obj))%nat).
    { destruct (Nat.lt_ge_cases 8 (List.length (sortDescending key obj)))
        as [Hlt|Hge]; [exact Hlt|].
      unfold rest in He. rewrite skipn_all2 in He by exact Hge. contradiction. }
    rewrite (Permutation_length (sortDescending_perm key obj)) in Hlen. lia.
  - intros k Hk. apply in_map_iff in Hk as (e & <- & Hek).
    specialize (Hc e _ Hek He).
    destruct (Hentry e) as (_ & _ & <-); [apply Hin; now left|].
    exact Hc.
Qed.

End Keywords.

(** ** The explanation of the priority and the badges of the screens *)

Section Badges.
Context {num : Type} {N : Number num}.

(** For every score, NaN included, and every trend: the explanation
    starts with the label of the problem screen, which is the label of
    the list followed by " PRIORITY"; two scores get the same colour
    exactly when they get the same label; and the explanation speaks of
    escalation or of improvement exactly when the trend badge does. *)
Theorem explanation_agrees_with_badges (score score' : num) (trend : string) :
  startsWith (ProblemScreen.getPriorityLabel score ++ ": ")
    (generatePriorityExplanation score trend) = true
  /\ ProblemScreen.getPriorityLabel score
     = ProblemsTab.getPriorityLabel score ++ " PRIORITY"
  /\ (ProblemScreen.getPriorityColor score = ProblemScreen.getPriorityColor score'
      <-> ProblemsTab.getPriorityLabel score = ProblemsTab.getPriorityLabel score')
  /\ (includes (generatePriorityExplanation score trend) "escalating" = true
      <-> ProblemScreen.getTrendText trend = "Escalating")
  /\ (includes (generatePriorityExplanation score trend) "improving" = true
      <-> ProblemScreen.getTrendText trend = "Improving").
Proof.
  unfold generatePriorityExplanation, ProblemScreen.getPriorityLabel,
    ProblemsTab.getPriorityLabel, ProblemScreen.getPriorityColor,
    ProblemScreen.getTrendText.
  destruct (ge score (ofZ 80)), (ge score (ofZ 60)), (ge score (ofZ 40)),
    (ge score' (ofZ 80)), (ge score' (ofZ 60)), (ge score' (ofZ 40)),
    (String.eqb trend "rising"), (String.eqb trend "falling");
    repeat split; intros H; try reflexivity; try discriminate H;
    vm_compute in H; discriminate H.
Qed.

End Badges.

(** ** From the trend of the priority agent to the explanation *)

Lemma trend_two_values_real (now : Z) (l : list (ComplaintRow R)) :
  Priority.determineTrend now l = "rising" \/ Priority.determineTrend now l = "stable".
Proof.
  destruct (Nat.lt_ge_cases (List.length l) 2) as [Hs|Hs].
  - right. now apply PriorityFacts.determineTrend_short.
  - rewrite (PriorityFacts.determineTrend_cases now l Hs),
      (PriorityFacts.growth_test_real l Hs).
    destruct (_ && _); auto.
Qed.

Lemma trend_two_values_binary64 (now : Z) (l : list (ComplaintRow float)) :
  (Z.of_nat (List.length l) <= PriorityFacts.sizeBound)%Z ->
  Priority.determineTrend now l = "rising" \/ Priority.determineTrend now l = "stable".
Proof.
  intros Hb. destruct (Nat.lt_ge_cases (List.length l) 2) as [Hs|Hs].
  - right. now apply PriorityFacts.determineTrend_short.
  - rewrite (PriorityFacts.determineTrend_cases now l Hs).
    destruct (PriorityFacts.growth_test_binary64 l) as [-> _]; [lia|].
    destruct (_ && _); auto.
Qed.

(** The explanation of a problem whose trend the priority agent has just
    computed never says that the problem is improving, and the trend
    badge never reads "Improving": in exact arithmetic for every list of
    complaints, on binary64 for up to 10000 complaints. *)
Theorem explanation_never_improving :
  (forall (score : R) (now : Z) (l : list (ComplaintRow R)),
     includes (generatePriorityExplanation score (Priority.determineTrend now l))
       "improving" = false
     /\ ProblemScreen.getTrendText (Priority.determineTrend now l) <> "Improving")
  /\ (forall (score : float) (now : Z) (l : list (ComplaintRow float)),
        (Z.of_nat (List.length l) <= PriorityFacts.sizeBound)%Z ->
        includes (generatePriorityExplanation score (Priority.determineTrend now l))
          "improving" = false
        /\ ProblemScreen.getTrendText (Priority.determineTrend now l) <> "Improving").
Proof.
  split.
  - intros score now l.
    destruct (trend_two_values_real now l) as [-> | ->];
      unfold generatePriorityExplanation, ProblemScreen.getTrendText;
      cbn [String.eqb Ascii.eqb Bool.eqb andb];
      (split; [|discriminate]);
      destruct (ge score (ofZ 80)), (ge score (ofZ 60)), (ge score (ofZ 40));
      vm_compute; reflexivity.
  - intros score now l Hb.
    destruct (trend_two_values_binary64 now l Hb) as [-> | ->];
      unfold generatePriorityExplanation, ProblemScreen.getTrendText;
      cbn [String.eqb Ascii.eqb Bool.eqb andb];
      (split; [|discriminate]);
      destruct (ge score (ofZ 80)), (ge score (ofZ 60)), (ge score (ofZ 40));
      vm_compute; reflexivity.
Qed.

Lemma explanation_never_improving_witness :
  includes
    (generatePriorityExplanation (num := float) 44%float
       (Priority.determineTrend (num := float) 9000 PriorityFacts.threeRows))
    "improving" = false
  /\ ProblemScreen.getTrendText
       (Priority.determineTrend (num := float) 9000 PriorityFacts.threeRows)
     <> "Improving".
Proof.
  destruct explanation_never_improving as [_ HF].
  apply (HF 44%float 9000%Z PriorityFacts.threeRows).
  unfold PriorityFacts.sizeBound. cbn [List.length PriorityFacts.threeRows]. lia.
Defined.

End ExplainabilityFacts.

(* ================================================================== *)
(** * Properties of the submission workflow                            *)
(* ================================================================== *)

Module OrchestratorFacts.
Import JSString JSNumber Store Ingestion Understanding Discovery DiscoveryAgent.
Import Orchestrator.

Section Submission.
Context {num : Type} {N : Number num}.
Variable stored : list num -> list num.
Variable newId : string.
Variable now : Z.
Variable ingestionLog : string.
Variable understandingLog : string.

(** The row of an accepted submission, as it is when the request is
    answered. *)
Definition submittedRow (text loc : string) : ComplaintRow num :=
  {| c_id := newId; c_text := text;
     c_cleaned_text := join (words text);
     c_location := trim loc;
     c_status := "processing";
     c_embedding := Some (stored (generateEmbedding (join (words text))));
     c_created_at := now |}.

Lemma setEmbedding_other cid e (rows : list (ComplaintRow num)) :
  ~ In cid (map c_id rows) -> map (setEmbedding stored cid e) rows = rows.
Proof.
  intros Hnot. etransitivity; [|apply map_id]. apply map_ext_in.
  intros row Hrow. unfold setEmbedding.
  destruct (String.eqb (c_id row) cid) eqn:E; [|reflexivity].
  apply String.eqb_eq in E. exfalso. apply Hnot. rewrite <- E. now apply in_map.
Qed.

Lemma accepted_submission (text loc : string) (db : DB num) :
  ~ In newId (map c_id (complaints_table db)) ->
  is_valid (validate text loc) = true ->
  let result :=
    submitComplaint stored newId now ingestionLog understandingLog text loc db in
  fst result = Submitted newId
  /\ problems_table (snd result) = problems_table db
  /\ complaint_problems_table (snd result) = complaint_problems_table db
  /\ complaints_table (snd result)
     = (complaints_table db ++ [submittedRow text loc])%list.
Proof.
  intros Hfresh Hv. cbv zeta. unfold submitComplaint, ingestionAgent.
  rewrite Hv. cbn [negb fst snd].
  split; [reflexivity|]. split; [reflexivity|]. split; [reflexivity|].
  unfold understandingAgent, insertComplaint, logRun.
  cbn [complaints_table]. rewrite map_app.
  rewrite setEmbedding_other by exact Hfresh.
  cbn [map]. unfold setEmbedding at 1. cbn [c_id]. rewrite String.eqb_refl.
  reflexivity.
Qed.

(** A rejected submission is answered with the validator's reason and
    leaves the complaints, the problems and the links as they were; an
    accepted one adds exactly one row, with the raw text, the cleaned
    text, the trimmed location, status 'processing' and the vector of the
    cleaned text, which the next discovery run will select; the rows
    already there are untouched.  The identifier given to the new row is
    assumed fresh (it is the primary key). *)
Theorem submission_outcome (text loc : string) (db : DB num) :
  ~ In newId (map c_id (complaints_table db)) ->
  let result :=
    submitComplaint stored newId now ingestionLog understandingLog text loc db in
  problems_table (snd result) = problems_table db
  /\ complaint_problems_table (snd result) = complaint_problems_table db
  /\ (is_valid (validate text loc) = false ->
      fst result = Rejected (reason (validate text loc))
      /\ reason (validate text loc) <> ""
      /\ complaints_table (snd result) = complaints_table db)
  /\ (is_valid (validate text loc) = true ->
      fst result = Submitted newId
      /\ complaints_table (snd result)
         = (complaints_table db ++ [submittedRow text loc])%list
      /\ eligible (submittedRow text loc) = true).
Proof.
  intros Hfresh. cbv zeta.
  destruct (is_valid (validate text loc)) eqn:Hv.
  - destruct (accepted_submission text loc db Hfresh Hv) as (H1 & H2 & H3 & H4).
    split; [exact H2|]. split; [exact H3|]. split; [discriminate|].
    intros _. split; [exact H1|]. split; [exact H4 | reflexivity].
  - unfold submitComplaint, ingestionAgent. rewrite Hv. cbn [negb fst snd].
    split; [reflexivity|]. split; [reflexivity|]. split; [|discriminate].
    intros _.
    assert (Hr : reason (validate text loc) <> "").
    { revert Hv. cbn [is_valid reason validate].
      destruct (String.length text <? 10)%nat; [discriminate|].
      destruct (List.length (words text) <? 3)%nat; [discriminate|].
      destruct (repeatedPrefix text); [discriminate|]. discriminate. }
    split; [|split; [exact Hr | reflexivity]].
    apply String.eqb_neq in Hr. now rewrite Hr.
Qed.

(** ** From submission to analysis *)

Variable generateClusterTitle : list (Complaint num) -> string.
Variable rand : nat -> nat.
Variable problemId : nat -> string.
Variable logId : string.

Lemma filter_count {A} (f : A -> string) (x : string) (ls : list A) :
  List.length (filter (fun l => String.eqb (f l) x) ls)
  = count_occ string_dec (map f ls) x.
Proof.
  induction ls as [|l ls IH]; [reflexivity|]. cbn [filter map count_occ].
  destruct (string_dec (f l) x) as [E|E].
  - apply String.eqb_eq in E. rewrite E. cbn [List.length]. now rewrite IH.
  - apply String.eqb_neq in E. now rewrite E.
Qed.

Lemma selected_ids_distinct (rows : list (ComplaintRow num)) :
  NoDup (map c_id rows) -> NoDup (map c_id (filter eligible rows)).
Proof.
  induction rows as [|row rows IH]; intros Hnd; [constructor|].
  cbn [map] in Hnd. inversion Hnd as [|? ? Hnot Hrest]; subst.
  cbn [filter]. destruct (eligible row); [|now apply IH].
  cbn [map]. constructor; [|now apply IH].
  intros Hin. apply Hnot. apply in_map_iff in Hin as (other & Hid & Hin).
  apply filter_In in Hin as [Hin _]. rewrite <- Hid. now apply in_map.
Qed.

(** An accepted complaint and the next analysis: the discovery run that
    follows the submission completes, leaves the complaint with status
    'analyzed' and every other field as submitted, and links it to
    exactly one problem, which is in the problems table.  Identifiers of
    the complaints table are assumed distinct and the new one fresh;
    stored rows never carry the nil UUID. *)
Theorem submitted_complaint_is_analyzed (text loc : string) (db : DB num) :
  NoDup (map c_id (complaints_table db)) ->
  ~ In newId (map c_id (complaints_table db)) ->
  Forall (fun p => p_id p <> nilUUID) (problems_table db) ->
  Forall (fun l => l_complaint_id l <> nilUUID) (complaint_problems_table db) ->
  is_valid (validate text loc) = true ->
  let submitted :=
    snd (submitComplaint stored newId now ingestionLog understandingLog text loc db) in
  exists db' created,
    discoveryAgent generateClusterTitle rand problemId logId submitted
    = Completed db' created
    /\ In (DiscoveryShape.analyzed (submittedRow text loc)) (complaints_table db')
    /\ List.length
         (filter (fun l => String.eqb (l_complaint_id l) newId)
            (complaint_problems_table db')) = 1%nat
    /\ Forall (fun l => In (l_problem_id l) (map p_id (problems_table db')))
         (complaint_problems_table db').
Proof.
  intros Hnd Hfresh Hp Hl Hv submitted.
  destruct (accepted_submission text loc db Hfresh Hv) as (_ & Sp & Sl & Sc).
  fold submitted in Sp, Sl, Sc.
  set (row := submittedRow text loc) in *.
  assert (Hel : eligible row = true) by reflexivity.
  assert (Hrow : In row (filter eligible (complaints_table submitted))).
  { apply filter_In. split; [|exact Hel]. rewrite Sc. apply in_or_app.
    right. now left. }
  assert (Hne : filter eligible (complaints_table submitted) <> []).
  { intros E. rewrite E in Hrow. contradiction. }
  assert (Hnd1 : NoDup (map c_id (complaints_table submitted))).
  { rewrite Sc, map_app. cbn [map].
    apply Permutation_NoDup with (newId :: map c_id (complaints_table db));
      [apply Permutation_cons_append | now constructor]. }
  rewrite <- Sp in Hp. rewrite <- Sl in Hl.
  destruct (DiscoveryShape.run_tables generateClusterTitle rand problemId logId
              submitted Hp Hl Hne)
    as (clusters & db' & created & _ & _ & _ & Hperm & Hdone & H1 & H2 & _).
  destruct (DiscoveryShape.run_complaints generateClusterTitle rand problemId logId
              submitted)
    as (db'' & created'' & Hdone' & Hc).
  assert (db'' = db') as -> by congruence. clear Hdone'.
  exists db', created. split; [exact Hdone|].
  destruct (DiscoveryShape.insertedLinks_shape generateClusterTitle problemId
              clusters 0) as [L1 L2].
  split.
  { rewrite Hc. apply in_map_iff. exists row. split.
    - unfold DiscoveryShape.markAll.
      assert (E : existsb (String.eqb (c_id row))
                    (map c_id (filter eligible (complaints_table submitted)))
                  = true).
      { apply existsb_exists. exists (c_id row).
        split; [now apply in_map | apply String.eqb_refl]. }
      now rewrite E.
    - rewrite Sc. apply in_or_app. right. now left. }
  split.
  { rewrite H2, filter_count, L1.
    assert (Hids : Permutation (map id (DiscoveryFacts.members clusters))
                     (map c_id (filter eligible (complaints_table submitted)))).
    { rewrite (Permutation_map id Hperm), map_map. reflexivity. }
    rewrite (proj1 (Permutation_count_occ string_dec _ _) Hids).
    apply NoDup_count_occ'.
    - now apply selected_ids_distinct.
    - change newId with (c_id row). now apply in_map. }
  rewrite H1, H2. eapply Forall_impl; [|exact L2]. intros l [Hin _]. exact Hin.
Qed.

End Submission.

Definition plainColumn (e : list float) : list float := e.

Lemma submission_outcome_witness :
  fst (submitComplaint plainColumn "c0a80101-0000-4000-8000-000000000003"
         1700000200000 "log-2" "log-3" scenarioC " ward 5 "
         DiscoveryFacts.pendingStore)
  = Submitted "c0a80101-0000-4000-8000-000000000003"
  /\ complaints_table
       (snd (submitComplaint plainColumn "c0a80101-0000-4000-8000-000000000003"
               1700000200000 "log-2" "log-3" scenarioC " ward 5 "
               DiscoveryFacts.pendingStore))
     = (complaints_table DiscoveryFacts.pendingStore
        ++ [submittedRow plainColumn "c0a80101-0000-4000-8000-000000000003"
              1700000200000 scenarioC " ward 5 "])%list
  /\ eligible
       (submittedRow plainColumn "c0a80101-0000-4000-8000-000000000003"
          1700000200000 scenarioC " ward 5 ") = true.
Proof.
  apply (submission_outcome plainColumn "c0a80101-0000-4000-8000-000000000003"
           1700000200000 "log-2" "log-3" scenarioC " ward 5 "
           DiscoveryFacts.pendingStore).
  - cbn [DiscoveryFacts.pendingStore complaints_table map c_id
         DiscoveryFacts.analyzedComplaint DiscoveryFacts.newComplaint In].
    intros [H|[H|[]]]; discriminate H.
  - reflexivity.
Defined.

Lemma submitted_complaint_is_analyzed_witness :
  exists db' created,
    discoveryAgent DiscoveryFacts.fixedTitle DiscoveryFacts.firstDraw
      DiscoveryFacts.numberedId "log-1"
      (snd (submitComplaint plainColumn "c0a80101-0000-4000-8000-000000000003"
              1700000200000 "log-2" "log-3" scenarioC " ward 5 "
              DiscoveryFacts.pendingStore))
    = Completed db' created
    /\ In (DiscoveryShape.analyzed
             (submittedRow plainColumn "c0a80101-0000-4000-8000-000000000003"
                1700000200000 scenarioC " ward 5 "))
          (complaints_table db')
    /\ List.length
         (filter (fun l => String.eqb (l_complaint_id l)
                             "c0a80101-0000-4000-8000-000000000003")
            (complaint_problems_table db')) = 1%nat
    /\ Forall (fun l => In (l_problem_id l) (map p_id (problems_table db')))
         (complaint_problems_table db').
Proof.
  apply (submitted_complaint_is_analyzed plainColumn
           "c0a80101-0000-4000-8000-000000000003" 1700000200000 "log-2" "log-3"
           DiscoveryFacts.fixedTitle DiscoveryFacts.firstDraw
           DiscoveryFacts.numberedId "log-1" scenarioC " ward 5 "
           DiscoveryFacts.pendingStore).
  - cbn [DiscoveryFacts.pendingStore complaints_table map c_id
         DiscoveryFacts.analyzedComplaint DiscoveryFacts.newComplaint].
    repeat constructor; cbn [In]; intros H; repeat destruct H as [H|H];
      try discriminate H; exact H.
  - cbn [DiscoveryFacts.pendingStore complaints_table map c_id
         DiscoveryFacts.analyzedComplaint DiscoveryFacts.newComplaint In].
    intros [H|[H|[]]]; discriminate H.
  - repeat constructor. discriminate.
  - repeat constructor. discriminate.
  - reflexivity.
Defined.

End OrchestratorFacts.
